(** * Image and PDF toolkits: a shallow embedding of the component logic

    The development follows the sources of the application:
    - [lib/utils/file.ts]      ([getFileStem], [deriveFileName]),
    - [lib/utils/format.ts]    ([formatBytes]),
    - [lib/utils/download.ts]  ([downloadBlob]),
    - [ImageToolkit.svelte]    (sizing, file selection, export, settings),
    - the PDF toolkit component (page selection, page order, export).

    Conventions.
    - A JavaScript string is a [string]; every [ascii] stands for one code
      unit.  The functions below only tell apart ".", "/", "-", "_" and the
      ASCII letters and digits, all other code units behave alike.
    - A JavaScript number that the code keeps integral (pixel sizes, byte
      counts, array positions) is a [Z]; any other number is the rational
      [Q] that the double denotes.  A product or a quotient that the code
      computes is rounded to the nearest double, ties to even, as IEEE 754
      binary64 does ([JS.mul], [JS.div]); the sizes are far from the
      largest double, so no operation overflows.  [NaN] (an empty number
      field) is [None].
    - [null] and [undefined] are [None].
    - Browser objects (object URLs, DOM nodes, cropper instances, the local
      storage area) are kept in an explicit [World] that the handlers
      thread through. *)

From Stdlib Require Import ZArith QArith Qround Qpower Strings.String Strings.Ascii.
From Stdlib Require Import Numbers.DecimalString Lia Lqa.
From stdpp Require Import gmap strings list.
From coqutil Require Import Datatypes.RecordSetters.
Import RecordSetters.TriangleBracketNotations.

#[local] Set Warnings "-clear-no-such-hyp".
Local Open Scope Z_scope.

(** ** JavaScript primitives used by the sources *)
Module JS.

(** *** Doubles

    A finite double is the rational it denotes.  [binary64 x] is the
    double nearest to the rational [x], the one with the even significand
    on a tie: a significand of 53 bits, and a fixed step of [2^-1074]
    below [2^-1022]. *)

Definition pow2 (k : Z) : Q := (2 ^ k)%Q.

(** The integer part of the binary logarithm of a positive [x]: the
    logarithms of numerator and denominator give it but for [1]. *)
Definition exponent (x : Q) : Z :=
  let a := Z.log2 (Qnum x) - Z.log2 (Zpos (Qden x)) in
  if Qle_bool (pow2 a) x then a else a - 1.

(** The nearest integer, the even one on a tie. *)
Definition nearest_even (x : Q) : Z :=
  let f := Qfloor x in
  match Qcompare (x - inject_Z f) (1 # 2) with
  | Lt => f
  | Gt => f + 1
  | Eq => if Z.even f then f else f + 1
  end.

Definition binary64_pos (x : Q) : Q :=
  let shift := Z.max (exponent x - 52) (-1074) in
  Qred (inject_Z (nearest_even (x * pow2 (- shift))) * pow2 shift).

Definition binary64 (x : Q) : Q :=
  match Qcompare x 0 with
  | Eq => 0%Q
  | Gt => binary64_pos (Qred x)
  | Lt => Qopp (binary64_pos (Qred (Qopp x)))
  end.

(** [a * b] and [a / b] on doubles, for a divisor that is not zero. *)
Definition mul (a b : Q) : Q := binary64 (a * b).
Definition div (a b : Q) : Q := binary64 (a / b).

(** [Math.round]: the nearest integer, a tie going up. *)
Definition round (x : Q) : Z := Qfloor (x + (1 # 2)).

(** [Math.floor]. *)
Definition floor (x : Q) : Z := Qfloor x.

(** [a > b] and [a >= b] on quotients. *)
Definition Qgtb (a b : Q) : bool := negb (Qle_bool a b).
Definition Qgeb (a b : Q) : bool := Qle_bool b a.

(** [Math.min] on quotients. *)
Definition Qmin (a b : Q) : Q := if Qle_bool a b then a else b.

(** The truth value of an integral number: every number but [0]. *)
Definition truthyZ (n : Z) : bool := negb (n =? 0).

(** The truth value of a nullable integral number. *)
Definition truthyOptZ (n : option Z) : bool :=
  match n with
  | Some v => truthyZ v
  | None => false
  end.

(** The truth value of a quotient. *)
Definition truthyQ (q : Q) : bool := negb (Qnum q =? 0).

(** The truth value of a string: every string but the empty one. *)
Definition truthyStr (s : string) : bool :=
  match s with
  | EmptyString => false
  | String _ _ => true
  end.

(** [s.includes(sub)]. *)
Fixpoint includes (s sub : string) : bool :=
  String.prefix sub s ||
  match s with
  | EmptyString => false
  | String _ rest => includes rest sub
  end.

(** [s.startsWith(p)]. *)
Definition startsWith (s p : string) : bool := String.prefix p s.

(** The decimal numeral of a natural number, as [String(n)] prints it. *)
Definition decimal (n : Z) : string :=
  NilZero.string_of_uint (N.to_uint (Z.to_N n)).

(** [x.toFixed(digits)] for [x >= 0] and [digits] in {0, 1}: the integer
    [n] with [n / 10^digits] nearest to [x] (the larger one on a tie),
    printed with [digits] decimals. *)
Definition toFixed (x : Q) (digits : nat) : string :=
  match digits with
  | O => decimal (Qfloor (x + (1 # 2)))
  | _ =>
      let n := Qfloor (x * inject_Z 10 + (1 # 2)) in
      (decimal (n / 10) +:+ "." +:+ decimal (n mod 10))%string
  end.

(** [Array.prototype.splice(start, deleteCount, ...items)] with integral
    arguments: the removed elements and the array after the call.  A
    negative [start] counts from the end, and both arguments are clamped
    to the array. *)
Definition splice {A} (arr : list A) (start deleteCount : Z) (items : list A)
  : list A * list A :=
  let len := Z.of_nat (length arr) in
  let from := if start <? 0 then Z.max (len + start) 0 else Z.min start len in
  let count := Z.min (Z.max deleteCount 0) (len - from) in
  let removed := take (Z.to_nat count) (drop (Z.to_nat from) arr) in
  (removed,
   take (Z.to_nat from) arr ++ items ++ drop (Z.to_nat (from + count)) arr).

End JS.

(** ** [lib/utils/format.ts] *)
Module Format.

Definition UNITS : list string := ["B"; "KB"; "MB"; "GB"]%string.

(** The loop of [formatBytes]:
    [while (value >= 1024 && unitIndex < UNITS.length - 1)].  The second
    conjunct bounds the iterations by the units that remain, which is the
    structural argument [remaining]. *)
Fixpoint scale (remaining : nat) (value : Q) (unitIndex : nat) : Q * nat :=
  match remaining with
  | O => (value, unitIndex)
  | S r =>
      if JS.Qgeb value (inject_Z 1024)
      then scale r (value / inject_Z 1024) (S unitIndex)
      else (value, unitIndex)
  end.

(** [formatBytes(input, fractionDigits = 1)] on a finite number.  The
    loop divides a double that is 1024 at least by a power of two: the
    quotient is a double again, and [scale] writes it without rounding. *)
Definition formatBytes (input : Q) : string :=
  if JS.Qgtb 0 input then "0 B"%string
  else
    let '(value, unitIndex) := scale (length UNITS - 1) input 0 in
    let digits :=
      if JS.Qgeb value (inject_Z 10) || (unitIndex =? 0)%nat then O else 1%nat in
    (JS.toFixed value digits +:+ " " +:+ nth unitIndex UNITS "")%string.

End Format.

(** ** [lib/utils/file.ts] *)
Module FileUtil.

Definition is_dash (c : ascii) : bool := Ascii.eqb c "-".

(** The class [[^./]]. *)
Definition not_dot_or_slash (c : ascii) : bool :=
  negb (Ascii.eqb c "." || Ascii.eqb c "/").

Fixpoint all_chars (p : ascii -> bool) (s : string) : bool :=
  match s with
  | EmptyString => true
  | String c r => p c && all_chars p r
  end.

(** Does [/\.[^./]+$/] match the whole of [s]? *)
Definition extension_here (s : string) : bool :=
  match s with
  | String "." (String _ _ as rest) => all_chars not_dot_or_slash rest
  | _ => false
  end.

(** [fileName.replace(/\.[^./]+$/, '')]: the leftmost match runs to the
    end of the string and is dropped. *)
Fixpoint getFileStem (fileName : string) : string :=
  if extension_here fileName then EmptyString
  else
    match fileName with
    | EmptyString => EmptyString
    | String c r => String c (getFileStem r)
    end.

(** The class [[a-z0-9-_]] under the flag [i]. *)
Definition is_name_char (c : ascii) : bool :=
  let n := nat_of_ascii c in
  ((97 <=? n) && (n <=? 122) || (65 <=? n) && (n <=? 90)
   || (48 <=? n) && (n <=? 57))%nat
  || is_dash c || Ascii.eqb c "_".

(** [.replace(/[^a-z0-9-_]/gi, '-')]. *)
Fixpoint replace_other_chars (s : string) : string :=
  match s with
  | EmptyString => EmptyString
  | String c r =>
      String (if is_name_char c then c else "-"%char) (replace_other_chars r)
  end.

(** [.replace(/-+/g, '-')]: a dash followed by a dash is dropped, the last
    dash of a run stays. *)
Fixpoint collapse_dashes (s : string) : string :=
  match s with
  | EmptyString => EmptyString
  | String c r =>
      if is_dash c then
        match r with
        | String c' _ =>
            if is_dash c' then collapse_dashes r
            else String c (collapse_dashes r)
        | EmptyString => String c EmptyString
        end
      else String c (collapse_dashes r)
  end.

(** The alternative [^-] of [/^-|-$/g]. *)
Definition strip_leading_dash (s : string) : string :=
  match s with
  | String c r => if is_dash c then r else s
  | EmptyString => EmptyString
  end.

(** The alternative [-$] of [/^-|-$/g]. *)
Fixpoint strip_trailing_dash (s : string) : string :=
  match s with
  | EmptyString => EmptyString
  | String c EmptyString => if is_dash c then EmptyString else s
  | String c r => String c (strip_trailing_dash r)
  end.

(** [.replace(/^-|-$/g, '')]: the search goes left to right, so a dash at
    the start is taken by [^-] and the rest is searched for [-$]. *)
Definition trim_dashes (s : string) : string :=
  strip_trailing_dash (strip_leading_dash s).

Definition sanitise (originalName : string) : string :=
  trim_dashes (collapse_dashes (replace_other_chars (getFileStem originalName))).

(** The template part [${suffix ? `-${suffix}` : ''}]. *)
Definition suffix_part (suffix : option string) : string :=
  match suffix with
  | Some sfx => if JS.truthyStr sfx then ("-" +:+ sfx)%string else EmptyString
  | None => EmptyString
  end.

Definition stem_of (originalName : string) : string :=
  let cleaned := sanitise originalName in
  if JS.truthyStr cleaned then cleaned else "processed-file"%string.

Definition deriveFileName
    (originalName targetExtension : string) (suffix : option string) : string :=
  (stem_of originalName +:+ suffix_part suffix +:+ "." +:+ targetExtension)%string.

(** *** What a clean stem is *)

Definition starts_with_dash (s : string) : bool :=
  match s with
  | String c _ => is_dash c
  | EmptyString => false
  end.

Fixpoint ends_with_dash (s : string) : bool :=
  match s with
  | EmptyString => false
  | String c EmptyString => is_dash c
  | String _ r => ends_with_dash r
  end.

(** Are there two dashes in a row? *)
Fixpoint has_dash_run (s : string) : bool :=
  match s with
  | String a (String b _ as r) => is_dash a && is_dash b || has_dash_run r
  | _ => false
  end.

Definition clean_stem (s : string) : Prop :=
  s <> EmptyString /\
  all_chars is_name_char s = true /\
  starts_with_dash s = false /\
  ends_with_dash s = false /\
  has_dash_run s = false.

End FileUtil.

(** ** Browser objects *)
Module Browser.

Record Blob := { blob_size : Z; blob_type : string }.

Record File := { file_name : string; file_size : Z; file_type : string }.

Record Canvas := { canvas_width : Z; canvas_height : Z }.

(** An [HTMLImageElement], as far as the component looks at it. *)
Record ImageElement := { complete : bool }.

#[local] Set Warnings "-register-all".

(** A value that [JSON.parse] can return. *)
Inductive json :=
| JNull
| JBool (b : bool)
| JNum (q : Q)
| JStr (s : string)
| JArr (items : list json)
| JObj (fields : list (string * json)).

Definition truthy (v : json) : bool :=
  match v with
  | JNull => false
  | JBool b => b
  | JNum q => JS.truthyQ q
  | JStr s => JS.truthyStr s
  | JArr _ | JObj _ => true
  end.

(** A property read [v.key] on a parsed value that is not [null]: own
    properties of an object (its keys are distinct), [undefined] on every
    other value. *)
Definition prop (v : json) (key : string) : option json :=
  match v with
  | JObj fields => snd <$> List.find (fun kv => String.eqb (fst kv) key) fields
  | _ => None
  end.

(** An entry of the local storage area.  The stored text is kept as the
    value it denotes: [Parsed v] is the text [JSON.stringify(v)], which
    [JSON.parse] reads back as [v]; [Unparsable] is a text that
    [JSON.parse] rejects (the empty text among them). *)
Inductive item :=
| Parsed (v : json)
| Unparsable.

Record World := {
  liveUrls : gset nat;          (* object URLs created and not revoked *)
  nextUrl : nat;                (* the next URL [createObjectURL] returns *)
  bodyChildren : list nat;      (* the child nodes of [document.body] *)
  nextNode : nat;               (* the next node [createElement] returns *)
  downloads : list (nat * string);  (* [link.click()]: href and download name *)
  liveCroppers : gset nat;      (* cropper instances not destroyed *)
  nextCropper : nat;
  storageEnabled : bool;        (* does [localStorage] answer, or throw? *)
  storage : gmap string item
}.

(** [URL.createObjectURL]. *)
Definition createObjectURL (w : World) : nat * World :=
  let url := nextUrl w in
  (url, w <| liveUrls := {[url]} ∪ liveUrls w |> <| nextUrl := S url |>).

(** [URL.revokeObjectURL(url)]. *)
Definition revokeObjectURL (url : nat) (w : World) : World :=
  w <| liveUrls := liveUrls w ∖ {[url]} |>.

(** [document.createElement]. *)
Definition createElement (w : World) : nat * World :=
  let node := nextNode w in
  (node, w <| nextNode := S node |>).

(** [document.body.appendChild(node)]: the node becomes the last child; a
    node that is a child already is moved. *)
Definition appendChild (node : nat) (w : World) : World :=
  w <| bodyChildren := filter (fun n => n ≠ node) (bodyChildren w) ++ [node] |>.

(** [document.body.removeChild(node)]. *)
Definition removeChild (node : nat) (w : World) : World :=
  w <| bodyChildren := filter (fun n => n ≠ node) (bodyChildren w) |>.

(** [new CropperCtor(...)]. *)
Definition newCropper (w : World) : nat * World :=
  let c := nextCropper w in
  (c, w <| liveCroppers := {[c]} ∪ liveCroppers w |> <| nextCropper := S c |>).

(** [cropper.destroy()]. *)
Definition destroy (c : nat) (w : World) : World :=
  w <| liveCroppers := liveCroppers w ∖ {[c]} |>.

(** The browser when the page has just been opened. *)
Definition freshWorld : World :=
  {| liveUrls := ∅; nextUrl := O; bodyChildren := []; nextNode := O;
     downloads := []; liveCroppers := ∅; nextCropper := O;
     storageEnabled := true; storage := ∅ |}.

(** Nodes and URLs handed out so far are below the counters. *)
Definition world_ok (w : World) : Prop :=
  (∀ n, n ∈ bodyChildren w → (n < nextNode w)%nat) ∧
  (∀ u, u ∈ liveUrls w → (u < nextUrl w)%nat).

End Browser.

(** ** [lib/utils/download.ts] *)
Module Download.
Import Browser.

Definition downloadBlob (blob : Blob) (filename : string) (w : World) : World :=
  let '(link, w) := createElement w in
  let '(url, w) := createObjectURL w in
  (* link.href = url; link.download = filename; link.style.display = 'none' *)
  let w := appendChild link w in
  let w := w <| downloads := downloads w ++ [(url, filename)] |> in  (* link.click() *)
  let w := removeChild link w in
  revokeObjectURL url w.

End Download.

(** ** The image toolkit component: state and sizing *)
Module ImageToolkit.
Import Browser.
Local Open Scope string_scope.

Definition MAX_FILE_SIZE_BYTES : Z := 50 * 1024 * 1024.
Definition MAX_DIMENSION : Z := 8192.
Definition CUSTOM_PRESET_VALUE : string := "custom".
Definition SETTINGS_KEY : string := "image-toolkit-settings-v1".

Inductive CropShape := Square | Circle.
Inductive Mode := Resize | Crop.
Inductive Changed := Width | Height.

Record FormatOption := {
  fmt_label : string;
  fmt_value : string;
  fmt_extension : string;
  fmt_lossless : bool
}.

Record PresetOption := {
  preset_value : string;
  preset_label : string;
  preset_width : Z;
  preset_height : Z;
  preset_maintainAspect : option bool;
  preset_shape : option CropShape
}.

Definition FORMAT_PNG : FormatOption :=
  {| fmt_label := "PNG · lossless"; fmt_value := "image/png";
     fmt_extension := "png"; fmt_lossless := true |}.

Definition FORMAT_OPTIONS : list FormatOption :=
  [ FORMAT_PNG;
    {| fmt_label := "JPEG · smaller files"; fmt_value := "image/jpeg";
       fmt_extension := "jpg"; fmt_lossless := false |};
    {| fmt_label := "WEBP · modern"; fmt_value := "image/webp";
       fmt_extension := "webp"; fmt_lossless := false |};
    {| fmt_label := "AVIF · experimental"; fmt_value := "image/avif";
       fmt_extension := "avif"; fmt_lossless := false |} ].

Definition square_preset (v l : string) (w h : Z) : PresetOption :=
  {| preset_value := v; preset_label := l; preset_width := w;
     preset_height := h; preset_maintainAspect := Some true;
     preset_shape := Some Square |}.

Definition PRESET_OPTIONS : list PresetOption :=
  [ square_preset "passport_us" "Passport (US) · 600–1200×600–1200" 600 600;
    {| preset_value := "passport_sg"; preset_label := "Passport (SG) · 400×514";
       preset_width := 400; preset_height := 514;
       preset_maintainAspect := Some true; preset_shape := None |};
    square_preset "avatar_instagram"
      "Instagram Profile · 320×320 (square, larger OK)" 320 320;
    square_preset "avatar_facebook" "Facebook Profile · ≥170×170 (square)" 400 400;
    square_preset "avatar_linkedin" "LinkedIn Profile · ≥400×400 (square)" 400 400;
    square_preset "avatar_twitter" "Twitter/X Profile · 400×400" 400 400;
    square_preset "avatar_github" "GitHub Avatar · 500×500" 500 500;
    square_preset "avatar_tiktok" "TikTok Profile · ≥200×200 (square)" 200 200 ].

(** [PRESET_LOOKUP.get(value)]. *)
Definition PRESET_LOOKUP (value : string) : option PresetOption :=
  List.find (fun p => String.eqb (preset_value p) value) PRESET_OPTIONS.

(** The variables of the component.  The settings that [onMount] reads
    back from the storage area without a type test
    ([selectedFormatValue], [selectedPresetValue], [smoothing]) hold a
    [json]: their declared types are erased when the code runs. *)
Record State := {
  file : option File;
  objectUrl : option nat;
  resultUrl : option nat;
  resultSize : Z;
  lastBlob : option Blob;
  lastDownloadName : option string;
  processing : bool;
  statusMessage : string;
  errorMessage : string;
  cropper : option nat;
  CropperCtor : bool;            (* has the cropper module been imported? *)
  imageRef : option ImageElement;
  originalWidth : Z;
  originalHeight : Z;
  aspectRatio : Q;
  selectedFormatValue : json;
  quality : Q;
  maintainAspect : bool;
  keepAspectInResize : bool;
  lastChanged : option Changed;
  targetWidth : option Z;
  targetHeight : option Z;
  smoothing : json;
  addPrivateSuffix : bool;
  mode : Mode;
  previousMode : Mode;
  cropShape : CropShape;
  selectedPresetValue : json;
  world : World
}.

(** The literal [0.85] of [let quality = 0.85] and of
    [handleFileSelection]. *)
Definition DEFAULT_QUALITY : Q := JS.binary64 (85 # 100).

(** The declarations at the top of the script. *)
Definition initial (w : World) : State :=
  {| file := None; objectUrl := None; resultUrl := None; resultSize := 0;
     lastBlob := None; lastDownloadName := None; processing := false;
     statusMessage := ""; errorMessage := ""; cropper := None;
     CropperCtor := false; imageRef := None;
     originalWidth := 0; originalHeight := 0; aspectRatio := 1%Q;
     selectedFormatValue := JStr "image/png"; quality := DEFAULT_QUALITY;
     maintainAspect := true; keepAspectInResize := true; lastChanged := None;
     targetWidth := None; targetHeight := None; smoothing := JStr "high";
     addPrivateSuffix := true; mode := Crop; previousMode := Crop;
     cropShape := Square; selectedPresetValue := JStr CUSTOM_PRESET_VALUE;
     world := w |}.

Definition mode_eqb (a b : Mode) : bool :=
  match a, b with
  | Resize, Resize | Crop, Crop => true
  | _, _ => false
  end.

Definition json_is (v : json) (s : string) : bool :=
  match v with
  | JStr t => String.eqb t s
  | _ => false
  end.

(** [$: selectedFormat = FORMAT_OPTIONS.find(...) ?? FORMAT_OPTIONS[0]]. *)
Definition selectedFormat (s : State) : FormatOption :=
  default FORMAT_PNG
    (List.find (fun o => json_is (selectedFormatValue s) (fmt_value o)) FORMAT_OPTIONS).

Definition cleanupObjectUrl (s : State) : State :=
  match objectUrl s with
  | Some u => s <| world := revokeObjectURL u (world s) |> <| objectUrl := None |>
  | None => s
  end.

Definition cleanupResultUrl (s : State) : State :=
  match resultUrl s with
  | Some u =>
      s <| world := revokeObjectURL u (world s) |>
        <| resultUrl := None |> <| resultSize := 0 |>
        <| lastBlob := None |> <| lastDownloadName := None |>
  | None => s
  end.

Definition destroyCropper (s : State) : State :=
  match cropper s with
  | Some c => s <| world := destroy c (world s) |> <| cropper := None |>
  | None => s
  end.

Definition onDestroy (s : State) : State :=
  cleanupResultUrl (cleanupObjectUrl (destroyCropper s)).

Definition resetState (s : State) : State :=
  let s := cleanupResultUrl (cleanupObjectUrl (destroyCropper s)) in
  s <| file := None |> <| statusMessage := "" |> <| errorMessage := "" |>
    <| originalWidth := 0 |> <| originalHeight := 0 |> <| aspectRatio := 1%Q |>
    <| targetWidth := None |> <| targetHeight := None |>
    <| maintainAspect := true |> <| keepAspectInResize := true |>
    <| lastChanged := None |> <| cropShape := Square |>
    <| selectedPresetValue := JStr CUSTOM_PRESET_VALUE |>.

(** The calls [cropper.setAspectRatio], [cropper.reset] and
    [cropper.setData] act on the crop box inside the cropper instance and
    on no variable of the component; they are left out below. *)

(** [Number.isFinite(r) && r > 0] for a quotient of two non-zero numbers. *)
Definition positiveQ (r : Q) : bool := JS.Qgtb r 0%Q.

Definition changed_is (changed : option Changed) (c : Changed) : bool :=
  match changed, c with
  | Some Width, Width | Some Height, Height => true
  | _, _ => false
  end.

(** The number behind a nullable size that has tested truthy. *)
Definition num (n : option Z) : Q := inject_Z (default 0 n).

Definition alignTargetDimensionsToAspect (changed : option Changed) (s : State) : State :=
  if negb (mode_eqb (mode s) Crop) || negb (maintainAspect s) then s
  else
    let width := targetWidth s in
    let height := targetHeight s in
    if JS.truthyOptZ width && JS.truthyOptZ height then
      let nextRatio := JS.div (num width) (num height) in
      if positiveQ nextRatio then s <| aspectRatio := nextRatio |> else s
    else if changed_is changed Width && JS.truthyOptZ width
            && JS.truthyQ (aspectRatio s) then
      s <| targetHeight := Some (Z.max 1 (JS.round (JS.div (num width) (aspectRatio s)))) |>
    else if changed_is changed Height && JS.truthyOptZ height
            && JS.truthyQ (aspectRatio s) then
      s <| targetWidth := Some (Z.max 1 (JS.round (JS.mul (num height) (aspectRatio s)))) |>
    else s.

(** [n || 1]. *)
Definition or_one (n : Z) : Z := if JS.truthyZ n then n else 1.

Definition srcRatio (s : State) : Q :=
  JS.div (inject_Z (or_one (originalWidth s))) (inject_Z (or_one (originalHeight s))).

(** The two statements under [// clamp to MAX_DIMENSION]. *)
Definition clampWidth (s : State) : State :=
  match targetWidth s with
  | Some w =>
      if JS.truthyZ w && (w >? MAX_DIMENSION) then
        s <| targetWidth := Some MAX_DIMENSION |>
          <| targetHeight :=
               Some (Z.max 1 (JS.round (JS.div (inject_Z MAX_DIMENSION) (srcRatio s)))) |>
      else s
  | None => s
  end.

Definition clampHeight (s : State) : State :=
  match targetHeight s with
  | Some h =>
      if JS.truthyZ h && (h >? MAX_DIMENSION) then
        s <| targetHeight := Some MAX_DIMENSION |>
          <| targetWidth :=
               Some (Z.max 1 (JS.round (JS.mul (inject_Z MAX_DIMENSION) (srcRatio s)))) |>
      else s
  | None => s
  end.

Definition alignResizeDimensionsToAspect (changed : option Changed) (s : State) : State :=
  if negb (mode_eqb (mode s) Resize) || negb (keepAspectInResize s) then s
  else
    let width := targetWidth s in
    let height := targetHeight s in
    let s :=
      if JS.truthyOptZ width && negb (JS.truthyOptZ height) then
        s <| targetHeight := Some (Z.max 1 (JS.round (JS.div (num width) (srcRatio s)))) |>
      else if negb (JS.truthyOptZ width) && JS.truthyOptZ height then
        s <| targetWidth := Some (Z.max 1 (JS.round (JS.mul (num height) (srcRatio s)))) |>
      else if JS.truthyOptZ width && JS.truthyOptZ height then
        if changed_is changed Height then
          s <| targetWidth := Some (Z.max 1 (JS.round (JS.mul (num height) (srcRatio s)))) |>
        else
          s <| targetHeight := Some (Z.max 1 (JS.round (JS.div (num width) (srcRatio s)))) |>
      else s in
    clampHeight (clampWidth s).

(** The event handlers take [input.valueAsNumber]: [None] for [NaN]. *)
Definition nextValue (valueAsNumber : option Q) : option Z :=
  match valueAsNumber with
  | Some v =>
      let value := JS.round v in
      if value >? 0 then Some (Z.min value MAX_DIMENSION) else None
  | None => None
  end.

Definition handleTargetWidthInput (valueAsNumber : option Q) (s : State) : State :=
  let s := s <| targetWidth := nextValue valueAsNumber |>
             <| selectedPresetValue := JStr CUSTOM_PRESET_VALUE |>
             <| lastChanged := Some Width |> in
  let s := if mode_eqb (mode s) Crop
           then alignTargetDimensionsToAspect (Some Width) s else s in
  if mode_eqb (mode s) Resize && keepAspectInResize s
  then alignResizeDimensionsToAspect (Some Width) s else s.

Definition handleTargetHeightInput (valueAsNumber : option Q) (s : State) : State :=
  let s := s <| targetHeight := nextValue valueAsNumber |>
             <| selectedPresetValue := JStr CUSTOM_PRESET_VALUE |>
             <| lastChanged := Some Height |> in
  let s := if mode_eqb (mode s) Crop
           then alignTargetDimensionsToAspect (Some Height) s else s in
  if mode_eqb (mode s) Resize && keepAspectInResize s
  then alignResizeDimensionsToAspect (Some Height) s else s.

(** [Math.min(MAX_DIMENSION / w, MAX_DIMENSION / h)] for sizes that are
    not negative: a quotient by [0] is [Infinity], which [Math.min] only
    returns when both quotients are (no caller passes two zeros). *)
Definition fitScale (w h : Z) : Q :=
  if (w =? 0)%Z then JS.div (inject_Z MAX_DIMENSION) (inject_Z h)
  else if (h =? 0)%Z then JS.div (inject_Z MAX_DIMENSION) (inject_Z w)
  else JS.Qmin (JS.div (inject_Z MAX_DIMENSION) (inject_Z w))
               (JS.div (inject_Z MAX_DIMENSION) (inject_Z h)).

Definition resetSizing (s : State) : State :=
  let s := s <| targetWidth := Some (originalWidth s) |>
             <| targetHeight := Some (originalHeight s) |>
             <| maintainAspect := true |> <| keepAspectInResize := true |>
             <| selectedPresetValue := JStr CUSTOM_PRESET_VALUE |>
             <| lastChanged := None |> in
  let s := if JS.truthyZ (originalWidth s) && JS.truthyZ (originalHeight s)
           then s <| aspectRatio :=
                       JS.div (inject_Z (originalWidth s)) (inject_Z (originalHeight s)) |>
           else s in
  let s := if mode_eqb (mode s) Crop
           then alignTargetDimensionsToAspect None s else s in
  if mode_eqb (mode s) Resize && keepAspectInResize s
  then alignResizeDimensionsToAspect None s else s.

Definition useFullImage (s : State) : State :=
  if negb (mode_eqb (mode s) Crop) then s
  else if (originalWidth s =? 0)%Z || (originalHeight s =? 0)%Z then s
  else
    let exceeds :=
      (originalWidth s >? MAX_DIMENSION) || (originalHeight s >? MAX_DIMENSION) in
    let s :=
      if exceeds then
        let scale := fitScale (originalWidth s) (originalHeight s) in
        s <| targetWidth := Some (JS.floor (JS.mul (inject_Z (originalWidth s)) scale)) |>
          <| targetHeight := Some (JS.floor (JS.mul (inject_Z (originalHeight s)) scale)) |>
      else
        s <| targetWidth := Some (originalWidth s) |>
          <| targetHeight := Some (originalHeight s) |> in
    let originalRatio := JS.div (inject_Z (originalWidth s)) (inject_Z (originalHeight s)) in
    let s := if positiveQ originalRatio
             then s <| aspectRatio := originalRatio |> else s in
    let s := if maintainAspect s then alignTargetDimensionsToAspect None s else s in
    s <| selectedPresetValue := JStr CUSTOM_PRESET_VALUE |>.

(** [onMaintainAspectToggle], on [event.currentTarget.checked]. *)
Definition onMaintainAspectToggle (checked : bool) (s : State) : State :=
  let s := s <| maintainAspect := checked |> in
  if negb (mode_eqb (mode s) Crop) || negb (maintainAspect s) then s
  else
    let width := default (originalWidth s) (targetWidth s) in
    let height := default (originalHeight s) (targetHeight s) in
    let s := if JS.truthyZ width && JS.truthyZ height
             then s <| aspectRatio := JS.div (inject_Z width) (inject_Z height) |>
             else s in
    alignTargetDimensionsToAspect None s.

(** [onKeepResizeAspectToggle], on [event.currentTarget.checked]. *)
Definition onKeepResizeAspectToggle (checked : bool) (s : State) : State :=
  let s := s <| keepAspectInResize := checked |> in
  if mode_eqb (mode s) Resize && keepAspectInResize s
  then alignResizeDimensionsToAspect (Some (default Width (lastChanged s))) s
  else s.

(** The reactive block [$: { if (mode !== previousMode) ... }]. *)
Definition onModeChange (s : State) : State :=
  if mode_eqb (mode s) (previousMode s) then s
  else
    let s :=
      if negb (mode_eqb (mode s) Crop) then destroyCropper s
      else
        let s :=
          if JS.truthyOptZ (targetWidth s) && JS.truthyOptZ (targetHeight s) then
            let ratio := JS.div (num (targetWidth s)) (num (targetHeight s)) in
            if positiveQ ratio then s <| aspectRatio := ratio |> else s
          else if JS.truthyZ (originalWidth s) && JS.truthyZ (originalHeight s) then
            s <| aspectRatio :=
                   JS.div (inject_Z (originalWidth s)) (inject_Z (originalHeight s)) |>
          else s in
        alignTargetDimensionsToAspect None s in
    s <| previousMode := mode s |>.

Definition applyCropShape (shape : CropShape) (s : State) : State :=
  let s := s <| cropShape := shape |> in
  let s :=
    match shape with
    | Circle =>
        let widthCandidate := default (originalWidth s) (targetWidth s) in
        let heightCandidate := default (originalHeight s) (targetHeight s) in
        let size :=
          Z.max 1 (JS.round (inject_Z (Z.min widthCandidate heightCandidate))) in
        s <| maintainAspect := true |> <| targetWidth := Some size |>
          <| targetHeight := Some size |> <| aspectRatio := 1%Q |>
    | Square => s
    end in
  if mode_eqb (mode s) Crop && maintainAspect s
  then alignTargetDimensionsToAspect None s else s.

Definition shape_is_circle (c : CropShape) : bool :=
  match c with
  | Circle => true
  | Square => false
  end.

Definition applyPresetDimensions (preset : PresetOption) (s : State) : State :=
  let s := s <| selectedPresetValue := JStr (preset_value preset) |> in
  let w := Z.max 1 (JS.round (inject_Z (preset_width preset))) in
  let h := Z.max 1 (JS.round (inject_Z (preset_height preset))) in
  let '(w, h) :=
    if (w >? MAX_DIMENSION) || (h >? MAX_DIMENSION) then
      let scale := fitScale w h in
      (Z.max 1 (JS.floor (JS.mul (inject_Z w) scale)), Z.max 1 (JS.floor (JS.mul (inject_Z h) scale)))
    else (w, h) in
  let s := s <| targetWidth := Some w |> <| targetHeight := Some h |> in
  let presetRatio := JS.div (inject_Z w) (inject_Z h) in
  let s := if positiveQ presetRatio then s <| aspectRatio := presetRatio |> else s in
  let s :=
    if JS.startsWith (preset_value preset) "passport_" then
      s <| selectedFormatValue := JStr "image/jpeg" |> <| mode := Crop |>
        <| maintainAspect := true |> <| cropShape := Square |>
    else
      let s := s <| maintainAspect := default true (preset_maintainAspect preset) |> in
      match preset_shape preset with
      | None => if shape_is_circle (cropShape s) then applyCropShape Square s else s
      | Some _ => s
      end in
  let s := match preset_shape preset with
           | Some shape => applyCropShape shape s
           | None => s
           end in
  let s := if mode_eqb (mode s) Resize && keepAspectInResize s
           then alignResizeDimensionsToAspect None s else s in
  if mode_eqb (mode s) Crop && maintainAspect s
  then alignTargetDimensionsToAspect None s else s.

Definition onPresetSelect (value : string) (s : State) : State :=
  if String.eqb value CUSTOM_PRESET_VALUE
  then s <| selectedPresetValue := JStr CUSTOM_PRESET_VALUE |>
  else
    match PRESET_LOOKUP value with
    | None => s <| selectedPresetValue := JStr CUSTOM_PRESET_VALUE |>
    | Some preset => applyPresetDimensions preset s
    end.

(** A target size is in order when it is [null] or between 1 and
    [MAX_DIMENSION]. *)
Definition within_maximum (n : option Z) : Prop :=
  match n with
  | Some v => 1 <= v <= MAX_DIMENSION
  | None => True
  end.

(** *** Loading a file *)

Definition scaledDownMessage : string :=
  "Image scaled down for safety · output capped at "
  +:+ JS.decimal MAX_DIMENSION +:+ "px".

Definition oversizedMessage (candidate : File) : string :=
  "File is " +:+ Format.formatBytes (inject_Z (file_size candidate))
  +:+ ". Please keep images under "
  +:+ Format.formatBytes (inject_Z MAX_FILE_SIZE_BYTES) +:+ ".".

(** [handleFileSelection(candidate)].  [measured] is what [measureImage]
    resolves to, [None] when it rejects. *)
Definition handleFileSelection
    (candidate : option File) (measured : option (Z * Z)) (s : State) : State :=
  match candidate with
  | None => s
  | Some candidate =>
      if file_size candidate >? MAX_FILE_SIZE_BYTES then
        let s := resetState s in
        s <| errorMessage := oversizedMessage candidate |>
      else
        let s := resetState s in
        let s := s <| file := Some candidate |> <| addPrivateSuffix := true |>
                   <| selectedFormatValue := JStr (fmt_value FORMAT_PNG) |>
                   <| quality := DEFAULT_QUALITY |> <| smoothing := JStr "high" |>
                   <| statusMessage := "Image loaded. Adjust settings as needed." |>
                   <| selectedPresetValue := JStr CUSTOM_PRESET_VALUE |> in
        let '(url, w) := createObjectURL (world s) in
        let s := s <| world := w |> <| objectUrl := Some url |> in
        match measured with
        | Some (width, height) =>
            let s := s <| originalWidth := width |> <| originalHeight := height |>
                       <| aspectRatio :=
                            if JS.truthyZ width && JS.truthyZ height
                            then JS.div (inject_Z width) (inject_Z height) else 1%Q |> in
            let s :=
              if (width >? MAX_DIMENSION) || (height >? MAX_DIMENSION) then
                let scale := fitScale width height in
                s <| targetWidth := Some (JS.floor (JS.mul (inject_Z width) scale)) |>
                  <| targetHeight := Some (JS.floor (JS.mul (inject_Z height) scale)) |>
                  <| statusMessage := scaledDownMessage |>
              else
                s <| targetWidth := Some width |> <| targetHeight := Some height |> in
            if mode_eqb (mode s) Resize && keepAspectInResize s
            then alignResizeDimensionsToAspect None s else s
        | None =>
            cleanupObjectUrl (s <| errorMessage := "Unable to read image dimensions" |>)
        end
  end.

(** *** Settings kept in the storage area *)

Definition mode_name (m : Mode) : string :=
  match m with
  | Resize => "resize"
  | Crop => "crop"
  end.

(** The object literal handed to [JSON.stringify]. *)
Definition settingsObject (s : State) : json :=
  JObj [ ("selectedFormatValue", selectedFormatValue s);
         ("quality", JNum (quality s));
         ("selectedPresetValue", selectedPresetValue s);
         ("mode", JStr (mode_name (mode s)));
         ("smoothing", smoothing s);
         ("keepAspectInResize", JBool (keepAspectInResize s)) ].

(** [localStorage.setItem(key, text)]; it throws when the area is
    disabled. *)
Definition setItem (key : string) (v : item) (w : World) : option World :=
  if storageEnabled w then Some (w <| storage := <[key := v]> (storage w) |>)
  else None.

(** The reactive block [$: { try { localStorage.setItem(...) } catch {} }]. *)
Definition persistSettings (s : State) : State :=
  match setItem SETTINGS_KEY (Parsed (settingsObject s)) (world s) with
  | Some w => s <| world := w |>
  | None => s
  end.

Definition restore_selectedFormatValue (v : json) (s : State) : State :=
  match prop v "selectedFormatValue" with
  | Some x => if truthy x then s <| selectedFormatValue := x |> else s
  | None => s
  end.

Definition restore_quality (v : json) (s : State) : State :=
  match prop v "quality" with
  | Some (JNum q) => s <| quality := q |>
  | _ => s
  end.

Definition restore_selectedPresetValue (v : json) (s : State) : State :=
  match prop v "selectedPresetValue" with
  | Some x => if truthy x then s <| selectedPresetValue := x |> else s
  | None => s
  end.

Definition restore_mode (v : json) (s : State) : State :=
  match prop v "mode" with
  | Some (JStr m) =>
      if String.eqb m "resize" then s <| mode := Resize |>
      else if String.eqb m "crop" then s <| mode := Crop |>
      else s
  | _ => s
  end.

Definition restore_smoothing (v : json) (s : State) : State :=
  match prop v "smoothing" with
  | Some x => if truthy x then s <| smoothing := x |> else s
  | None => s
  end.

Definition restore_keepAspectInResize (v : json) (s : State) : State :=
  match prop v "keepAspectInResize" with
  | Some (JBool b) => s <| keepAspectInResize := b |>
  | _ => s
  end.

(** The [try] block of [onMount]: the read throws when the area is
    disabled, [JSON.parse] throws on a text it rejects, and the first
    property read throws on [null]; each time nothing has been assigned
    yet and the [catch] block is empty. *)
Definition restoreSettings (s : State) : State :=
  if negb (storageEnabled (world s)) then s
  else
    match storage (world s) !! SETTINGS_KEY with
    | None => s
    | Some Unparsable => s
    | Some (Parsed JNull) => s
    | Some (Parsed v) =>
        restore_keepAspectInResize v
          (restore_smoothing v
             (restore_mode v
                (restore_selectedPresetValue v
                   (restore_quality v
                      (restore_selectedFormatValue v s)))))
    end.

(** The callback of [onMount], once the cropper module is imported. *)
Definition onMount (s : State) : State :=
  restoreSettings (s <| CropperCtor := true |>).

(** The reactive blocks that write a variable kept here, in the order of
    the script: the block that writes the settings, then the block on the
    mode.  The framework runs a block when a variable that it reads was
    assigned a new value, and every block once when the component is
    created.  A run of more is harmless: the first block writes again the
    entry that is there, the second one finds [mode] and [previousMode]
    equal. *)
Definition runReactiveBlocks (s : State) : State :=
  onModeChange (persistSettings s).

(** The component comes up in a browser [w].  The script runs its
    declarations; the reactive blocks run once before the first render;
    after the first render the callback of [onMount] runs, and the
    reactive blocks run on what it assigned. *)
Definition create (w : World) : State :=
  runReactiveBlocks (onMount (runReactiveBlocks (initial w))).

(** *** Producing the result *)

(** What a [catch] block receives. *)
Inductive Thrown :=
| ErrorObject (message : string)
| OtherThrown.

(** A statement of a [try] block: it runs on the component state and
    either completes with a value or throws; what it assigned before it
    threw stays assigned. *)
Definition M (A : Type) : Type := State -> State * (Thrown + A).

#[export] Instance M_ret : MRet M := fun A a s => (s, inr a).

#[export] Instance M_bind : MBind M := fun A B f m s =>
  match m s with
  | (s', inr a) => f a s'
  | (s', inl e) => (s', inl e)
  end.

Definition throw {A} (message : string) : M A :=
  fun s => (s, inl (ErrorObject message)).

Definition modify (f : State -> State) : M unit := fun s => (f s, inr tt).

Definition gets {A} (f : State -> A) : M A := fun s => (s, inr (f s)).

(** What the browser answers during one run of [generateResult]. *)
Record Env := {
  getCroppedCanvas : Z -> Z -> option Canvas;   (* [null] when it gives up *)
  imageLoads : bool;                            (* does [new Image()] load? *)
  context2d : bool;                             (* is [getContext('2d')] there? *)
  toBlob : Canvas -> string -> option Q -> option Blob
}.

Definition loadOrientedImageElement (env : Env) : M unit :=
  ref ← gets imageRef;
  match ref with
  | Some {| complete := true |} => mret tt
  | _ =>
      url ← gets objectUrl;
      fallbackObjectUrl ←
        match url with
        | Some _ => mret None
        | None =>
            w ← gets world;
            let '(u, w') := createObjectURL w in
            modify (fun s => s <| world := w' |>);; mret (Some u)
        end;
      (if imageLoads env then mret tt
       else throw "Failed to load image for resizing");;
      match fallbackObjectUrl with
      | Some u => modify (fun s => s <| world := revokeObjectURL u (world s) |>)
      | None => mret tt
      end
  end.

(** [document.createElement('canvas')] with its size set, then
    [getContext('2d')]. *)
Definition newCanvas (env : Env) (width height : Z) (failure : string) : M Canvas :=
  modify (fun s => s <| world := snd (createElement (world s)) |>);;
  if context2d env
  then mret {| canvas_width := width; canvas_height := height |}
  else throw failure.

Definition canvasFromOriginal (env : Env) (width height : Z) : M Canvas :=
  f ← gets file;
  match f with
  | None => throw "No image loaded"
  | Some _ =>
      loadOrientedImageElement env;;
      newCanvas env width height "Failed to create drawing context"
  end.

Definition canvasViaCropperFullFrame (env : Env) (width height : Z) : M Canvas :=
  ctor ← gets CropperCtor;
  ref ← gets imageRef;
  if negb ctor || negb (bool_decide (is_Some ref))
  then canvasFromOriginal env width height
  else
    c ← gets cropper;
    tempCreated ←
      match c with
      | Some _ => mret false
      | None =>
          w ← gets world;
          let '(c', w') := newCropper w in
          modify (fun s => s <| world := w' |> <| cropper := Some c' |>);;
          mret true
      end;
    match getCroppedCanvas env width height with
    | None => throw "Unable to prepare canvas in this browser."
    | Some canvas =>
        (if tempCreated : bool then modify destroyCropper else mret tt);;
        mret canvas
    end.

Definition maskCanvasToCircle (env : Env) (input : Canvas) : M Canvas :=
  newCanvas env (canvas_width input) (canvas_height input)
    "Failed to apply circular mask".

Definition stretchCanvas (env : Env) (width height : Z) : M Canvas :=
  newCanvas env width height "Failed to create drawing context".

Definition encodeFailure : string :=
  "Browser could not encode the requested format.".

Definition canvasToBlob
    (env : Env) (canvas : Canvas) (type : string) (qualityOption : option Q) : M Blob :=
  match toBlob env canvas type qualityOption with
  | None => throw encodeFailure
  | Some blob => mret blob
  end.

Definition formatImageDimensions (width height : Z) : string :=
  JS.decimal (JS.round (inject_Z width)) +:+ " × "
  +:+ JS.decimal (JS.round (inject_Z height)).

(** The statements of the [try] block up to the call of [canvasToBlob]. *)
Definition prepareCanvas (env : Env) (width height : Z) : M Canvas :=
  m ← gets mode;
  canvas ←
    match m with
    | Crop =>
        c ← gets cropper;
        match c with
        | None =>
            throw "Cropper is still initialising. Please try again in a moment."
        | Some _ =>
            modify (fun s =>
              if maintainAspect s && JS.truthyOptZ (targetWidth s)
                 && JS.truthyOptZ (targetHeight s) then
                let ratio := JS.div (num (targetWidth s)) (num (targetHeight s)) in
                if positiveQ ratio then s <| aspectRatio := ratio |> else s
              else s);;
            match getCroppedCanvas env width height with
            | None => throw "Unable to crop image in this browser."
            | Some canvas => mret canvas
            end
        end
    | Resize =>
        keep ← gets keepAspectInResize;
        if keep : bool then canvasViaCropperFullFrame env width height
        else
          ow ← gets originalWidth;
          oh ← gets originalHeight;
          canvasViaCropperFullFrame env
            (Z.min ow MAX_DIMENSION) (Z.min oh MAX_DIMENSION);;
          stretchCanvas env width height
    end;
  shape ← gets cropShape;
  if mode_eqb m Crop && shape_is_circle shape
  then maskCanvasToCircle env canvas
  else mret canvas.

Definition readyMessage (blob : Blob) (canvas : Canvas) : string :=
  "Ready · " +:+ Format.formatBytes (inject_Z (blob_size blob)) +:+ " • "
  +:+ formatImageDimensions (canvas_width canvas) (canvas_height canvas).

Definition tryBlock (env : Env) (downloadNow : bool) (width height : Z) : M unit :=
  canvas ← prepareCanvas env width height;
  fmt ← gets selectedFormat;
  q ← gets quality;
  let qualityOption := if fmt_lossless fmt then None else Some q in
  blob ← canvasToBlob env canvas (fmt_value fmt) qualityOption;
  modify (fun s => s <| lastBlob := Some blob |> <| resultSize := blob_size blob |>);;
  modify cleanupResultUrl;;
  modify (fun s =>
    let '(url, w) := createObjectURL (world s) in
    s <| world := w |> <| resultUrl := Some url |>
      <| statusMessage := readyMessage blob canvas |>);;
  f ← gets file;
  private ← gets addPrivateSuffix;
  let name :=
    FileUtil.deriveFileName (from_option file_name "" f) (fmt_extension fmt)
      (if private : bool then Some "private" else None) in
  modify (fun s => s <| lastDownloadName := Some name |>);;
  if downloadNow
  then modify (fun s => s <| world := Download.downloadBlob blob name (world s) |>)
  else mret tt.

Definition avifHint : string :=
  "This browser cannot export AVIF yet. Try Chrome 120+ or pick WEBP/JPEG.".

Definition catchBlock (error : Thrown) (s : State) : State :=
  let message :=
    match error with
    | ErrorObject m => m
    | OtherThrown => "Unexpected processing error"
    end in
  let s :=
    if String.eqb (fmt_value (selectedFormat s)) "image/avif"
       && JS.includes message "encode"
    then s <| errorMessage := avifHint |>
    else s <| errorMessage := message |> in
  s <| statusMessage := "" |>.

(** The statements of [generateResult] between the test of [file] and the
    [try] block. *)
Definition beginProcessing (downloadNow : bool) (s : State) : State :=
  let s := s <| errorMessage := "" |> <| statusMessage := "Processing…" |>
             <| processing := true |> in
  let s := if downloadNow then cleanupResultUrl s else s in
  if mode_eqb (mode s) Resize && keepAspectInResize s
  then alignResizeDimensionsToAspect (Some (default Width (lastChanged s))) s
  else s.

(** [Math.max(1, targetWidth ?? originalWidth)], and the same for the height. *)
Definition outputWidth (s : State) : Z :=
  Z.max 1 (default (originalWidth s) (targetWidth s)).

Definition outputHeight (s : State) : Z :=
  Z.max 1 (default (originalHeight s) (targetHeight s)).

Definition generateResult (env : Env) (downloadNow : bool) (s : State) : State :=
  match file s with
  | None => s <| errorMessage := "Select an image first." |>
  | Some _ =>
      let s := beginProcessing downloadNow s in
      let s :=
        match tryBlock env downloadNow (outputWidth s) (outputHeight s) s with
        | (s', inr _) => s'
        | (s', inl error) => catchBlock error s'
        end in
      s <| processing := false |>
  end.

(** *** What a block of statements leaves alone *)

(** [preserves g m]: running [m] leaves [g] of the state as it was, whether
    [m] completes or throws. *)
Definition preserves {B A} (g : State -> B) (m : M A) : Prop :=
  forall s, g (fst (m s)) = g s.

(** A function of the state that only looks at the chosen format, the
    quality and the loaded file. *)
Definition reads_settings {B} (g : State -> B) : Prop :=
  forall s s', selectedFormatValue s = selectedFormatValue s' ->
               quality s = quality s' -> file s = file s' -> g s = g s'.

(** *** Downloading the result again *)

(** [downloadExisting()]: the blob of the last result is handed over again
    when there is one, else the result is produced anew. *)
Definition downloadExisting (env : Env) (s : State) : State :=
  match lastBlob s, lastDownloadName s with
  | Some blob, Some name =>
      if JS.truthyStr name
      then s <| world := Download.downloadBlob blob name (world s) |>
      else generateResult env true s
  | _, _ => generateResult env true s
  end.

(** *** Edits of the size fields *)

(** What the user does to the sizes: a number typed into one of the two
    fields ([None] for a field that is emptied), or a reset. *)
Inductive SizeEdit :=
| EditWidth (valueAsNumber : option Q)
| EditHeight (valueAsNumber : option Q)
| ResetSizes.

Definition applySizeEdit (s : State) (e : SizeEdit) : State :=
  match e with
  | EditWidth v => handleTargetWidthInput v s
  | EditHeight v => handleTargetHeightInput v s
  | ResetSizes => resetSizing s
  end.

End ImageToolkit.

(** ** The PDF toolkit component: page selection and page order *)
Module PdfToolkit.
Import Browser.
Local Open Scope string_scope.

(** A loaded document.  The fields that no function below reads
    ([size], [arrayBuffer], [objectUrl], [metadata], [pageThumbs],
    [previewUrl]) are left out.  [id] is the value of
    [crypto.randomUUID()], which never repeats: the [n]-th call gives
    [n]. *)
Record LoadedPdf := {
  id : nat;
  name : string;
  pageCount : nat;
  pageSelection : gset nat;
  lastSelectedIndex : option nat;
  pageOrder : list nat       (* logical order of pages *)
}.

Record ImageAsset := {
  asset_id : nat;
  asset_name : string;
  asset_size : Z;
  asset_width : Z;
  asset_height : Z
}.

(** A page of a document that is being written. *)
Inductive Page :=
| Copied (sourceIndex : nat)   (* a page copied from the source document *)
| Blank.                       (* the page [save] adds to an empty document *)

Record State := {
  pdfFiles : list LoadedPdf;
  imageAssets : list ImageAsset;
  statusMessage : string;
  errorMessage : string;
  processing : bool;
  addPrivateSuffix : bool;
  dragPos : option Z;
  imgDragPos : option Z;
  nextId : nat;                          (* calls of [randomUUID] so far *)
  saved : list (string * list Page);     (* documents handed to [downloadBlob] *)
  world : World
}.

Definition initial (w : World) : State :=
  {| pdfFiles := []; imageAssets := []; statusMessage := ""; errorMessage := "";
     processing := false; addPrivateSuffix := true; dragPos := None;
     imgDragPos := None; nextId := O; saved := []; world := w |}.

(** [pdfFiles.findIndex(p => p.id === id)], [None] for [-1]. *)
Definition findIndexById (i : nat) (l : list LoadedPdf) : option nat :=
  fst <$> list_find (fun p => id p = i) l.

(** [replacePdfById(id, patch)]: the patch is spread over the document
    that is in the list now. *)
Definition replacePdfById (i : nat) (patch : LoadedPdf -> LoadedPdf) (st : State) : State :=
  match findIndexById i (pdfFiles st) with
  | None => st
  | Some idx =>
      match pdfFiles st !! idx with
      | Some current =>
          st <| pdfFiles := (take idx (pdfFiles st) ++ [patch current]
                             ++ drop (S idx) (pdfFiles st))%list |>
      | None => st
      end
  end.

Definition setPageSelection
    (pdf : LoadedPdf) (next : gset nat) (last : option nat) (st : State) : State :=
  replacePdfById (id pdf)
    (fun p => p <| pageSelection := next |> <| lastSelectedIndex := last |>) st.

(** [for (let i = start; i < stop; i += 1) next.add(i)]. *)
Definition addRange (start stop : nat) (next : gset nat) : gset nat :=
  foldl (fun acc i => {[i]} ∪ acc) next (seq start (stop - start)).

Definition togglePageSelection
    (pdf : LoadedPdf) (pageIndex : nat) (shiftKey : bool) (st : State) : State :=
  let next := pageSelection pdf in
  let next :=
    match shiftKey, lastSelectedIndex pdf with
    | true, Some last =>
        addRange (Nat.min last pageIndex) (S (Nat.max last pageIndex)) next
    | _, _ =>
        if bool_decide (pageIndex ∈ next) then next ∖ {[pageIndex]}
        else {[pageIndex]} ∪ next
    end in
  setPageSelection pdf next (Some pageIndex) st.

Definition selectAllPages (pdf : LoadedPdf) (st : State) : State :=
  setPageSelection pdf (addRange 0 (pageCount pdf) ∅) (lastSelectedIndex pdf) st.

Definition clearPageSelection (pdf : LoadedPdf) (st : State) : State :=
  setPageSelection pdf ∅ None st.

(** [onPageGridKeydown(pdf, event)], on [event.key]. *)
Definition onPageGridKeydown (pdf : LoadedPdf) (key : string) (st : State) : State :=
  if String.eqb key "a" || String.eqb key "A" then
    if (size (pageSelection pdf) =? pageCount pdf)%nat
    then clearPageSelection pdf st else selectAllPages pdf st
  else st.

(** The two [splice] calls that take one element out and put it back. *)
Definition reinsert {A} (l : list A) (fromPos toPos : Z) : option (list A) :=
  let '(removed, rest) := JS.splice l fromPos 1 [] in
  match removed with
  | x :: _ => Some (snd (JS.splice rest toPos 0 [x]))
  | [] => None     (* nothing stood at [fromPos]: [undefined] would go in *)
  end.

Definition movePage (pdf : LoadedPdf) (fromPos toPos : Z) (st : State) : State :=
  if (fromPos =? toPos)%Z then st
  else
    let order := pageOrder pdf in
    let len := Z.of_nat (length order) in
    if (fromPos <? 0)%Z || (fromPos >=? len)%Z then st
    else if (toPos <? 0)%Z || (toPos >=? len)%Z then st
    else
      match reinsert order fromPos toPos with
      | Some order' => replacePdfById (id pdf) (fun p => p <| pageOrder := order' |>) st
      | None => st
      end.

Definition movePageStep (pdf : LoadedPdf) (pos dir : Z) (st : State) : State :=
  movePage pdf pos (pos + dir) st.

Definition onDragStart (pos : Z) (st : State) : State :=
  st <| dragPos := Some pos |>.

Definition onDrop (pdf : LoadedPdf) (pos : Z) (st : State) : State :=
  match dragPos st with
  | None => st
  | Some from => (movePage pdf from pos st) <| dragPos := None |>
  end.

(** [movePdf(index, direction)].  The buttons pass the [index] of a row
    that is drawn.  The code tests [newIndex] only: for an [index] past
    the end it would put [undefined] into the list, a value that the list
    of this model cannot hold; the list is left as it is then. *)
Definition movePdf (index direction : Z) (st : State) : State :=
  let newIndex := (index + direction)%Z in
  if (newIndex <? 0)%Z || (newIndex >=? Z.of_nat (length (pdfFiles st)))%Z then st
  else
    match reinsert (pdfFiles st) index newIndex with
    | Some updated => st <| pdfFiles := updated |>
    | None => st
    end.

Definition moveImage (fromPos toPos : Z) (st : State) : State :=
  if (fromPos =? toPos)%Z then st
  else
    let next := imageAssets st in
    let len := Z.of_nat (length next) in
    if (fromPos <? 0)%Z || (fromPos >=? len)%Z then st
    else if (toPos <? 0)%Z || (toPos >=? len)%Z then st
    else
      match reinsert next fromPos toPos with
      | Some next' => st <| imageAssets := next' |>
      | None => st
      end.

Definition moveImageStep (pos dir : Z) (st : State) : State :=
  moveImage pos (pos + dir) st.

Definition onImageDragStart (pos : Z) (st : State) : State :=
  st <| imgDragPos := Some pos |>.

Definition onImageDrop (pos : Z) (st : State) : State :=
  match imgDragPos st with
  | None => st
  | Some from => (moveImage from pos st) <| imgDragPos := None |>
  end.

(** *** Loading documents *)

(** A file of the input, as [loadPdfFiles] sees it: [cand_pages] is the
    page count that the PDF library reports, [None] when it cannot read
    the file. *)
Record Candidate := {
  cand_name : string;
  cand_isPdf : bool;       (* the type is PDF or the name ends in .pdf *)
  cand_pages : option nat
}.

Definition plural (n : nat) : string := if (n =? 1)%nat then "" else "s".

(** The body of the loop of [loadPdfFiles]. *)
Definition loadOne (acc : list LoadedPdf * State) (file : Candidate)
  : list LoadedPdf * State :=
  let '(newPdfs, st) := acc in
  if negb (cand_isPdf file) then
    (newPdfs, st <| errorMessage := "Skipped " +:+ cand_name file +:+ " (not a PDF)." |>)
  else
    match cand_pages file with
    | Some n =>
        let pdf := {| id := nextId st; name := cand_name file; pageCount := n;
                      pageSelection := ∅; lastSelectedIndex := None;
                      pageOrder := seq 0 n |} in
        ((newPdfs ++ [pdf])%list, st <| nextId := S (nextId st) |>)
    | None =>
        (newPdfs, st <| errorMessage := "Unable to read " +:+ cand_name file +:+ "." |>)
    end.

Definition loadPdfFiles (files : list Candidate) (st : State) : State :=
  let '(newPdfs, st) := foldl loadOne ([], st) files in
  st <| pdfFiles := (pdfFiles st ++ newPdfs)%list |>
     <| statusMessage :=
          "Loaded " +:+ JS.decimal (Z.of_nat (length newPdfs)) +:+ " PDF"
          +:+ plural (length newPdfs) +:+ "." |>.

(** *** Exporting the selected pages *)

(** [out.copyPages(src, indices)] gives one page for every index; an
    index that [src] does not have makes it throw. *)
Definition copyPages (srcPageCount : nat) (indices : list nat) : option (list Page) :=
  if forallb (fun i => (i <? srcPageCount)%nat) indices
  then Some (Copied <$> indices) else None.

(** [out.save()] writes the pages that were added, and one blank page
    when none was. *)
Definition save (pages : list Page) : list Page :=
  match pages with
  | [] => [Blank]
  | _ => pages
  end.

(** [parts.join('-')] on page numbers. *)
Fixpoint join_numbers (parts : list nat) : string :=
  match parts with
  | [] => ""
  | [n] => JS.decimal (Z.of_nat n)
  | n :: rest => JS.decimal (Z.of_nat n) +:+ "-" +:+ join_numbers rest
  end.

Definition exportName (pdf : LoadedPdf) (inOrder : list nat) (private : bool) : string :=
  FileUtil.deriveFileName (name pdf) "pdf"
    (Some ("pages-" +:+ join_numbers ((fun p => p + 1)%nat <$> inOrder)
           +:+ (if private then ".private" else ""))).

(** [exportSelectedPages(pdf)].  [srcLoads] tells whether the library
    reads the bytes of the document again.  Two things are left out: the
    number of saved bytes in the blob, and the text of an error of the
    library, for which the fallback text of the [catch] block stands. *)
Definition exportSelectedPages (srcLoads : bool) (pdf : LoadedPdf) (st : State) : State :=
  if (size (pageSelection pdf) =? 0)%nat
  then st <| errorMessage := "Select pages to export." |>
  else
    let st := st <| processing := true |> <| errorMessage := "" |>
                 <| statusMessage := "" |> in
    let inOrder := filter (fun idx => idx ∈ pageSelection pdf) (pageOrder pdf) in
    let st :=
      match (if srcLoads then copyPages (pageCount pdf) inOrder else None) with
      | Some copied =>
          let fileName := exportName pdf inOrder (addPrivateSuffix st) in
          st <| saved := (saved st ++ [(fileName, save copied)])%list |>
             <| world := Download.downloadBlob
                           {| blob_size := 0; blob_type := "application/pdf" |}
                           fileName (world st) |>
             <| statusMessage :=
                  "Exported " +:+ JS.decimal (Z.of_nat (length inOrder)) +:+ " page"
                  +:+ plural (length inOrder) +:+ " from " +:+ name pdf +:+ "." |>
      | None =>
          st <| errorMessage := "Unable to export selected pages." |>
      end in
    st <| processing := false |>.

(** *** The user's actions

    An action names a document by its place in the list and a page by its
    place in the grid, as the template does:
    [{#each pdfFiles as pdf, index}] and
    [{#each pdf.pageOrder as pageIndex, pos}]. *)
Inductive Action :=
| LoadPdfFiles (files : list Candidate)
| TogglePage (index pos : nat) (shiftKey : bool)
| SelectAll (index : nat)
| ClearSelection (index : nat)
| GridKey (index : nat) (key : string)
| MovePage (index : nat) (fromPos toPos : Z)
| MovePageStep (index : nat) (pos dir : Z)
| DragStart (pos : Z)
| Drop (index : nat) (pos : Z)
| MovePdf (index : nat) (direction : Z)
| Export (index : nat) (srcLoads : bool).

(** Run a handler on the document that is drawn at [index]. *)
Definition withPdf (index : nat) (f : LoadedPdf -> State -> State) (st : State) : State :=
  match pdfFiles st !! index with
  | Some pdf => f pdf st
  | None => st
  end.

Definition perform (st : State) (a : Action) : State :=
  match a with
  | LoadPdfFiles files => loadPdfFiles files st
  | TogglePage index pos shiftKey =>
      withPdf index (fun pdf st =>
        match pageOrder pdf !! pos with
        | Some pageIndex => togglePageSelection pdf pageIndex shiftKey st
        | None => st
        end) st
  | SelectAll index => withPdf index selectAllPages st
  | ClearSelection index => withPdf index clearPageSelection st
  | GridKey index key => withPdf index (fun pdf => onPageGridKeydown pdf key) st
  | MovePage index fromPos toPos =>
      withPdf index (fun pdf => movePage pdf fromPos toPos) st
  | MovePageStep index pos dir =>
      withPdf index (fun pdf => movePageStep pdf pos dir) st
  | DragStart pos => onDragStart pos st
  | Drop index pos => withPdf index (fun pdf => onDrop pdf pos) st
  | MovePdf index direction =>
      withPdf index (fun _ => movePdf (Z.of_nat index) direction) st
  | Export index srcLoads => withPdf index (exportSelectedPages srcLoads) st
  end.

Definition run (actions : list Action) (st : State) : State :=
  foldl perform st actions.

(** *** What is kept true of the list of documents *)

(** A document is in order when its page order lists every page index once,
    and its selection and its last selected index are page indices. *)
Definition pdf_ok (pdf : LoadedPdf) : Prop :=
  pageOrder pdf ≡ₚ seq 0 (pageCount pdf)
  ∧ (∀ i, i ∈ pageSelection pdf → (i < pageCount pdf)%nat)
  ∧ (∀ i, lastSelectedIndex pdf = Some i → (i < pageCount pdf)%nat).

(** The list is in order when its documents are and their ids differ. *)
Definition state_ok (st : State) : Prop :=
  Forall pdf_ok (pdfFiles st)
  ∧ NoDup (id <$> pdfFiles st)
  ∧ (∀ p, p ∈ pdfFiles st → (id p < nextId st)%nat).

(** *** Merging the documents *)

Definition is_letter (lower upper c : ascii) : bool :=
  Ascii.eqb c lower || Ascii.eqb c upper.

(** Does [/\.pdf$/i] match the whole of [s]? *)
Definition pdf_extension_here (s : string) : bool :=
  match s with
  | String a (String b (String c (String d EmptyString))) =>
      Ascii.eqb a "." && is_letter "p" "P" b && is_letter "d" "D" c
      && is_letter "f" "F" d
  | _ => false
  end.

(** [name.replace(/\.pdf$/i, '')]. *)
Fixpoint stripPdfExtension (fileName : string) : string :=
  if pdf_extension_here fileName then EmptyString
  else
    match fileName with
    | EmptyString => EmptyString
    | String c r => String c (stripPdfExtension r)
    end.

(** The pages that [mergePdfs] takes from one document:
    [pdf.pageSelection.size ? pdf.pageOrder.filter(...) : [...pdf.pageOrder]]. *)
Definition mergeOrder (pdf : LoadedPdf) : list nat :=
  if (size (pageSelection pdf) =? 0)%nat then pageOrder pdf
  else filter (fun i => i ∈ pageSelection pdf) (pageOrder pdf).

(** The loop of [mergePdfs] over the documents that are left, [out] being
    the pages added so far; [None] when the library throws.  [srcLoads]
    tells for each document whether the library reads its bytes again. *)
Fixpoint mergeLoop (srcLoads : LoadedPdf -> bool) (pdfs : list LoadedPdf)
    (out : list Page) : option (list Page) :=
  match pdfs with
  | [] => Some out
  | pdf :: rest =>
      if srcLoads pdf then
        match copyPages (pageCount pdf) (mergeOrder pdf) with
        | Some copied => mergeLoop srcLoads rest (out ++ copied)%list
        | None => None
        end
      else None
  end.

(** The name of the merged file. *)
Definition mergedName (pdfs : list LoadedPdf) (private : bool) : string :=
  let stripped := stripPdfExtension (from_option name "" (head pdfs)) in
  let base := if JS.truthyStr stripped then stripped else "merged" in
  base +:+ "-merged" +:+ (if private then ".private" else "") +:+ ".pdf".

(** [mergePdfs()].  As in [exportSelectedPages], the text of an error of
    the library is left out. *)
Definition mergePdfs (srcLoads : LoadedPdf -> bool) (st : State) : State :=
  if (length (pdfFiles st) <? 2)%nat
  then st <| errorMessage := "Add at least two PDFs to merge." |>
  else
    let st := st <| processing := true |> <| statusMessage := "" |>
                 <| errorMessage := "" |> in
    let st :=
      match mergeLoop srcLoads (pdfFiles st) [] with
      | Some pages =>
          let fileName := mergedName (pdfFiles st) (addPrivateSuffix st) in
          st <| saved := (saved st ++ [(fileName, save pages)])%list |>
             <| world := Download.downloadBlob
                           {| blob_size := 0; blob_type := "application/pdf" |}
                           fileName (world st) |>
             <| statusMessage :=
                  "Merged " +:+ JS.decimal (Z.of_nat (length (pdfFiles st)))
                  +:+ " PDFs." |>
      | None => st <| errorMessage := "Unable to merge PDFs." |>
      end in
    st <| processing := false |>.

(** The number of pages a document gives to the merged file. *)
Definition pagesTaken (pdf : LoadedPdf) : nat :=
  if (size (pageSelection pdf) =? 0)%nat then pageCount pdf
  else size (pageSelection pdf).

(** *** The page of an image *)

Inductive OrientationOption := Auto | Portrait | Landscape.

(** A width and a height, in points. *)
Record Size := { width : Q; height : Q }.

Definition Qltb (a b : Q) : bool := negb (Qle_bool b a).

(** The page that [imagesToPdf] adds for an image of the given size:
    [resolved] is what [resolvePageSize()] returns, and the size of the
    image stands for [null]; the page is turned to the asked
    orientation. *)
Definition pageFor (resolved : option Size) (orientationOption : OrientationOption)
    (image : Size) : Size :=
  let pageSize := default image resolved in
  let landscape :=
    match orientationOption with
    | Auto => Qle_bool (height image) (width image)
    | Landscape => true
    | Portrait => false
    end in
  if landscape && Qltb (width pageSize) (height pageSize)
  then {| width := height pageSize; height := width pageSize |}
  else if negb landscape && Qltb (height pageSize) (width pageSize)
  then {| width := height pageSize; height := width pageSize |}
  else pageSize.

End PdfToolkit.

(** ** Sessions used as examples *)

(** A document of three pages: the last page is dragged to the front, then
    a step to the left is asked for the first cell. *)
Definition three_pages : list PdfToolkit.Action :=
  [ PdfToolkit.LoadPdfFiles
      [ {| PdfToolkit.cand_name := "report.pdf"; PdfToolkit.cand_isPdf := true;
           PdfToolkit.cand_pages := Some 3%nat |} ];
    PdfToolkit.DragStart 2; PdfToolkit.Drop 0 0;
    PdfToolkit.MovePageStep 0 0 (-1) ].

(** A document of five pages: page 1 is clicked, page 3 is clicked with the
    shift key, the last page is moved to the front. *)
Definition five_pages : list PdfToolkit.Action :=
  [ PdfToolkit.LoadPdfFiles
      [ {| PdfToolkit.cand_name := "slides.pdf"; PdfToolkit.cand_isPdf := true;
           PdfToolkit.cand_pages := Some 5%nat |} ];
    PdfToolkit.TogglePage 0 1 false; PdfToolkit.TogglePage 0 3 true;
    PdfToolkit.MovePage 0 4 0 ].


(** A picture of 64 by 2048 pixels is loaded into the fresh component,
    which starts in crop mode with the aspect ratio kept. *)
Definition tall_picture : Browser.File :=
  {| Browser.file_name := "tall.png"; Browser.file_size := 4096;
     Browser.file_type := "image/png" |}.

Definition tall_picture_loaded : ImageToolkit.State :=
  ImageToolkit.handleFileSelection (Some tall_picture) (Some (64, 2048))
    (ImageToolkit.initial Browser.freshWorld).

(** A picture of 10000 by 5000 pixels, loaded the same way. *)
Definition wide_picture_loaded : ImageToolkit.State :=
  ImageToolkit.handleFileSelection (Some tall_picture) (Some (10000, 5000))
    (ImageToolkit.initial Browser.freshWorld).

(** A picture of 1 by 100000 pixels, loaded the same way. *)
Definition thin_picture_loaded : ImageToolkit.State :=
  ImageToolkit.handleFileSelection (Some tall_picture) (Some (1, 100000))
    (ImageToolkit.initial Browser.freshWorld).

(** A picture of 400 by 300 pixels, loaded in resize mode. *)
Definition small_picture_resize : ImageToolkit.State :=
  ImageToolkit.handleFileSelection (Some tall_picture) (Some (400, 300))
    ((ImageToolkit.initial Browser.freshWorld) <| ImageToolkit.mode := ImageToolkit.Resize |>).

(** A picture of 700 by 1000 pixels, loaded in resize mode. *)
Definition portrait_picture_resize : ImageToolkit.State :=
  ImageToolkit.handleFileSelection (Some tall_picture) (Some (700, 1000))
    ((ImageToolkit.initial Browser.freshWorld) <| ImageToolkit.mode := ImageToolkit.Resize |>).

(** The settings that an earlier visit left in the storage area: resize
    mode, WEBP at quality 0.5, low smoothing, the aspect lock off. *)
Definition previous_settings : Browser.json :=
  Browser.JObj [ ("selectedFormatValue"%string, Browser.JStr "image/webp");
                 ("quality"%string, Browser.JNum (1 # 2));
                 ("selectedPresetValue"%string, Browser.JStr "custom");
                 ("mode"%string, Browser.JStr "resize");
                 ("smoothing"%string, Browser.JStr "low");
                 ("keepAspectInResize"%string, Browser.JBool false) ].

Definition returning_visitor : Browser.World :=
  Browser.freshWorld
    <| Browser.storage := {[ ImageToolkit.SETTINGS_KEY := Browser.Parsed previous_settings ]} |>.

(** A browser that draws the canvas and cannot encode it. *)
Definition no_encoder : ImageToolkit.Env :=
  {| ImageToolkit.getCroppedCanvas := fun width height =>
       Some {| Browser.canvas_width := width; Browser.canvas_height := height |};
     ImageToolkit.imageLoads := true;
     ImageToolkit.context2d := true;
     ImageToolkit.toBlob := fun _ _ _ => None |}.

(** The picture of 400 by 300 pixels with AVIF chosen as the output format. *)
Definition small_picture_avif : ImageToolkit.State :=
  small_picture_resize <| ImageToolkit.selectedFormatValue := Browser.JStr "image/avif" |>.

(** Two documents and a text file are dropped on the page; the first page
    of the second document is clicked. *)
Definition two_documents : list PdfToolkit.Action :=
  [ PdfToolkit.LoadPdfFiles
      [ {| PdfToolkit.cand_name := "cover.pdf"; PdfToolkit.cand_isPdf := true;
           PdfToolkit.cand_pages := Some 2%nat |};
        {| PdfToolkit.cand_name := "notes.txt"; PdfToolkit.cand_isPdf := false;
           PdfToolkit.cand_pages := None |};
        {| PdfToolkit.cand_name := "body.PDF"; PdfToolkit.cand_isPdf := true;
           PdfToolkit.cand_pages := Some 3%nat |} ];
    PdfToolkit.TogglePage 1 0 false ].

(** Three images in the list of the PDF toolkit. *)
Definition three_images : PdfToolkit.State :=
  (PdfToolkit.initial Browser.freshWorld)
    <| PdfToolkit.imageAssets :=
         [ {| PdfToolkit.asset_id := 0; PdfToolkit.asset_name := "a.png";
              PdfToolkit.asset_size := 10; PdfToolkit.asset_width := 4;
              PdfToolkit.asset_height := 3 |};
           {| PdfToolkit.asset_id := 1; PdfToolkit.asset_name := "b.png";
              PdfToolkit.asset_size := 20; PdfToolkit.asset_width := 3;
              PdfToolkit.asset_height := 4 |};
           {| PdfToolkit.asset_id := 2; PdfToolkit.asset_name := "c.png";
              PdfToolkit.asset_size := 30; PdfToolkit.asset_width := 5;
              PdfToolkit.asset_height := 5 |} ] |>.

(** A picture of 8474 by 5000 pixels is loaded into the fresh component. *)
Definition odd_picture_loaded : ImageToolkit.State :=
  ImageToolkit.handleFileSelection (Some tall_picture) (Some (8474, 5000))
    (ImageToolkit.initial Browser.freshWorld).

(** What is done to the sizes of the picture of 400 by 300 pixels: a
    width far above the maximum, an emptied height field, a height that
    rounds to nothing, a reset. *)
Definition rough_edits : list ImageToolkit.SizeEdit :=
  [ ImageToolkit.EditWidth (Some (inject_Z 20000));
    ImageToolkit.EditHeight None;
    ImageToolkit.EditHeight (Some (JS.binary64 (4 # 10)));
    ImageToolkit.ResetSizes ].

(** A browser that draws the canvas and encodes it into 2048 bytes. *)
Definition plain_encoder : ImageToolkit.Env :=
  {| ImageToolkit.getCroppedCanvas := fun width height =>
       Some {| Browser.canvas_width := width; Browser.canvas_height := height |};
     ImageToolkit.imageLoads := true;
     ImageToolkit.context2d := true;
     ImageToolkit.toBlob := fun _ type _ =>
       Some {| Browser.blob_size := 2048; Browser.blob_type := type |} |}.



Example deriveFileName_photo :
  FileUtil.deriveFileName "My Photo (1).JPG" "png" (Some "private"%string)
  = "My-Photo-1-private.png"%string.
Proof. reflexivity. Qed.

Example formatBytes_limit :
  Format.formatBytes (inject_Z (50 * 1024 * 1024)) = "50 MB"%string.
Proof. vm_compute. reflexivity. Qed.

Example formatBytes_1536 :
  Format.formatBytes (inject_Z 1536) = "1.5 KB"%string.
Proof. vm_compute. reflexivity. Qed.

(** * Properties *)

(** ** File names *)
Section FileNames.
Import FileUtil.

Lemma all_chars_replace_other_chars s :
  all_chars is_name_char (replace_other_chars s) = true.
Proof.
  induction s as [|c r IH]; simpl; [reflexivity|].
  rewrite IH, andb_true_r.
  destruct (is_name_char c) eqn:E; [exact E | reflexivity].
Qed.

Lemma all_chars_collapse_dashes p s :
  all_chars p s = true -> all_chars p (collapse_dashes s) = true.
Proof.
  induction s as [|c r IH]; [reflexivity|].
  intros H. apply andb_prop in H as [Hc Hr].
  cbn [collapse_dashes].
  destruct (is_dash c).
  - destruct r as [|c' r']; [simpl; rewrite Hc; reflexivity|].
    destruct (is_dash c'); [apply IH, Hr|].
    cbn [all_chars]. rewrite Hc. apply IH, Hr.
  - cbn [all_chars]. rewrite Hc. apply IH, Hr.
Qed.

Lemma starts_with_dash_collapse s :
  starts_with_dash (collapse_dashes s) = starts_with_dash s.
Proof.
  induction s as [|c r IH]; [reflexivity|].
  cbn [collapse_dashes]. destruct (is_dash c) eqn:Ec.
  - destruct r as [|c' r']; [reflexivity|].
    destruct (is_dash c') eqn:Ec'; [|reflexivity].
    rewrite IH. simpl. congruence.
  - reflexivity.
Qed.

Lemma has_dash_run_cons a b r :
  has_dash_run (String a (String b r))
  = is_dash a && is_dash b || has_dash_run (String b r).
Proof. reflexivity. Qed.

Lemma has_dash_run_collapse s : has_dash_run (collapse_dashes s) = false.
Proof.
  induction s as [|c r IH]; [reflexivity|].
  cbn [collapse_dashes]. destruct (is_dash c) eqn:Ec.
  - destruct r as [|c' r']; [reflexivity|].
    destruct (is_dash c') eqn:Ec'; [exact IH|].
    pose proof (starts_with_dash_collapse (String c' r')) as Hs.
    destruct (collapse_dashes (String c' r')) as [|d t] eqn:Ed; [reflexivity|].
    cbn [starts_with_dash] in Hs. rewrite Ec' in Hs.
    rewrite has_dash_run_cons, Hs, andb_false_r. exact IH.
  - destruct (collapse_dashes r) as [|d t] eqn:Ed; [reflexivity|].
    rewrite has_dash_run_cons, Ec. exact IH.
Qed.

Lemma has_dash_run_tail c r : has_dash_run (String c r) = false -> has_dash_run r = false.
Proof.
  destruct r as [|c' r']; [reflexivity|].
  rewrite has_dash_run_cons. intros H. apply orb_false_elim in H as [_ H]. exact H.
Qed.

Lemma has_dash_run_head a b r :
  has_dash_run (String a (String b r)) = false -> is_dash a && is_dash b = false.
Proof.
  rewrite has_dash_run_cons. intros H. apply orb_false_elim in H as [H _]. exact H.
Qed.

Lemma all_chars_strip_leading p s :
  all_chars p s = true -> all_chars p (strip_leading_dash s) = true.
Proof.
  destruct s as [|c r]; [reflexivity|]. simpl.
  intros H. destruct (is_dash c); [|exact H].
  apply andb_prop in H as [_ H]. exact H.
Qed.

Lemma has_dash_run_strip_leading s :
  has_dash_run s = false -> has_dash_run (strip_leading_dash s) = false.
Proof.
  destruct s as [|c r]; [reflexivity|]. intros H. simpl.
  destruct (is_dash c); [|exact H]. eapply has_dash_run_tail, H.
Qed.

Lemma starts_with_dash_strip_leading s :
  has_dash_run s = false -> starts_with_dash (strip_leading_dash s) = false.
Proof.
  destruct s as [|c r]; [reflexivity|]. intros H. simpl.
  destruct (is_dash c) eqn:Ec; [|simpl; exact Ec].
  destruct r as [|c' r']; [reflexivity|].
  apply has_dash_run_head in H. rewrite Ec in H. exact H.
Qed.

Lemma all_chars_strip_trailing p s :
  all_chars p s = true -> all_chars p (strip_trailing_dash s) = true.
Proof.
  induction s as [|c r IH]; [reflexivity|].
  intros H. pose proof H as H'. apply andb_prop in H' as [Hc Hr].
  cbn [strip_trailing_dash]. destruct r as [|c' r'].
  - destruct (is_dash c); [reflexivity | exact H].
  - cbn [all_chars]. rewrite Hc. apply IH, Hr.
Qed.

Lemma strip_trailing_dash_cons c c' r' :
  strip_trailing_dash (String c (String c' r'))
  = String c (strip_trailing_dash (String c' r')).
Proof. reflexivity. Qed.

Lemma starts_with_dash_strip_trailing s :
  starts_with_dash s = false -> starts_with_dash (strip_trailing_dash s) = false.
Proof.
  destruct s as [|c r]; [reflexivity|]. intros H.
  destruct r as [|c' r'].
  - simpl in *. rewrite H. exact H.
  - rewrite strip_trailing_dash_cons. exact H.
Qed.

Lemma has_dash_run_strip_trailing s :
  has_dash_run s = false -> has_dash_run (strip_trailing_dash s) = false.
Proof.
  induction s as [|c r IH]; [reflexivity|].
  intros H. destruct r as [|c' r'].
  - simpl. destruct (is_dash c); reflexivity.
  - rewrite strip_trailing_dash_cons.
    pose proof (IH (has_dash_run_tail _ _ H)) as IH'.
    apply has_dash_run_head in H.
    destruct (strip_trailing_dash (String c' r')) as [|d t] eqn:Ed; [reflexivity|].
    rewrite has_dash_run_cons, IH', orb_false_r.
    assert (d = c') as ->; [|exact H].
    destruct r' as [|c'' r''].
    + simpl in Ed. destruct (is_dash c'); [discriminate|]. congruence.
    + rewrite strip_trailing_dash_cons in Ed. congruence.
Qed.

Lemma ends_with_dash_cons c c' r' :
  ends_with_dash (String c (String c' r')) = ends_with_dash (String c' r').
Proof. reflexivity. Qed.

Lemma ends_with_dash_strip_trailing s :
  has_dash_run s = false -> ends_with_dash (strip_trailing_dash s) = false.
Proof.
  induction s as [|c r IH]; [reflexivity|].
  intros H. destruct r as [|c' r'].
  - simpl. destruct (is_dash c) eqn:Ec; [reflexivity | simpl; exact Ec].
  - rewrite strip_trailing_dash_cons.
    pose proof (IH (has_dash_run_tail _ _ H)) as IH'.
    apply has_dash_run_head in H.
    destruct (strip_trailing_dash (String c' r')) as [|d t] eqn:Ed.
    + (* the tail was a single dash, so [c] is not one *)
      destruct r' as [|c'' r'']; [|rewrite strip_trailing_dash_cons in Ed; discriminate].
      simpl in Ed. destruct (is_dash c') eqn:Ec'; [|discriminate].
      rewrite andb_true_r in H. simpl. exact H.
    + rewrite ends_with_dash_cons. exact IH'.
Qed.

(** What the three replacements leave of any name. *)
Lemma sanitise_clean originalName :
  let stem := sanitise originalName in
  all_chars is_name_char stem = true /\
  starts_with_dash stem = false /\
  ends_with_dash stem = false /\
  has_dash_run stem = false.
Proof.
  unfold sanitise, trim_dashes.
  set (t := collapse_dashes (replace_other_chars (getFileStem originalName))).
  assert (Hall : all_chars is_name_char t = true)
    by apply all_chars_collapse_dashes, all_chars_replace_other_chars.
  assert (Hrun : has_dash_run t = false) by apply has_dash_run_collapse.
  cbv zeta. repeat split.
  - apply all_chars_strip_trailing, all_chars_strip_leading, Hall.
  - apply starts_with_dash_strip_trailing, starts_with_dash_strip_leading, Hrun.
  - apply ends_with_dash_strip_trailing, has_dash_run_strip_leading, Hrun.
  - apply has_dash_run_strip_trailing, has_dash_run_strip_leading, Hrun.
Qed.

End FileNames.

(** C9 (as amended).  For every original name, target extension and
    optional suffix, [deriveFileName] returns a clean stem, then the suffix
    after a dash when a suffix is given and is not the empty string, then a
    dot and the target extension.  The stem is not empty (it is
    "processed-file" when nothing is left of the name), holds only ASCII
    letters, digits, dashes and underscores, neither starts nor ends with a
    dash and has no two dashes in a row. *)
Theorem deriveFileName_shape (originalName targetExtension : string) (suffix : option string) :
  exists stem : string,
    FileUtil.deriveFileName originalName targetExtension suffix
    = (stem
       +:+ match suffix with
           | Some (String c rest) => "-" +:+ String c rest
           | Some EmptyString | None => ""
           end
       +:+ "." +:+ targetExtension)%string
    /\ FileUtil.clean_stem stem
    /\ stem = match FileUtil.sanitise originalName with
              | EmptyString => "processed-file"%string
              | String c rest => String c rest
              end.
Proof.
  exists (FileUtil.stem_of originalName).
  split; [|split].
  - unfold FileUtil.deriveFileName, FileUtil.suffix_part.
    destruct suffix as [[|c rest]|]; reflexivity.
  - unfold FileUtil.stem_of.
    destruct (sanitise_clean originalName) as (Hall & Hstart & Hend & Hrun).
    cbv zeta in *.
    destruct (FileUtil.sanitise originalName) as [|c rest] eqn:E.
    + repeat split; try reflexivity. discriminate.
    + repeat split; try assumption. discriminate.
  - unfold FileUtil.stem_of.
    destruct (FileUtil.sanitise originalName); reflexivity.
Qed.

(** C9, the claim as it was written, fails for the empty suffix: it is
    given, yet no dash and no suffix are put between stem and extension. *)
Lemma deriveFileName_empty_suffix :
  FileUtil.deriveFileName "a.png" "png" (Some ""%string) = "a.png"%string
  /\ ~ exists stem : string,
         FileUtil.deriveFileName "a.png" "png" (Some ""%string)
         = (stem +:+ "-" +:+ "" +:+ "." +:+ "png")%string.
Proof.
  split; [reflexivity|].
  intros [stem H]. change (FileUtil.deriveFileName "a.png" "png" (Some ""%string))
    with "a.png"%string in H.
  destruct stem as [|c1 [|c2 [|c3 [|c4 [|c5 [|c6 r]]]]]]; simpl in H; discriminate.
Qed.

(** ** Releasing browser objects *)
Section Resources.
Import Browser ImageToolkit.

Lemma filter_other_fresh (node : nat) (l : list nat) :
  (forall n, n ∈ l -> (n < node)%nat) -> filter (fun n => n ≠ node) l = l.
Proof.
  induction l as [|x l IH]; intros H; [reflexivity|].
  rewrite filter_cons_True.
  - f_equal. apply IH. intros n Hn. apply H. right. exact Hn.
  - assert (x < node)%nat by (apply H; left). lia.
Qed.

Lemma filter_other_last (node : nat) (l : list nat) :
  (forall n, n ∈ l -> (n < node)%nat) -> filter (fun n => n ≠ node) (l ++ [node]) = l.
Proof.
  intros H. rewrite filter_app, filter_other_fresh by exact H.
  rewrite filter_cons_False by (intros Hn; apply Hn; reflexivity).
  rewrite filter_nil. apply app_nil_r.
Qed.

(** Take a component state apart, down to the fields of its world. *)
Ltac open_state s :=
  destruct s;
  repeat match goal with w : World |- _ => destruct w end;
  cbn in *; unfold constant in *.

(** What [cleanupObjectUrl], [cleanupResultUrl] and [destroyCropper] leave. *)
Lemma cleanupObjectUrl_released s :
  objectUrl (cleanupObjectUrl s) = None /\
  (forall u, objectUrl s = Some u -> u ∉ liveUrls (world (cleanupObjectUrl s))) /\
  liveUrls (world (cleanupObjectUrl s)) ⊆ liveUrls (world s) /\
  nextUrl (world (cleanupObjectUrl s)) = nextUrl (world s) /\
  liveCroppers (world (cleanupObjectUrl s)) = liveCroppers (world s) /\
  resultUrl (cleanupObjectUrl s) = resultUrl s /\
  cropper (cleanupObjectUrl s) = cropper s.
Proof.
  unfold cleanupObjectUrl. open_state s.
  case_match; cbn; unfold constant; repeat split; try done; set_solver.
Qed.

Lemma cleanupResultUrl_released s :
  resultUrl (cleanupResultUrl s) = None /\
  (forall u, resultUrl s = Some u -> u ∉ liveUrls (world (cleanupResultUrl s))) /\
  liveUrls (world (cleanupResultUrl s)) ⊆ liveUrls (world s) /\
  nextUrl (world (cleanupResultUrl s)) = nextUrl (world s) /\
  liveCroppers (world (cleanupResultUrl s)) = liveCroppers (world s) /\
  objectUrl (cleanupResultUrl s) = objectUrl s /\
  cropper (cleanupResultUrl s) = cropper s.
Proof.
  unfold cleanupResultUrl. open_state s.
  case_match; cbn; unfold constant; repeat split; try done; set_solver.
Qed.

Lemma destroyCropper_released s :
  cropper (destroyCropper s) = None /\
  (forall c, cropper s = Some c -> c ∉ liveCroppers (world (destroyCropper s))) /\
  liveUrls (world (destroyCropper s)) = liveUrls (world s) /\
  nextUrl (world (destroyCropper s)) = nextUrl (world s) /\
  objectUrl (destroyCropper s) = objectUrl s /\
  resultUrl (destroyCropper s) = resultUrl s.
Proof.
  unfold destroyCropper. open_state s.
  case_match; cbn; unfold constant; repeat split; try done; set_solver.
Qed.

(** The three releases in a row, as [onDestroy] and [resetState] run them. *)
Lemma release_all s :
  let s' := cleanupResultUrl (cleanupObjectUrl (destroyCropper s)) in
  cropper s' = None /\ objectUrl s' = None /\ resultUrl s' = None /\
  (forall c, cropper s = Some c -> c ∉ liveCroppers (world s')) /\
  (forall u, objectUrl s = Some u -> u ∉ liveUrls (world s')) /\
  (forall u, resultUrl s = Some u -> u ∉ liveUrls (world s')) /\
  liveUrls (world s') ⊆ liveUrls (world s) /\
  nextUrl (world s') = nextUrl (world s).
Proof.
  intros s'. subst s'.
  destruct (destroyCropper_released s) as (Hc & Hcl & Hdl & Hdn & Hdo & Hdr).
  destruct (cleanupObjectUrl_released (destroyCropper s))
    as (Ho & Hol & Hos & Hon & Hoc & Hor & Hocr).
  destruct (cleanupResultUrl_released (cleanupObjectUrl (destroyCropper s)))
    as (Hr & Hrl & Hrs & Hrn & Hrc & Hro & Hrcr).
  repeat split.
  - congruence.
  - congruence.
  - exact Hr.
  - intros c E. rewrite Hrc, Hoc. apply Hcl, E.
  - intros u E. rewrite <- Hdo in E. specialize (Hol u E). set_solver.
  - intros u E. apply Hrl. rewrite Hor, Hdr. exact E.
  - set_solver.
  - congruence.
Qed.

End Resources.

(** C8.  [downloadBlob] revokes the object URL it created and removes the
    anchor it appended: when it returns, neither is left, the one click it
    made is recorded, and (the anchor and the URL being new ones) the
    children of [document.body] and the live object URLs are what they
    were.  On destroy, the image toolkit has no cropper, object URL or
    result URL left, and the ones it held are destroyed and revoked. *)
Theorem release_pairing :
  (forall (blob : Browser.Blob) (filename : string) (w : Browser.World),
      let w' := Download.downloadBlob blob filename w in
      (Browser.nextUrl w ∉ Browser.liveUrls w')
      /\ (Browser.nextNode w ∉ Browser.bodyChildren w')
      /\ Browser.downloads w'
         = (Browser.downloads w ++ [(Browser.nextUrl w, filename)])
      /\ (Browser.world_ok w ->
          Browser.bodyChildren w' = Browser.bodyChildren w
          /\ Browser.liveUrls w' = Browser.liveUrls w))
  /\ (forall s : ImageToolkit.State,
      let s' := ImageToolkit.onDestroy s in
      ImageToolkit.cropper s' = None
      /\ ImageToolkit.objectUrl s' = None
      /\ ImageToolkit.resultUrl s' = None
      /\ (forall c, ImageToolkit.cropper s = Some c ->
                    c ∉ Browser.liveCroppers (ImageToolkit.world s'))
      /\ (forall u, ImageToolkit.objectUrl s = Some u ->
                    u ∉ Browser.liveUrls (ImageToolkit.world s'))
      /\ (forall u, ImageToolkit.resultUrl s = Some u ->
                    u ∉ Browser.liveUrls (ImageToolkit.world s'))).
Proof.
  split.
  - intros blob filename w w'. subst w'.
    unfold Download.downloadBlob. destruct w; cbn in *; unfold constant.
    split_and!.
    + set_solver.
    + intros Hin. apply list_elem_of_filter in Hin as [Hne _]. apply Hne. reflexivity.
    + reflexivity.
    + intros [Hbody Hurls]. cbn in *. split.
      * rewrite (filter_other_fresh _ _ Hbody). apply filter_other_last, Hbody.
      * match goal with |- context [{[?u]} ∪ ?l] =>
          assert (u ∉ l) by (intros Hin; apply Hurls in Hin; lia) end.
        set_solver.
  - intros s s'. subst s'. unfold ImageToolkit.onDestroy.
    destruct (release_all s) as (H1 & H2 & H3 & H4 & H5 & H6 & _).
    repeat split; assumption.
Qed.

Lemma release_pairing_witness :
  let blob := {| Browser.blob_size := 12; Browser.blob_type := "image/png" |} in
  let w' := Download.downloadBlob blob "photo-private.png" Browser.freshWorld in
  Browser.world_ok Browser.freshWorld
  /\ Browser.bodyChildren w' = []
  /\ Browser.liveUrls w' = ∅
  /\ Browser.downloads w' = [(0%nat, "photo-private.png"%string)].
Proof.
  intros blob w'.
  assert (Hok : Browser.world_ok Browser.freshWorld)
    by (split; intros n Hn; cbn in Hn; set_solver).
  destruct release_pairing as [H _].
  destruct (H blob "photo-private.png"%string Browser.freshWorld)
    as (_ & _ & Hclick & Hsame).
  destruct (Hsame Hok) as [Hbody Hurls].
  split; [exact Hok|]. split; [exact Hbody|]. split; [exact Hurls | exact Hclick].
Defined.

(** ** Selecting a file *)

(** The limit, as [formatBytes] prints it. *)
Lemma formatBytes_MAX_FILE_SIZE_BYTES :
  Format.formatBytes (inject_Z ImageToolkit.MAX_FILE_SIZE_BYTES) = "50 MB"%string.
Proof. vm_compute. reflexivity. Qed.

(** C5.  A candidate above 50 MB is refused: the error message gives its
    size and the limit, and nothing is loaded.  The component is reset
    (no file, no object URL, no result, no cropper, no sizes, no status
    message) and no object URL is created: the counter of
    [URL.createObjectURL] has not moved and no URL is live that was not
    before. *)
Theorem oversized_file_refused
    (candidate : Browser.File) (measured : option (Z * Z)) (s : ImageToolkit.State) :
  Browser.file_size candidate > ImageToolkit.MAX_FILE_SIZE_BYTES ->
  let s' := ImageToolkit.handleFileSelection (Some candidate) measured s in
  ImageToolkit.errorMessage s'
  = ("File is " +:+ Format.formatBytes (inject_Z (Browser.file_size candidate))
     +:+ ". Please keep images under 50 MB.")%string
  /\ ImageToolkit.file s' = None
  /\ ImageToolkit.objectUrl s' = None
  /\ ImageToolkit.resultUrl s' = None
  /\ ImageToolkit.cropper s' = None
  /\ ImageToolkit.statusMessage s' = ""%string
  /\ ImageToolkit.targetWidth s' = None
  /\ ImageToolkit.targetHeight s' = None
  /\ ImageToolkit.originalWidth s' = 0
  /\ ImageToolkit.originalHeight s' = 0
  /\ Browser.nextUrl (ImageToolkit.world s') = Browser.nextUrl (ImageToolkit.world s)
  /\ (Browser.liveUrls (ImageToolkit.world s') ⊆ Browser.liveUrls (ImageToolkit.world s)).
Proof.
  intros Hsize s'. subst s'. unfold ImageToolkit.handleFileSelection.
  assert ((Browser.file_size candidate >? ImageToolkit.MAX_FILE_SIZE_BYTES) = true) as ->
    by (apply Z.gtb_lt; lia).
  unfold ImageToolkit.resetState, ImageToolkit.oversizedMessage.
  rewrite formatBytes_MAX_FILE_SIZE_BYTES.
  destruct (release_all s) as (Hc & Ho & Hr & _ & _ & _ & Hlive & Hnext).
  cbv zeta in *.
  set (r := ImageToolkit.cleanupResultUrl _) in *.
  repeat split; try reflexivity; assumption.
Qed.

Lemma oversized_file_refused_witness :
  let big := {| Browser.file_name := "big.png"; Browser.file_size := 60000000;
                Browser.file_type := "image/png" |} in
  Browser.file_size big > ImageToolkit.MAX_FILE_SIZE_BYTES
  /\ ImageToolkit.errorMessage
       (ImageToolkit.handleFileSelection (Some big) None
          (ImageToolkit.initial Browser.freshWorld))
     = "File is 57 MB. Please keep images under 50 MB."%string.
Proof.
  intros big.
  assert (Hbig : Browser.file_size big > ImageToolkit.MAX_FILE_SIZE_BYTES)
    by (vm_compute; reflexivity).
  split; [exact Hbig|].
  destruct (oversized_file_refused big None
              (ImageToolkit.initial Browser.freshWorld) Hbig) as [H _].
  rewrite H. vm_compute. reflexivity.
Defined.

(** ** Page order and page selection *)
Section Pages.
Import Browser PdfToolkit.

(** *** [splice] *)

Lemma splice_permutation {A} (l : list A) (start deleteCount : Z) (items : list A) :
  let '(removed, rest) := JS.splice l start deleteCount items in
  removed ++ rest ≡ₚ items ++ l
  ∧ (Z.of_nat (length removed) <= Z.max deleteCount 0)%Z.
Proof.
  unfold JS.splice.
  set (len := Z.of_nat (length l)).
  set (from := if (start <? 0)%Z then Z.max (len + start) 0 else Z.min start len).
  set (count := Z.min (Z.max deleteCount 0) (len - from)).
  assert (Hfrom : (0 <= from <= len)%Z)
    by (subst from len; destruct (Z.ltb_spec start 0); lia).
  assert (Hcount : (0 <= count)%Z) by (subst count; lia).
  split.
  - rewrite Z2Nat.inj_add by lia.
    rewrite <- drop_drop.
    set (f := Z.to_nat from). set (c := Z.to_nat count).
    assert (Hl : l = take f l ++ take c (drop f l) ++ drop c (drop f l))
      by (rewrite !take_drop; reflexivity).
    rewrite Hl at 4.
    generalize (take f l) (take c (drop f l)) (drop c (drop f l)).
    intros l1 l2 l3. solve_Permutation.
  - rewrite length_take. subst count. lia.
Qed.

Lemma reinsert_permutation {A} (l l' : list A) (fromPos toPos : Z) :
  reinsert l fromPos toPos = Some l' → l' ≡ₚ l.
Proof.
  unfold reinsert.
  pose proof (splice_permutation l fromPos 1 []) as H1.
  destruct (JS.splice l fromPos 1 []) as [removed rest].
  destruct H1 as [Hperm Hlen].
  destruct removed as [|x [|y tl]]; [discriminate| |simpl in Hlen; lia].
  pose proof (splice_permutation rest toPos 0 [x]) as H2.
  destruct (JS.splice rest toPos 0 [x]) as [removed2 rest2].
  destruct H2 as [Hperm2 Hlen2].
  destruct removed2; [|simpl in Hlen2; lia].
  intros [= <-]. simpl in *. rewrite Hperm2. exact Hperm.
Qed.

(** *** [replacePdfById] *)

Lemma findIndexById_lookup (l : list LoadedPdf) (i : nat) (pdf : LoadedPdf) :
  NoDup (id <$> l) → l !! i = Some pdf → findIndexById (id pdf) l = Some i.
Proof.
  intros Hnd Hi. unfold findIndexById.
  assert (list_find (λ p, id p = id pdf) l = Some (i, pdf)) as ->; [|reflexivity].
  apply list_find_Some. split_and!; [exact Hi | reflexivity |].
  intros j y Hj Hlt Heq.
  assert (j = i); [|lia].
  eapply (NoDup_lookup (id <$> l)); [exact Hnd | |].
  - rewrite list_lookup_fmap, Hj. reflexivity.
  - rewrite list_lookup_fmap, Hi. simpl. congruence.
Qed.

Lemma replacePdfById_insert (st : State) (i : nat) (pdf : LoadedPdf) patch :
  NoDup (id <$> pdfFiles st) → pdfFiles st !! i = Some pdf →
  replacePdfById (id pdf) patch st = st <| pdfFiles := <[i := patch pdf]> (pdfFiles st) |>.
Proof.
  intros Hnd Hi. unfold replacePdfById.
  rewrite (findIndexById_lookup _ i pdf Hnd Hi), Hi.
  rewrite insert_take_drop by (eapply lookup_lt_Some, Hi). reflexivity.
Qed.

(** A patch that keeps a document in order and keeps its id keeps the list
    in order. *)
Lemma replacePdfById_ok (st : State) (i : nat) (pdf : LoadedPdf) patch :
  state_ok st → pdfFiles st !! i = Some pdf →
  pdf_ok (patch pdf) → id (patch pdf) = id pdf →
  state_ok (replacePdfById (id pdf) patch st).
Proof.
  intros (Hall & Hnd & Hid) Hi Hok Hsame.
  rewrite (replacePdfById_insert st i pdf patch Hnd Hi).
  destruct st as [files ? ? ? ? ? ? ? next ? ?]; cbn in *; unfold constant.
  assert (Hids : id <$> <[i := patch pdf]> files = id <$> files).
  { rewrite list_fmap_insert, Hsame. apply list_insert_id.
    rewrite list_lookup_fmap, Hi. reflexivity. }
  unfold state_ok; cbn. split_and!.
  - apply Forall_insert; assumption.
  - rewrite Hids. exact Hnd.
  - intros p Hp. apply list_elem_of_lookup in Hp as [j Hj].
    destruct (decide (j = i)) as [->|Hne].
    + rewrite list_lookup_insert_eq in Hj by (eapply lookup_lt_Some, Hi).
      injection Hj as <-. rewrite Hsame. apply Hid.
      eapply list_elem_of_lookup_2, Hi.
    + rewrite list_lookup_insert_ne in Hj by congruence.
      apply Hid. eapply list_elem_of_lookup_2, Hj.
Qed.

(** *** The selection *)

Lemma elem_of_foldl_add (l : list nat) (s : gset nat) (i : nat) :
  i ∈ foldl (λ acc j, {[j]} ∪ acc) s l ↔ i ∈ s ∨ i ∈ l.
Proof.
  revert s. induction l as [|x l IH]; intros s; simpl.
  - set_solver.
  - rewrite IH. set_solver.
Qed.

Lemma elem_of_addRange (start stop : nat) (s : gset nat) (i : nat) :
  i ∈ addRange start stop s ↔ i ∈ s ∨ (start ≤ i < stop)%nat.
Proof.
  unfold addRange. rewrite elem_of_foldl_add, elem_of_seq. intuition lia.
Qed.

Lemma setPageSelection_ok st i pdf next last :
  state_ok st → pdfFiles st !! i = Some pdf →
  (∀ j, j ∈ next → (j < pageCount pdf)%nat) →
  (∀ j, last = Some j → (j < pageCount pdf)%nat) →
  state_ok (setPageSelection pdf next last st).
Proof.
  intros Hst Hi Hnext Hlast. unfold setPageSelection.
  apply (replacePdfById_ok st i pdf); [exact Hst | exact Hi | | reflexivity].
  destruct Hst as (Hall & _ & _).
  pose proof (Forall_lookup_1 _ _ _ _ Hall Hi) as (Hperm & _ & _).
  destruct pdf; unfold pdf_ok; cbn in *; unfold constant. split_and!; assumption.
Qed.

Lemma togglePageSelection_ok st i pdf pageIndex shiftKey :
  state_ok st → pdfFiles st !! i = Some pdf → (pageIndex < pageCount pdf)%nat →
  state_ok (togglePageSelection pdf pageIndex shiftKey st).
Proof.
  intros Hst Hi Hlt. unfold togglePageSelection.
  pose proof Hst as (Hall & _ & _).
  pose proof (Forall_lookup_1 _ _ _ _ Hall Hi) as (_ & Hsel & Hlast).
  apply (setPageSelection_ok st i pdf); [exact Hst | exact Hi | | congruence].
  intros j. destruct shiftKey, (lastSelectedIndex pdf) as [last|] eqn:El.
  - rewrite elem_of_addRange. specialize (Hlast last eq_refl).
    intros [Hj|Hj]; [apply Hsel, Hj | lia].
  - case_bool_decide; set_solver.
  - case_bool_decide; set_solver.
  - case_bool_decide; set_solver.
Qed.

Lemma selectAllPages_ok st i pdf :
  state_ok st → pdfFiles st !! i = Some pdf → state_ok (selectAllPages pdf st).
Proof.
  intros Hst Hi. unfold selectAllPages.
  pose proof Hst as (Hall & _ & _).
  pose proof (Forall_lookup_1 _ _ _ _ Hall Hi) as (_ & _ & Hlast).
  apply (setPageSelection_ok st i pdf); [exact Hst | exact Hi | | exact Hlast].
  intros j. rewrite elem_of_addRange. set_solver by lia.
Qed.

Lemma clearPageSelection_ok st i pdf :
  state_ok st → pdfFiles st !! i = Some pdf → state_ok (clearPageSelection pdf st).
Proof.
  intros Hst Hi. unfold clearPageSelection.
  apply (setPageSelection_ok st i pdf); [exact Hst | exact Hi | set_solver | discriminate].
Qed.

(** *** The page order *)

Lemma movePage_ok st i pdf fromPos toPos :
  state_ok st → pdfFiles st !! i = Some pdf → state_ok (movePage pdf fromPos toPos st).
Proof.
  intros Hst Hi. unfold movePage.
  repeat case_match; try exact Hst.
  apply (replacePdfById_ok st i pdf); [exact Hst | exact Hi | | reflexivity].
  destruct Hst as (Hall & _ & _).
  pose proof (Forall_lookup_1 _ _ _ _ Hall Hi) as (Hperm & Hsel & Hlast).
  match goal with H : reinsert _ _ _ = Some _ |- _ =>
    apply reinsert_permutation in H; rename H into Hre end.
  destruct pdf; unfold pdf_ok; cbn in *; unfold constant.
  split_and!; [|assumption..].
  etransitivity; [exact Hre | exact Hperm].
Qed.

Lemma state_ok_dragPos st d : state_ok st → state_ok (st <| dragPos := d |>).
Proof. destruct st. intros H. exact H. Qed.

Lemma movePdf_ok st index direction : state_ok st → state_ok (movePdf index direction st).
Proof.
  intros Hst. unfold movePdf. repeat case_match; try exact Hst.
  match goal with H : reinsert _ _ _ = Some _ |- _ =>
    apply reinsert_permutation in H; rename H into Hre end.
  destruct Hst as (Hall & Hnd & Hid).
  destruct st as [files ? ? ? ? ? ? ? next ? ?]; unfold state_ok; cbn in *;
    unfold constant.
  split_and!.
  - rewrite Hre. exact Hall.
  - rewrite Hre. exact Hnd.
  - intros p Hp. apply Hid. rewrite <- Hre. exact Hp.
Qed.

(** *** Loading and exporting *)

Lemma exportSelectedPages_pdfFiles srcLoads pdf st :
  pdfFiles (exportSelectedPages srcLoads pdf st) = pdfFiles st
  ∧ nextId (exportSelectedPages srcLoads pdf st) = nextId st.
Proof.
  unfold exportSelectedPages. destruct st. repeat case_match; split; reflexivity.
Qed.

Lemma exportSelectedPages_ok srcLoads pdf st :
  state_ok st → state_ok (exportSelectedPages srcLoads pdf st).
Proof.
  unfold state_ok.
  destruct (exportSelectedPages_pdfFiles srcLoads pdf st) as [-> ->]. intros H. exact H.
Qed.

Lemma loaded_pdf_ok (i n : nat) (fileName : string) :
  pdf_ok {| id := i; name := fileName; pageCount := n; pageSelection := ∅;
            lastSelectedIndex := None; pageOrder := seq 0 n |}.
Proof. split_and!; cbn; [reflexivity | set_solver | discriminate]. Qed.

(** The loop of [loadPdfFiles]: the new documents are in order, and their
    ids are the ones handed out since the loop began, one after the other. *)
Lemma foldl_loadOne files newPdfs st :
  let '(newPdfs', st') := foldl loadOne (newPdfs, st) files in
  pdfFiles st' = pdfFiles st
  ∧ (nextId st ≤ nextId st')%nat
  ∧ ∃ added, newPdfs' = newPdfs ++ added
      ∧ Forall pdf_ok added
      ∧ id <$> added = seq (nextId st) (nextId st' - nextId st)
      ∧ Forall (λ p, pageOrder p = seq 0 (pageCount p)) added.
Proof.
  revert newPdfs st. induction files as [|file files IH]; intros newPdfs st.
  - simpl. split_and!; [reflexivity | lia |].
    exists []. rewrite app_nil_r, Nat.sub_diag. split_and!; constructor.
  - cbn [foldl]. unfold loadOne at 2.
    destruct (cand_isPdf file); cbn [negb].
    + destruct (cand_pages file) as [n|].
      * specialize (IH (newPdfs ++ [ {| id := nextId st; name := cand_name file;
                                        pageCount := n; pageSelection := ∅;
                                        lastSelectedIndex := None;
                                        pageOrder := seq 0 n |} ])
                       (st <| nextId := S (nextId st) |>)).
        destruct (foldl loadOne _ files) as [newPdfs' st'].
        destruct IH as (Hfiles & Hle & added & -> & Hok & Hids & Hord).
        destruct st; cbn in *; unfold constant in *.
        split_and!; [exact Hfiles | lia |].
        eexists (_ :: added). rewrite <- app_assoc. split_and!.
        -- reflexivity.
        -- constructor; [apply loaded_pdf_ok | exact Hok].
        -- cbn. rewrite Hids.
           replace (nextId st' - nextId0)%nat with (S (nextId st' - S nextId0)) by lia.
           reflexivity.
        -- constructor; [reflexivity | exact Hord].
      * specialize (IH newPdfs
          (st <| errorMessage := "Unable to read " +:+ cand_name file +:+ "." |>)).
        destruct (foldl loadOne _ files) as [newPdfs' st'].
        destruct st; exact IH.
    + specialize (IH newPdfs
        (st <| errorMessage := "Skipped " +:+ cand_name file +:+ " (not a PDF)." |>)).
      destruct (foldl loadOne _ files) as [newPdfs' st'].
      destruct st; exact IH.
Qed.

Lemma loadPdfFiles_ok files st : state_ok st → state_ok (loadPdfFiles files st).
Proof.
  intros (Hall & Hnd & Hid). unfold loadPdfFiles.
  pose proof (foldl_loadOne files [] st) as H.
  destruct (foldl loadOne ([], st) files) as [newPdfs st'].
  destruct H as (Hfiles & Hle & added & -> & Hok & Hids & _).
  destruct st' as [files' ? ? ? ? ? ? ? next' ? ?]; unfold state_ok; cbn in *;
    unfold constant.
  subst files'. split_and!.
  - apply Forall_app. split; assumption.
  - rewrite fmap_app. apply NoDup_app. split_and!; [exact Hnd | | ].
    + intros x Hx Hx'. rewrite Hids in Hx'. apply elem_of_seq in Hx'.
      apply list_elem_of_fmap in Hx as (p & -> & Hp). apply Hid in Hp. lia.
    + rewrite Hids. apply NoDup_seq.
  - intros p Hp. apply elem_of_app in Hp as [Hp|Hp].
    + apply Hid in Hp. lia.
    + assert (id p ∈ id <$> added) as Hin by (apply list_elem_of_fmap; eauto).
      rewrite Hids in Hin. apply elem_of_seq in Hin. lia.
Qed.

(** *** Every action keeps the list in order *)

Lemma perform_ok st a : state_ok st → state_ok (perform st a).
Proof.
  intros Hst. destruct a; cbn [perform]; unfold withPdf;
    try (destruct (pdfFiles st !! index) as [pdf|] eqn:Hi; [|exact Hst]).
  - apply loadPdfFiles_ok, Hst.
  - destruct (pageOrder pdf !! pos) as [pageIndex|] eqn:Hpos; [|exact Hst].
    apply (togglePageSelection_ok st index pdf); [exact Hst | exact Hi |].
    destruct Hst as (Hall & _ & _).
    pose proof (Forall_lookup_1 _ _ _ _ Hall Hi) as (Hperm & _ & _).
    apply list_elem_of_lookup_2 in Hpos. rewrite Hperm in Hpos.
    apply elem_of_seq in Hpos. lia.
  - apply (selectAllPages_ok st index pdf); assumption.
  - apply (clearPageSelection_ok st index pdf); assumption.
  - unfold onPageGridKeydown. repeat case_match; try exact Hst.
    + apply (clearPageSelection_ok st index pdf); assumption.
    + apply (selectAllPages_ok st index pdf); assumption.
  - apply (movePage_ok st index pdf); assumption.
  - apply (movePage_ok st index pdf); assumption.
  - unfold onDragStart. apply state_ok_dragPos, Hst.
  - unfold onDrop. destruct (dragPos st); [|exact Hst].
    apply state_ok_dragPos, (movePage_ok st index pdf); assumption.
  - apply movePdf_ok, Hst.
  - apply exportSelectedPages_ok, Hst.
Qed.

Lemma initial_ok w : state_ok (initial w).
Proof. split_and!; cbn; [constructor | constructor | set_solver]. Qed.

Lemma run_ok actions st : state_ok st → state_ok (run actions st).
Proof.
  unfold run. revert st. induction actions as [|a actions IH]; intros st Hst.
  - exact Hst.
  - cbn [foldl]. apply IH, perform_ok, Hst.
Qed.

(** *** Reordering leaves the selection alone *)

Lemma replacePdfById_fmap {B} (g : LoadedPdf → B) i patch st :
  (∀ p, g (patch p) = g p) →
  g <$> pdfFiles (replacePdfById i patch st) = g <$> pdfFiles st.
Proof.
  intros Hg. unfold replacePdfById.
  destruct (findIndexById i (pdfFiles st)) as [idx|]; [|reflexivity].
  destruct (pdfFiles st !! idx) as [current|] eqn:Hidx; [|reflexivity].
  destruct st as [files ? ? ? ? ? ? ? ? ? ?]; cbn in *; unfold constant.
  rewrite <- (take_drop_middle files idx current Hidx) at 3.
  rewrite !fmap_app. cbn. rewrite Hg. reflexivity.
Qed.

Lemma movePage_selection pdf fromPos toPos st :
  pageSelection <$> pdfFiles (movePage pdf fromPos toPos st)
  = pageSelection <$> pdfFiles st.
Proof.
  unfold movePage. repeat case_match; try reflexivity.
  apply replacePdfById_fmap. intros p. destruct p; reflexivity.
Qed.

Lemma movePage_rejects pdf fromPos toPos st :
  ¬ (0 ≤ fromPos < Z.of_nat (length (pageOrder pdf))
     ∧ 0 ≤ toPos < Z.of_nat (length (pageOrder pdf)))%Z →
  movePage pdf fromPos toPos st = st.
Proof.
  intros Hout. unfold movePage.
  destruct (Z.eqb_spec fromPos toPos); [reflexivity|].
  destruct (Z.ltb_spec fromPos 0); [reflexivity|].
  destruct (Z.geb_spec fromPos (Z.of_nat (length (pageOrder pdf)))); [reflexivity|].
  destruct (Z.ltb_spec toPos 0); [reflexivity|].
  destruct (Z.geb_spec toPos (Z.of_nat (length (pageOrder pdf)))); [reflexivity|].
  lia.
Qed.

Lemma moveImage_permutation fromPos toPos st :
  imageAssets (moveImage fromPos toPos st) ≡ₚ imageAssets st.
Proof.
  unfold moveImage. repeat case_match; try reflexivity.
  match goal with H : reinsert _ _ _ = Some _ |- _ =>
    apply reinsert_permutation in H; rename H into Hre end.
  destruct st; cbn in *; unfold constant. exact Hre.
Qed.

Lemma moveImage_rejects fromPos toPos st :
  ¬ (0 ≤ fromPos < Z.of_nat (length (imageAssets st))
     ∧ 0 ≤ toPos < Z.of_nat (length (imageAssets st)))%Z →
  moveImage fromPos toPos st = st.
Proof.
  intros Hout. unfold moveImage.
  destruct (Z.eqb_spec fromPos toPos); [reflexivity|].
  destruct (Z.ltb_spec fromPos 0); [reflexivity|].
  destruct (Z.geb_spec fromPos (Z.of_nat (length (imageAssets st)))); [reflexivity|].
  destruct (Z.ltb_spec toPos 0); [reflexivity|].
  destruct (Z.geb_spec toPos (Z.of_nat (length (imageAssets st)))); [reflexivity|].
  lia.
Qed.

Lemma loadPdfFiles_identity files st pdf :
  pdf ∈ pdfFiles (loadPdfFiles files st) →
  pdf ∈ pdfFiles st ∨ pageOrder pdf = seq 0 (pageCount pdf).
Proof.
  unfold loadPdfFiles.
  pose proof (foldl_loadOne files [] st) as H.
  destruct (foldl loadOne ([], st) files) as [newPdfs st'].
  destruct H as (Hfiles & _ & added & -> & _ & _ & Hord).
  destruct st' as [files' ? ? ? ? ? ? ? ? ? ?]; cbn in *; unfold constant.
  subst files'. intros Hin. apply elem_of_app in Hin as [Hin|Hin]; [left; exact Hin|].
  right. rewrite Forall_forall in Hord. apply Hord, Hin.
Qed.

(** *** Selecting every page, then exporting *)


Lemma copyPages_valid (n : nat) (indices : list nat) :
  (∀ i, i ∈ indices → (i < n)%nat) → copyPages n indices = Some (Copied <$> indices).
Proof.
  intros H. unfold copyPages.
  assert (forallb (λ i, (i <? n)%nat) indices = true) as ->; [|reflexivity].
  apply forallb_forall. intros i Hi. apply Nat.ltb_lt, H, list_elem_of_In, Hi.
Qed.


End Pages.

(** C10.  Whatever the user does, the page order of every document in the
    list is a permutation of its page indices [0 .. pageCount-1]: loading
    sets it to the identity, and [movePage] (reached also through
    [movePageStep] and the drop handler) takes one entry out and puts it
    back, and changes nothing when a position is out of range.  [moveImage]
    does the same to the list of images. *)
Theorem page_order_is_permutation :
  (forall (w : Browser.World) (actions : list PdfToolkit.Action)
          (index : nat) (pdf : PdfToolkit.LoadedPdf),
      PdfToolkit.pdfFiles (PdfToolkit.run actions (PdfToolkit.initial w)) !! index
      = Some pdf ->
      PdfToolkit.pageOrder pdf ≡ₚ seq 0 (PdfToolkit.pageCount pdf))
  /\ (forall files st pdf,
      pdf ∈ PdfToolkit.pdfFiles (PdfToolkit.loadPdfFiles files st) ->
      pdf ∈ PdfToolkit.pdfFiles st
      \/ PdfToolkit.pageOrder pdf = seq 0 (PdfToolkit.pageCount pdf))
  /\ (forall pdf fromPos toPos st,
      ~ (0 <= fromPos < Z.of_nat (length (PdfToolkit.pageOrder pdf))
         /\ 0 <= toPos < Z.of_nat (length (PdfToolkit.pageOrder pdf))) ->
      PdfToolkit.movePage pdf fromPos toPos st = st)
  /\ (forall fromPos toPos st,
      PdfToolkit.imageAssets (PdfToolkit.moveImage fromPos toPos st)
      ≡ₚ PdfToolkit.imageAssets st)
  /\ (forall fromPos toPos st,
      ~ (0 <= fromPos < Z.of_nat (length (PdfToolkit.imageAssets st))
         /\ 0 <= toPos < Z.of_nat (length (PdfToolkit.imageAssets st))) ->
      PdfToolkit.moveImage fromPos toPos st = st).
Proof.
  split_and!.
  - intros w actions index pdf Hi.
    destruct (run_ok actions _ (initial_ok w)) as (Hall & _ & _).
    apply (Forall_lookup_1 _ _ _ _ Hall Hi).
  - apply loadPdfFiles_identity.
  - apply movePage_rejects.
  - apply moveImage_permutation.
  - apply moveImage_rejects.
Qed.

Lemma page_order_is_permutation_witness :
  exists pdf,
    PdfToolkit.pdfFiles (PdfToolkit.run three_pages (PdfToolkit.initial Browser.freshWorld))
      !! 0%nat = Some pdf
    /\ PdfToolkit.pageOrder pdf = [2; 0; 1]%nat
    /\ PdfToolkit.pageOrder pdf ≡ₚ seq 0 (PdfToolkit.pageCount pdf).
Proof.
  eexists. split; [vm_compute; reflexivity|]. split; [reflexivity|].
  destruct page_order_is_permutation as [H _].
  apply (H Browser.freshWorld three_pages 0%nat). vm_compute. reflexivity.
Defined.

(** C4.  Whatever the user does, the selection of every document in the
    list holds page indices below its page count only: toggling a page
    (with or without the shift key), selecting all pages and clearing the
    selection keep it so, and [movePage] does not touch the selections. *)
Theorem selection_holds_page_indices :
  (forall (w : Browser.World) (actions : list PdfToolkit.Action)
          (index : nat) (pdf : PdfToolkit.LoadedPdf) (i : nat),
      PdfToolkit.pdfFiles (PdfToolkit.run actions (PdfToolkit.initial w)) !! index
      = Some pdf ->
      i ∈ PdfToolkit.pageSelection pdf -> (i < PdfToolkit.pageCount pdf)%nat)
  /\ (forall pdf fromPos toPos st,
      PdfToolkit.pageSelection <$> PdfToolkit.pdfFiles (PdfToolkit.movePage pdf fromPos toPos st)
      = PdfToolkit.pageSelection <$> PdfToolkit.pdfFiles st).
Proof.
  split.
  - intros w actions index pdf i Hi Hin.
    destruct (run_ok actions _ (initial_ok w)) as (Hall & _ & _).
    destruct (Forall_lookup_1 _ _ _ _ Hall Hi) as (_ & Hsel & _).
    apply Hsel, Hin.
  - apply movePage_selection.
Qed.

Lemma selection_holds_page_indices_witness :
  exists pdf,
    PdfToolkit.pdfFiles (PdfToolkit.run five_pages (PdfToolkit.initial Browser.freshWorld))
      !! 0%nat = Some pdf
    /\ 3%nat ∈ PdfToolkit.pageSelection pdf
    /\ (3 < PdfToolkit.pageCount pdf)%nat.
Proof.
  eexists. split; [vm_compute; reflexivity|].
  assert (Hin : 3%nat ∈ ({[1%nat; 2%nat; 3%nat]} : gset nat)) by set_solver.
  split; [vm_compute; exact Hin|].
  destruct selection_holds_page_indices as [H _].
  eapply (H Browser.freshWorld five_pages 0%nat); [vm_compute; reflexivity|].
  vm_compute. exact Hin.
Defined.




(** ** Doubles *)

(** The rounding of [JS.binary64] at work: [45 * (700 / 1000)] is the
    double just below 31.5, and 0.1 is not a double. *)
Example double_of_a_tenth :
  JS.binary64 (1 # 10) = (3602879701896397 # 36028797018963968)%Q.
Proof. vm_compute. reflexivity. Qed.

Example product_below_the_half :
  JS.round (JS.mul (inject_Z 45) (JS.div (inject_Z 700) (inject_Z 1000))) = 31
  /\ JS.round (inject_Z 45 * (inject_Z 700 / inject_Z 1000)) = 32.
Proof. vm_compute. split; reflexivity. Qed.

Example quotient_below_the_whole :
  Qfloor (JS.mul (inject_Z 8474) (JS.div (inject_Z 8192) (inject_Z 8474))) = 8191.
Proof. vm_compute. reflexivity. Qed.

Section Doubles.

Lemma pow2_pos (k : Z) : (0 < JS.pow2 k)%Q.
Proof. apply Qpower_0_lt. reflexivity. Qed.

Lemma pow2_plus (a b : Z) : (JS.pow2 (a + b) == JS.pow2 a * JS.pow2 b)%Q.
Proof. apply Qpower_plus. discriminate. Qed.

Lemma pow2_opp (k : Z) : (JS.pow2 (- k) * JS.pow2 k == 1)%Q.
Proof. rewrite <- pow2_plus. replace (- k + k) with 0 by lia. reflexivity. Qed.

Lemma pow2_nonneg (k : Z) : 0 <= k -> (JS.pow2 k == inject_Z (2 ^ k))%Q.
Proof. intros H. unfold JS.pow2. rewrite Zpower_Qpower by exact H. reflexivity. Qed.

Lemma pow2_le (a b : Z) : a <= b -> (JS.pow2 a <= JS.pow2 b)%Q.
Proof. intros H. apply Qpower_le_compat_l; [exact H | discriminate]. Qed.

Lemma pow2_lt_inv (a b : Z) : (JS.pow2 a < JS.pow2 b)%Q -> a < b.
Proof. intros H. apply (Qpower_lt_compat_l_inv 2); [exact H | reflexivity]. Qed.

(** [exponent x] is the integer part of the binary logarithm. *)
Lemma exponent_spec (x : Q) :
  (0 < x)%Q -> (JS.pow2 (JS.exponent x) <= x)%Q /\ (x < JS.pow2 (JS.exponent x + 1))%Q.
Proof.
  intros Hx. destruct x as [n d]. assert (Hn : 0 < n) by (unfold Qlt in Hx; cbn in Hx; lia).
  unfold JS.exponent. cbn [Qnum Qden].
  set (a := Z.log2 n). set (b := Z.log2 (Z.pos d)).
  destruct (Z.log2_spec n Hn) as [Ha1 Ha2]. fold a in Ha1, Ha2.
  destruct (Z.log2_spec (Z.pos d) ltac:(lia)) as [Hb1 Hb2]. fold b in Hb1, Hb2.
  assert (Ha0 : 0 <= a) by apply Z.log2_nonneg.
  assert (Hb0 : 0 <= b) by apply Z.log2_nonneg.
  rewrite Z.pow_succ_r in Ha2, Hb2 by assumption.
  assert (Hx' : (n # d == inject_Z n / inject_Z (Z.pos d))%Q) by apply Qmake_Qdiv.
  assert (HA : (JS.pow2 a == inject_Z (2 ^ a))%Q) by (apply pow2_nonneg; assumption).
  assert (HB : (JS.pow2 b == inject_Z (2 ^ b))%Q) by (apply pow2_nonneg; assumption).
  assert (Hab : (JS.pow2 (a - b) * JS.pow2 b == JS.pow2 a)%Q)
    by (rewrite <- pow2_plus; replace (a - b + b) with a by lia; reflexivity).
  pose proof (pow2_pos (a - b)) as Hp.
  set (P := JS.pow2 (a - b)) in *.
  set (N := inject_Z n) in *. set (D := inject_Z (Z.pos d)) in *.
  set (A := inject_Z (2 ^ a)) in *. set (B := inject_Z (2 ^ b)) in *.
  assert (HN1 : (A <= N)%Q) by (subst A N; rewrite <- Zle_Qle; exact Ha1).
  assert (HN2 : (N < 2 * A)%Q)
    by (subst A N; change 2%Q with (inject_Z 2); rewrite <- inject_Z_mult, <- Zlt_Qlt; exact Ha2).
  assert (HD1 : (B <= D)%Q) by (subst B D; rewrite <- Zle_Qle; exact Hb1).
  assert (HD2 : (D < 2 * B)%Q)
    by (subst B D; change 2%Q with (inject_Z 2); rewrite <- inject_Z_mult, <- Zlt_Qlt; exact Hb2).
  assert (HB0 : (0 < B)%Q) by (rewrite <- HB; apply pow2_pos).
  assert (HA0 : (0 < A)%Q) by (rewrite <- HA; apply pow2_pos).
  assert (HPB : (P * B == A)%Q) by (rewrite <- HB, <- HA; exact Hab).
  assert (HD0 : (0 < D)%Q) by lra.
  set (x := (n # d)%Q) in *.
  assert (HxD : (x * D == N)%Q).
  { rewrite Hx'. field. lra. }
  assert (Hlow : (P * (1 # 2) < x)%Q) by nra.
  assert (Hhigh : (x < P * 2)%Q) by nra.
  assert (Hhalf : (JS.pow2 (a - b - 1) == P * (1 # 2))%Q).
  { subst P. replace (a - b - 1) with ((a - b) + (-1)) by lia. rewrite pow2_plus. reflexivity. }
  assert (Hdouble : (JS.pow2 (a - b + 1) == P * 2)%Q).
  { subst P. rewrite pow2_plus. reflexivity. }
  destruct (Qle_bool P x) eqn:E.
  - apply Qle_bool_iff in E. split; [exact E|]. rewrite Hdouble. exact Hhigh.
  - assert (Hlt : (x < P)%Q).
    { apply Qnot_le_lt. intros H. apply Qle_bool_iff in H. congruence. }
    replace (a - b - 1 + 1) with (a - b) by lia. split; [|exact Hlt].
    rewrite Hhalf. lra.
Qed.

(** Rounding to the nearest integer does not cross an integer. *)
Lemma nearest_even_le (x : Q) (n : Z) : (x <= inject_Z n)%Q -> JS.nearest_even x <= n.
Proof.
  intros H. unfold JS.nearest_even.
  pose proof (Qfloor_le x) as Hf.
  assert (Hfn : Qfloor x <= n) by (rewrite Zle_Qle; lra).
  destruct (Qcompare_spec (x - inject_Z (Qfloor x)) (1 # 2)) as [E|E|E].
  - assert (Hlt : (inject_Z (Qfloor x) < inject_Z n)%Q) by lra.
    rewrite <- Zlt_Qlt in Hlt. destruct (Z.even (Qfloor x)); lia.
  - exact Hfn.
  - assert (Hlt : (inject_Z (Qfloor x) < inject_Z n)%Q) by lra.
    rewrite <- Zlt_Qlt in Hlt. lia.
Qed.

Lemma nearest_even_ge (x : Q) (n : Z) : (inject_Z n <= x)%Q -> n <= JS.nearest_even x.
Proof.
  intros H. unfold JS.nearest_even.
  pose proof (Qlt_floor x) as Hf.
  assert (Hlt : (inject_Z n < inject_Z (Qfloor x + 1))%Q) by lra.
  rewrite <- Zlt_Qlt in Hlt.
  destruct (Qcompare (x - inject_Z (Qfloor x)) (1 # 2)); [destruct (Z.even (Qfloor x))| |]; lia.
Qed.

Lemma binary64_pos_le (x : Q) (n : Z) :
  (0 < x)%Q -> (x <= inject_Z n)%Q -> n < 2 ^ 53 -> (JS.binary64_pos x <= inject_Z n)%Q.
Proof.
  intros Hx Hn Hsmall. unfold JS.binary64_pos. rewrite Qred_correct.
  destruct (exponent_spec x Hx) as [He _].
  assert (He52 : JS.exponent x <= 52).
  { assert (Hlt : (JS.pow2 (JS.exponent x) < JS.pow2 53)%Q).
    { eapply Qle_lt_trans; [exact He|]. eapply Qle_lt_trans; [exact Hn|].
      rewrite (pow2_nonneg 53) by lia. rewrite <- Zlt_Qlt. exact Hsmall. }
    apply pow2_lt_inv in Hlt. lia. }
  set (shift := Z.max (JS.exponent x - 52) (-1074)).
  assert (Hshift : shift <= 0) by (subst shift; lia).
  pose proof (pow2_pos shift) as Hp. pose proof (pow2_pos (- shift)) as Hq.
  pose proof (pow2_opp shift) as Hone.
  assert (Hint : (JS.pow2 (- shift) == inject_Z (2 ^ (- shift)))%Q)
    by (apply pow2_nonneg; lia).
  assert (Hscaled : (x * JS.pow2 (- shift) <= inject_Z (n * 2 ^ (- shift)))%Q).
  { rewrite inject_Z_mult, <- Hint. apply Qmult_le_compat_r; [exact Hn | lra]. }
  apply nearest_even_le in Hscaled.
  set (m := JS.nearest_even (x * JS.pow2 (- shift))) in *.
  assert (Hm : (inject_Z m <= inject_Z n * JS.pow2 (- shift))%Q).
  { rewrite Hint, <- inject_Z_mult, <- Zle_Qle. exact Hscaled. }
  set (M := inject_Z m) in *. set (N := inject_Z n) in *.
  set (P := JS.pow2 shift) in *. set (R := JS.pow2 (- shift)) in *.
  assert (H1 : (M * P <= N * R * P)%Q) by (apply Qmult_le_compat_r; lra).
  assert (H2 : (N * R * P == N)%Q) by (rewrite <- Qmult_assoc, Hone; ring).
  lra.
Qed.

Lemma binary64_pos_ge (x : Q) (n : Z) :
  (0 < x)%Q -> (inject_Z n <= x)%Q -> n < 2 ^ 53 -> (inject_Z n <= JS.binary64_pos x)%Q.
Proof.
  intros Hx Hn Hsmall. unfold JS.binary64_pos. rewrite Qred_correct.
  destruct (exponent_spec x Hx) as [He _].
  set (e := JS.exponent x) in *.
  set (shift := Z.max (e - 52) (-1074)).
  pose proof (pow2_pos shift) as Hp. pose proof (pow2_pos (- shift)) as Hq.
  pose proof (pow2_opp shift) as Hone.
  destruct (Z.le_gt_cases shift 0) as [Hshift|Hshift].
  - assert (Hint : (JS.pow2 (- shift) == inject_Z (2 ^ (- shift)))%Q)
      by (apply pow2_nonneg; lia).
    assert (Hscaled : (inject_Z (n * 2 ^ (- shift)) <= x * JS.pow2 (- shift))%Q).
    { rewrite inject_Z_mult, <- Hint. apply Qmult_le_compat_r; [exact Hn | lra]. }
    apply nearest_even_ge in Hscaled.
    set (m := JS.nearest_even (x * JS.pow2 (- shift))) in *.
    assert (Hm : (inject_Z n * JS.pow2 (- shift) <= inject_Z m)%Q).
    { rewrite Hint, <- inject_Z_mult, <- Zle_Qle. exact Hscaled. }
    set (M := inject_Z m) in *. set (N := inject_Z n) in *.
    set (P := JS.pow2 shift) in *. set (R := JS.pow2 (- shift)) in *.
    assert (H1 : (N * R * P <= M * P)%Q) by (apply Qmult_le_compat_r; lra).
    assert (H2 : (N * R * P == N)%Q) by (rewrite <- Qmult_assoc, Hone; ring).
    lra.
  - assert (Heq : shift = e - 52) by (subst shift; lia).
    assert (Hscaled : (inject_Z (2 ^ 52) <= x * JS.pow2 (- shift))%Q).
    { rewrite <- (pow2_nonneg 52) by lia.
      assert (H52 : (JS.pow2 52 == JS.pow2 e * JS.pow2 (- shift))%Q).
      { rewrite <- pow2_plus. replace (e + - shift) with 52 by lia. reflexivity. }
      rewrite H52. apply Qmult_le_compat_r; [exact He | lra]. }
    apply nearest_even_ge in Hscaled.
    set (m := JS.nearest_even (x * JS.pow2 (- shift))) in *.
    assert (Hm : (JS.pow2 52 <= inject_Z m)%Q)
      by (rewrite (pow2_nonneg 52) by lia; rewrite <- Zle_Qle; exact Hscaled).
    assert (Hbig : (JS.pow2 53 <= JS.pow2 52 * JS.pow2 shift)%Q).
    { rewrite <- pow2_plus. apply pow2_le. lia. }
    assert (HN : (inject_Z n < JS.pow2 53)%Q)
      by (rewrite (pow2_nonneg 53) by lia; rewrite <- Zlt_Qlt; exact Hsmall).
    assert (H1 : (JS.pow2 52 * JS.pow2 shift <= inject_Z m * JS.pow2 shift)%Q)
      by (apply Qmult_le_compat_r; lra).
    lra.
Qed.

Lemma binary64_comp (x y : Q) : (x == y)%Q -> JS.binary64 x = JS.binary64 y.
Proof.
  intros H. unfold JS.binary64. rewrite H.
  destruct (Qcompare y 0); [reflexivity | |].
  - do 2 f_equal. apply Qred_complete. rewrite H. reflexivity.
  - f_equal. apply Qred_complete. exact H.
Qed.

(** Rounding to a double does not cross an integer below [2^53]. *)
Lemma binary64_le (x : Q) (n : Z) :
  (x <= inject_Z n)%Q -> 0 <= n < 2 ^ 53 -> (JS.binary64 x <= inject_Z n)%Q.
Proof.
  intros Hx Hn. unfold JS.binary64.
  assert (Hn0 : (0 <= inject_Z n)%Q) by (change 0%Q with (inject_Z 0); rewrite <- Zle_Qle; lia).
  destruct (Qcompare_spec x 0) as [E|E|E].
  - exact Hn0.
  - assert (Hpos : (inject_Z 0 <= JS.binary64_pos (Qred (- x)))%Q).
    { apply binary64_pos_ge; [rewrite Qred_correct; lra | rewrite Qred_correct | lia].
      change (inject_Z 0) with 0%Q. lra. }
    change (inject_Z 0) with 0%Q in Hpos. lra.
  - apply binary64_pos_le; [rewrite Qred_correct; exact E | rewrite Qred_correct; exact Hx | lia].
Qed.

Lemma binary64_ge (x : Q) (n : Z) :
  (inject_Z n <= x)%Q -> 0 <= n < 2 ^ 53 -> (inject_Z n <= JS.binary64 x)%Q.
Proof.
  intros Hx Hn. unfold JS.binary64.
  assert (Hn0 : (0 <= inject_Z n)%Q) by (change 0%Q with (inject_Z 0); rewrite <- Zle_Qle; lia).
  destruct (Qcompare_spec x 0) as [E|E|E].
  - rewrite <- E. exact Hx.
  - lra.
  - apply binary64_pos_ge; [rewrite Qred_correct; exact E | rewrite Qred_correct; exact Hx | lia].
Qed.

(** A whole number below [2^53] is a double. *)
Lemma binary64_whole (x : Q) (n : Z) :
  (x == inject_Z n)%Q -> 0 <= n < 2 ^ 53 -> (JS.binary64 x == inject_Z n)%Q.
Proof.
  intros Hx Hn. apply Qle_antisym; [apply binary64_le | apply binary64_ge];
    first [exact Hn | rewrite Hx; apply Qle_refl].
Qed.

(** Rounding to the nearest integer moves a number by a half at most. *)
Lemma nearest_even_near (x : Q) :
  (x - (1 # 2) <= inject_Z (JS.nearest_even x) <= x + (1 # 2))%Q.
Proof.
  unfold JS.nearest_even.
  pose proof (Qfloor_le x) as Hf. pose proof (Qlt_floor x) as Hc.
  rewrite inject_Z_plus in Hc. change (inject_Z 1) with 1%Q in Hc.
  destruct (Qcompare_spec (x - inject_Z (Qfloor x)) (1 # 2)) as [E|E|E].
  - destruct (Z.even (Qfloor x));
      [|rewrite inject_Z_plus; change (inject_Z 1) with 1%Q]; lra.
  - lra.
  - rewrite inject_Z_plus. change (inject_Z 1) with 1%Q. lra.
Qed.

(** Rounding to a double moves a number of the normal range by the
    fraction [2^-53] of it at most. *)
Lemma binary64_pos_near (x : Q) :
  (JS.pow2 (-1022) <= x)%Q ->
  (x * (1 - JS.pow2 (-53)) <= JS.binary64_pos x <= x * (1 + JS.pow2 (-53)))%Q.
Proof.
  intros Hnormal.
  assert (Hx : (0 < x)%Q) by (pose proof (pow2_pos (-1022)); lra).
  unfold JS.binary64_pos. rewrite Qred_correct.
  destruct (exponent_spec x Hx) as [He1 He2].
  set (e := JS.exponent x) in *.
  assert (He : -1022 <= e).
  { assert (Hlt : (JS.pow2 (-1022) < JS.pow2 (e + 1))%Q) by lra.
    apply pow2_lt_inv in Hlt. lia. }
  replace (Z.max (e - 52) (-1074)) with (e - 52) by lia.
  set (shift := e - 52).
  pose proof (nearest_even_near (x * JS.pow2 (- shift))) as [Hlo Hhi].
  set (m := inject_Z (JS.nearest_even (x * JS.pow2 (- shift)))) in *.
  pose proof (pow2_pos shift) as Hp. pose proof (pow2_opp shift) as Hone.
  assert (Hhalf : (JS.pow2 shift * (1 # 2) == JS.pow2 e * JS.pow2 (-53))%Q).
  { rewrite <- pow2_plus. replace (e + -53) with (shift + -1) by (subst shift; lia).
    rewrite pow2_plus. reflexivity. }
  pose proof (pow2_pos (-53)) as Hu.
  set (P := JS.pow2 shift) in *. set (R := JS.pow2 (- shift)) in *.
  set (E := JS.pow2 e) in *. set (u := JS.pow2 (-53)) in *.
  assert (H1 : ((x * R - (1 # 2)) * P <= m * P)%Q) by (apply Qmult_le_compat_r; lra).
  assert (H2 : (m * P <= (x * R + (1 # 2)) * P)%Q) by (apply Qmult_le_compat_r; lra).
  assert (H3 : (x * R * P == x)%Q) by (rewrite <- Qmult_assoc, Hone; ring).
  assert (H4 : (E * u <= x * u)%Q) by (apply Qmult_le_compat_r; lra).
  split; nra.
Qed.

Lemma binary64_near (x : Q) :
  (JS.pow2 (-1022) <= x)%Q ->
  (x * (1 - JS.pow2 (-53)) <= JS.binary64 x <= x * (1 + JS.pow2 (-53)))%Q.
Proof.
  intros Hnormal.
  assert (Hx : (0 < x)%Q) by (pose proof (pow2_pos (-1022)); lra).
  unfold JS.binary64. destruct (Qcompare_spec x 0) as [E|E|E]; [lra | lra |].
  assert (Hred : (JS.pow2 (-1022) <= Qred x)%Q) by (rewrite Qred_correct; exact Hnormal).
  pose proof (binary64_pos_near (Qred x) Hred) as [Hlo Hhi].
  pose proof (Qred_correct x) as Hy.
  set (b := JS.binary64_pos (Qred x)) in *. set (y := Qred x) in *. clearbody b y.
  split.
  - rewrite <- Hy. exact Hlo.
  - rewrite <- Hy. exact Hhi.
Qed.

(** A quotient of two whole numbers between 1 and [2^53] is in the normal
    range, and the double that the division gives is above zero. *)
Lemma quotient_normal (a b : Z) :
  0 < a -> 0 < b < 2 ^ 53 -> (JS.pow2 (-1022) <= inject_Z a / inject_Z b)%Q.
Proof.
  intros Ha Hb.
  assert (Ha1 : (1 <= inject_Z a)%Q) by (change 1%Q with (inject_Z 1); rewrite <- Zle_Qle; lia).
  assert (Hb0 : (0 < inject_Z b)%Q) by (change 0%Q with (inject_Z 0); rewrite <- Zlt_Qlt; lia).
  assert (Hb1 : (inject_Z b <= JS.pow2 53)%Q)
    by (rewrite (pow2_nonneg 53) by lia; rewrite <- Zle_Qle; lia).
  assert (Hsmall : (JS.pow2 (-1022) <= JS.pow2 (-53))%Q) by (apply pow2_le; lia).
  assert (Hone : (JS.pow2 (-53) * JS.pow2 53 == 1)%Q) by exact (pow2_opp 53).
  pose proof (pow2_pos (-53)) as Hu.
  apply Qle_shift_div_l; [exact Hb0|].
  set (u := JS.pow2 (-53)) in *. set (P := JS.pow2 53) in *.
  set (t := JS.pow2 (-1022)) in *.
  assert (H1 : (t * inject_Z b <= u * inject_Z b)%Q) by (apply Qmult_le_compat_r; lra).
  assert (H2 : (u * inject_Z b <= u * P)%Q) by (rewrite !(Qmult_comm u); apply Qmult_le_compat_r; lra).
  lra.
Qed.

Lemma div_positive (a b : Z) :
  0 < a -> 0 < b < 2 ^ 53 -> (0 < JS.div (inject_Z a) (inject_Z b))%Q.
Proof.
  intros Ha Hb. pose proof (quotient_normal a b Ha Hb) as Hn.
  destruct (binary64_near _ Hn) as [Hlo _]. unfold JS.div.
  pose proof (pow2_pos (-1022)).
  assert (Hu : (JS.pow2 (-53) <= 1 # 2)%Q).
  { change (1 # 2)%Q with (JS.pow2 (-1)). apply pow2_le. lia. }
  set (q := (inject_Z a / inject_Z b)%Q) in *. set (u := JS.pow2 (-53)) in *.
  nra.
Qed.

End Doubles.

(** ** Target sizes *)

(** C1 (the code departs from it).  In crop mode with the aspect ratio
    kept, a picture of 64 by 2048 pixels is loaded, the height field is
    emptied and the width field is set to 640: the target height becomes
    20480, above [MAX_DIMENSION].  [alignTargetDimensionsToAspect] has no
    clamp, where [alignResizeDimensionsToAspect] has one. *)
Theorem crop_width_edit_exceeds_maximum :
  let s := ImageToolkit.handleTargetWidthInput (Some (inject_Z 640))
             (ImageToolkit.handleTargetHeightInput None tall_picture_loaded) in
  ImageToolkit.mode tall_picture_loaded = ImageToolkit.Crop
  /\ ImageToolkit.maintainAspect tall_picture_loaded = true
  /\ ImageToolkit.targetWidth tall_picture_loaded = Some 64
  /\ ImageToolkit.targetHeight tall_picture_loaded = Some 2048
  /\ ImageToolkit.targetWidth s = Some 640
  /\ ImageToolkit.targetHeight s = Some 20480
  /\ 20480 > ImageToolkit.MAX_DIMENSION.
Proof. vm_compute. repeat split; reflexivity. Qed.

(** The same departure on two other paths.  [resetSizing] copies the
    original size without the cap that loading the picture applied, and
    leaves [0] when no picture is loaded; [useFullImage] rounds a scaled
    side down to [0]. *)
Lemma resetSizing_exceeds_maximum :
  ImageToolkit.targetWidth wide_picture_loaded = Some 8192
  /\ ImageToolkit.targetWidth (ImageToolkit.resetSizing wide_picture_loaded) = Some 10000
  /\ ImageToolkit.targetWidth
       (ImageToolkit.resetSizing (ImageToolkit.initial Browser.freshWorld)) = Some 0.
Proof. vm_compute. repeat split; reflexivity. Qed.

Lemma useFullImage_reaches_zero :
  ImageToolkit.targetWidth (ImageToolkit.useFullImage thin_picture_loaded) = Some 0.
Proof. vm_compute. reflexivity. Qed.

Section Sizing.
Import ImageToolkit.

(** *** [Math.round] on quotients *)

Lemma round_above (x : Q) (n : Z) :
  n < JS.round x -> (inject_Z n + (1 # 2) <= x)%Q.
Proof.
  unfold JS.round. intros H.
  pose proof (Qfloor_le (x + (1 # 2))) as Hfloor.
  assert (Hn : (inject_Z (n + 1) <= inject_Z (Qfloor (x + (1 # 2))))%Q)
    by (rewrite <- Zle_Qle; lia).
  rewrite inject_Z_plus in Hn. change (inject_Z 1) with 1%Q in Hn. lra.
Qed.

Lemma round_below (x : Q) (n : Z) :
  (x < inject_Z n + (1 # 2))%Q -> JS.round x <= n.
Proof.
  unfold JS.round. intros H.
  pose proof (Qfloor_le (x + (1 # 2))) as Hfloor.
  assert (Hlt : (inject_Z (Qfloor (x + (1 # 2))) < inject_Z (n + 1))%Q).
  { rewrite inject_Z_plus. change (inject_Z 1) with 1%Q. lra. }
  rewrite <- Zlt_Qlt in Hlt. lia.
Qed.

(** *** A product or a quotient that rounds above the maximum *)

Lemma double_above (x : Q) :
  MAX_DIMENSION < JS.round (JS.binary64 x) -> (inject_Z MAX_DIMENSION < x)%Q.
Proof.
  intros H. apply Qnot_le_lt. intros Hle.
  pose proof (binary64_le x MAX_DIMENSION Hle ltac:(unfold MAX_DIMENSION; lia)) as Hb.
  assert (JS.round (JS.binary64 x) <= MAX_DIMENSION) by (apply round_below; lra).
  lia.
Qed.

Lemma double_below (x : Q) :
  (x <= inject_Z MAX_DIMENSION)%Q ->
  Z.max 1 (JS.round (JS.binary64 x)) <= MAX_DIMENSION.
Proof.
  intros Hle.
  pose proof (binary64_le x MAX_DIMENSION Hle ltac:(unfold MAX_DIMENSION; lia)) as Hb.
  apply Z.max_lub; [unfold MAX_DIMENSION; lia|]. apply round_below. lra.
Qed.

(** When a height within the maximum gives a width above it, the picture
    is wider than high, and the height that goes with the maximal width is
    within the maximum. *)
Lemma clamped_height_fits (r : Q) (h : Z) :
  0 < h <= MAX_DIMENSION ->
  MAX_DIMENSION < JS.round (JS.mul (inject_Z h) r) ->
  Z.max 1 (JS.round (JS.div (inject_Z MAX_DIMENSION) r)) <= MAX_DIMENSION.
Proof.
  intros Hh Hbig. apply double_above in Hbig.
  assert (Hhq : (inject_Z h <= inject_Z MAX_DIMENSION)%Q) by (rewrite <- Zle_Qle; lia).
  assert (Hh0 : (0 < inject_Z h)%Q)
    by (change 0%Q with (inject_Z 0); rewrite <- Zlt_Qlt; lia).
  change (inject_Z MAX_DIMENSION) with (8192 # 1)%Q in *.
  assert (Hr1 : (1 < r)%Q) by nra.
  apply double_below. change (inject_Z MAX_DIMENSION) with (8192 # 1)%Q.
  set (x := ((8192 # 1) / r)%Q).
  assert (Hx : (r * x == 8192 # 1)%Q) by (apply Qmult_div_r; lra).
  nra.
Qed.

(** *** Editing a side under the aspect lock of resize mode *)

Lemma truthyZ_positive (n : Z) : 0 < n -> JS.truthyZ n = true.
Proof. intros H. unfold JS.truthyZ. destruct (Z.eqb_spec n 0); [lia | reflexivity]. Qed.

Lemma or_one_positive (n : Z) : 0 < n -> or_one n = n.
Proof. intros H. unfold or_one. rewrite truthyZ_positive by exact H. reflexivity. Qed.

Lemma nextValue_valid (v : Q) :
  0 < JS.round v ->
  nextValue (Some v) = Some (Z.min (JS.round v) MAX_DIMENSION)
  /\ 0 < Z.min (JS.round v) MAX_DIMENSION <= MAX_DIMENSION.
Proof.
  intros H. unfold nextValue.
  destruct (Z.gtb_spec (JS.round v) 0); [|lia].
  split; [reflexivity | unfold MAX_DIMENSION; lia].
Qed.

Lemma clampWidth_within (s : State) (w : Z) :
  targetWidth s = Some w -> w <= MAX_DIMENSION -> clampWidth s = s.
Proof.
  intros Hw Hle. unfold clampWidth. rewrite Hw.
  destruct (Z.gtb_spec w MAX_DIMENSION); [lia|]. rewrite andb_false_r. reflexivity.
Qed.

Lemma clampHeight_within (s : State) (h : Z) :
  targetHeight s = Some h -> h <= MAX_DIMENSION -> clampHeight s = s.
Proof.
  intros Hh Hle. unfold clampHeight. rewrite Hh.
  destruct (Z.gtb_spec h MAX_DIMENSION); [lia|]. rewrite andb_false_r. reflexivity.
Qed.

Lemma clampWidth_above (s : State) (w : Z) :
  targetWidth s = Some w -> MAX_DIMENSION < w ->
  clampWidth s
  = s <| targetWidth := Some MAX_DIMENSION |>
      <| targetHeight := Some (Z.max 1 (JS.round (JS.div (inject_Z MAX_DIMENSION) (srcRatio s)))) |>.
Proof.
  intros Hw Hlt. unfold clampWidth. rewrite Hw.
  rewrite truthyZ_positive by (unfold MAX_DIMENSION in *; lia).
  destruct (Z.gtb_spec w MAX_DIMENSION); [reflexivity | lia].
Qed.

Lemma clampHeight_above (s : State) (h : Z) :
  targetHeight s = Some h -> MAX_DIMENSION < h ->
  clampHeight s
  = s <| targetHeight := Some MAX_DIMENSION |>
      <| targetWidth := Some (Z.max 1 (JS.round (JS.mul (inject_Z MAX_DIMENSION) (srcRatio s)))) |>.
Proof.
  intros Hh Hlt. unfold clampHeight. rewrite Hh.
  rewrite truthyZ_positive by (unfold MAX_DIMENSION in *; lia).
  destruct (Z.gtb_spec h MAX_DIMENSION); [reflexivity | lia].
Qed.

(** The lock after the width was set to [w]. *)
Lemma alignResize_width (s : State) (w : Z) :
  mode s = Resize -> keepAspectInResize s = true ->
  targetWidth s = Some w -> 0 < w <= MAX_DIMENSION ->
  let h := Z.max 1 (JS.round (JS.div (inject_Z w) (srcRatio s))) in
  let s' := alignResizeDimensionsToAspect (Some Width) s in
  if h <=? MAX_DIMENSION
  then targetWidth s' = Some w /\ targetHeight s' = Some h
  else targetHeight s' = Some MAX_DIMENSION
       /\ targetWidth s' = Some (Z.max 1 (JS.round (JS.mul (inject_Z MAX_DIMENSION) (srcRatio s)))).
Proof.
  intros Hmode Hkeep Hw Hrange h s'. subst s'.
  unfold alignResizeDimensionsToAspect. rewrite Hmode, Hkeep, Hw.
  cbn [mode_eqb negb orb JS.truthyOptZ changed_is andb].
  rewrite (truthyZ_positive w) by lia.
  change (num (Some w)) with (inject_Z w). fold h.
  set (s1 := s <| targetHeight := Some h |>).
  assert (Hstep :
    (if true && negb (JS.truthyOptZ (targetHeight s))
     then s1
     else if negb true && JS.truthyOptZ (targetHeight s)
          then s <| targetWidth :=
                      Some (Z.max 1 (JS.round (JS.mul (num (targetHeight s)) (srcRatio s)))) |>
          else if true && JS.truthyOptZ (targetHeight s) then s1 else s)
    = s1)
    by (destruct (JS.truthyOptZ (targetHeight s)); reflexivity).
  rewrite Hstep. clear Hstep.
  assert (Hw1 : targetWidth s1 = Some w) by (subst s1; destruct s; exact Hw).
  assert (Hh1 : targetHeight s1 = Some h) by (subst s1; destruct s; reflexivity).
  assert (Hr1 : srcRatio s1 = srcRatio s) by (subst s1; destruct s; reflexivity).
  rewrite (clampWidth_within s1 w Hw1) by lia.
  destruct (Z.leb_spec h MAX_DIMENSION).
  - rewrite (clampHeight_within s1 h Hh1) by lia. split; assumption.
  - rewrite (clampHeight_above s1 h Hh1) by lia. rewrite Hr1.
    clearbody s1. destruct s1. split; reflexivity.
Qed.

(** The lock after the height was set to [h]. *)
Lemma alignResize_height (s : State) (h : Z) :
  mode s = Resize -> keepAspectInResize s = true ->
  targetHeight s = Some h -> 0 < h <= MAX_DIMENSION ->
  let w := Z.max 1 (JS.round (JS.mul (inject_Z h) (srcRatio s))) in
  let s' := alignResizeDimensionsToAspect (Some Height) s in
  if w <=? MAX_DIMENSION
  then targetHeight s' = Some h /\ targetWidth s' = Some w
  else targetWidth s' = Some MAX_DIMENSION
       /\ targetHeight s' = Some (Z.max 1 (JS.round (JS.div (inject_Z MAX_DIMENSION) (srcRatio s)))).
Proof.
  intros Hmode Hkeep Hh Hrange w s'. subst s'.
  unfold alignResizeDimensionsToAspect. rewrite Hmode, Hkeep, Hh.
  cbn [mode_eqb negb orb JS.truthyOptZ changed_is andb].
  rewrite (truthyZ_positive h) by lia.
  change (num (Some h)) with (inject_Z h). fold w.
  set (s1 := s <| targetWidth := Some w |>).
  assert (Hstep :
    (if JS.truthyOptZ (targetWidth s) && negb true
     then s <| targetHeight :=
                 Some (Z.max 1 (JS.round (JS.div (num (targetWidth s)) (srcRatio s)))) |>
     else if negb (JS.truthyOptZ (targetWidth s)) && true
          then s1
          else if JS.truthyOptZ (targetWidth s) && true then s1 else s)
    = s1)
    by (destruct (JS.truthyOptZ (targetWidth s)); reflexivity).
  rewrite Hstep. clear Hstep.
  assert (Hw1 : targetWidth s1 = Some w) by (subst s1; destruct s; reflexivity).
  assert (Hh1 : targetHeight s1 = Some h) by (subst s1; destruct s; exact Hh).
  assert (Hr1 : srcRatio s1 = srcRatio s) by (subst s1; destruct s; reflexivity).
  destruct (Z.leb_spec w MAX_DIMENSION).
  - rewrite (clampWidth_within s1 w Hw1) by lia.
    rewrite (clampHeight_within s1 h Hh1) by lia. split; assumption.
  - rewrite (clampWidth_above s1 w Hw1) by lia. rewrite Hr1.
    set (h2 := Z.max 1 (JS.round (JS.div (inject_Z MAX_DIMENSION) (srcRatio s)))).
    assert (Hh2 : h2 <= MAX_DIMENSION)
      by (apply (clamped_height_fits (srcRatio s) h); [lia | subst w; lia]).
    set (s2 := s1 <| targetWidth := Some MAX_DIMENSION |> <| targetHeight := Some h2 |>).
    assert (Hh3 : targetHeight s2 = Some h2) by (subst s2; destruct s1; reflexivity).
    rewrite (clampHeight_within s2 h2 Hh3) by lia.
    split; [subst s2; destruct s1; reflexivity | exact Hh3].
Qed.

Lemma srcRatio_loaded (s : State) :
  0 < originalWidth s -> 0 < originalHeight s ->
  srcRatio s = JS.div (inject_Z (originalWidth s)) (inject_Z (originalHeight s)).
Proof.
  intros Hw Hh. unfold srcRatio. rewrite !or_one_positive by assumption. reflexivity.
Qed.

Lemma handleTargetWidthInput_resize (s : State) (v : Q) :
  mode s = Resize -> keepAspectInResize s = true ->
  handleTargetWidthInput (Some v) s
  = alignResizeDimensionsToAspect (Some Width)
      (s <| targetWidth := nextValue (Some v) |>
         <| selectedPresetValue := Browser.JStr CUSTOM_PRESET_VALUE |>
         <| lastChanged := Some Width |>).
Proof.
  intros Hmode Hkeep. unfold handleTargetWidthInput.
  destruct s; cbn in *. subst. reflexivity.
Qed.

Lemma handleTargetHeightInput_resize (s : State) (v : Q) :
  mode s = Resize -> keepAspectInResize s = true ->
  handleTargetHeightInput (Some v) s
  = alignResizeDimensionsToAspect (Some Height)
      (s <| targetHeight := nextValue (Some v) |>
         <| selectedPresetValue := Browser.JStr CUSTOM_PRESET_VALUE |>
         <| lastChanged := Some Height |>).
Proof.
  intros Hmode Hkeep. unfold handleTargetHeightInput.
  destruct s; cbn in *. subst. reflexivity.
Qed.

(** *** The lock of resize mode keeps the sizes within the maximum *)

Lemma clamped_width_fits (r : Q) (w : Z) :
  0 < w <= MAX_DIMENSION ->
  MAX_DIMENSION < JS.round (JS.div (inject_Z w) r) ->
  Z.max 1 (JS.round (JS.mul (inject_Z MAX_DIMENSION) r)) <= MAX_DIMENSION.
Proof.
  intros Hw Hbig. apply double_above in Hbig.
  assert (Hwq : (inject_Z w <= inject_Z MAX_DIMENSION)%Q) by (rewrite <- Zle_Qle; lia).
  assert (Hw0 : (0 < inject_Z w)%Q)
    by (change 0%Q with (inject_Z 0); rewrite <- Zlt_Qlt; lia).
  change (inject_Z MAX_DIMENSION) with (8192 # 1)%Q in *.
  assert (Hr0 : ~ (r == 0)%Q).
  { intros Hz. assert (Hq : (inject_Z w / r == 0)%Q).
    { rewrite Hz. unfold Qdiv. change (/ 0)%Q with 0%Q. ring. }
    lra. }
  set (y := (inject_Z w / r)%Q) in *.
  assert (Hy : (r * y == inject_Z w)%Q) by (apply Qmult_div_r; exact Hr0).
  assert (Hr1 : (r < 1)%Q) by nra.
  apply double_below. change (inject_Z MAX_DIMENSION) with (8192 # 1)%Q.
  assert (Hpos : (0 < r)%Q) by nra.
  nra.
Qed.

Lemma clamps_from_width (s : State) (w : Z) :
  targetWidth s = Some w -> 1 <= w <= MAX_DIMENSION ->
  targetHeight s = Some (Z.max 1 (JS.round (JS.div (inject_Z w) (srcRatio s)))) ->
  within_maximum (targetWidth (clampHeight (clampWidth s)))
  /\ within_maximum (targetHeight (clampHeight (clampWidth s))).
Proof.
  intros Hw Hrange Hh.
  set (h := Z.max 1 (JS.round (JS.div (inject_Z w) (srcRatio s)))) in *.
  rewrite (clampWidth_within s w Hw) by lia.
  destruct (Z.leb_spec h MAX_DIMENSION).
  - rewrite (clampHeight_within s h Hh) by lia. rewrite Hw, Hh. cbn. lia.
  - rewrite (clampHeight_above s h Hh) by lia.
    pose proof (clamped_width_fits (srcRatio s) w ltac:(lia) ltac:(lia)) as Hfit.
    set (w' := Z.max 1 (JS.round (JS.mul (inject_Z MAX_DIMENSION) (srcRatio s)))) in *.
    assert (1 <= w') by (subst w'; lia).
    clearbody w' h. destruct s; cbn. unfold MAX_DIMENSION in *. lia.
Qed.

Lemma clamps_from_height (s : State) (h : Z) :
  targetHeight s = Some h -> 1 <= h <= MAX_DIMENSION ->
  targetWidth s = Some (Z.max 1 (JS.round (JS.mul (inject_Z h) (srcRatio s)))) ->
  within_maximum (targetWidth (clampHeight (clampWidth s)))
  /\ within_maximum (targetHeight (clampHeight (clampWidth s))).
Proof.
  intros Hh Hrange Hw.
  set (w := Z.max 1 (JS.round (JS.mul (inject_Z h) (srcRatio s)))) in *.
  destruct (Z.leb_spec w MAX_DIMENSION).
  - rewrite (clampWidth_within s w Hw) by lia.
    rewrite (clampHeight_within s h Hh) by lia. rewrite Hw, Hh. cbn. lia.
  - rewrite (clampWidth_above s w Hw) by lia.
    pose proof (clamped_height_fits (srcRatio s) h ltac:(lia) ltac:(lia)) as Hfit.
    set (h2 := Z.max 1 (JS.round (JS.div (inject_Z MAX_DIMENSION) (srcRatio s)))) in *.
    assert (1 <= h2) by (subst h2; lia).
    set (s2 := s <| targetWidth := Some MAX_DIMENSION |> <| targetHeight := Some h2 |>).
    assert (Hh2 : targetHeight s2 = Some h2) by (subst s2; destruct s; reflexivity).
    assert (Hw2 : targetWidth s2 = Some MAX_DIMENSION) by (subst s2; destruct s; reflexivity).
    rewrite (clampHeight_within s2 h2 Hh2) by lia. rewrite Hw2, Hh2. cbn.
    unfold MAX_DIMENSION in *. lia.
Qed.

Lemma truthyOptZ_within (n : option Z) :
  within_maximum n -> JS.truthyOptZ n = bool_decide (is_Some n).
Proof.
  destruct n as [v|]; cbn; [|reflexivity].
  intros H. apply truthyZ_positive. lia.
Qed.

(** Sizes within the maximum stay so under the lock, whichever side
    changed. *)
Lemma alignResize_within (changed : option Changed) (s : State) :
  within_maximum (targetWidth s) -> within_maximum (targetHeight s) ->
  within_maximum (targetWidth (alignResizeDimensionsToAspect changed s))
  /\ within_maximum (targetHeight (alignResizeDimensionsToAspect changed s)).
Proof.
  intros Hw Hh. unfold alignResizeDimensionsToAspect.
  destruct (negb (mode_eqb (mode s) Resize) || negb (keepAspectInResize s));
    [split; assumption|].
  rewrite (truthyOptZ_within _ Hw), (truthyOptZ_within _ Hh).
  destruct (targetWidth s) as [w|] eqn:Ew, (targetHeight s) as [h|] eqn:Eh;
    cbn [bool_decide decide_rel is_Some_dec andb negb within_maximum] in *.
  - change (num (Some h)) with (inject_Z h). change (num (Some w)) with (inject_Z w).
    destruct (changed_is changed Height).
    + set (s1 := s <| targetWidth := _ |>).
      apply (clamps_from_height s1 h); [|exact Hh|]; subst s1; destruct s; cbn in *;
        first [assumption | reflexivity].
    + set (s1 := s <| targetHeight := _ |>).
      apply (clamps_from_width s1 w); [|exact Hw|]; subst s1; destruct s; cbn in *;
        first [assumption | reflexivity].
  - change (num (Some w)) with (inject_Z w).
    set (s1 := s <| targetHeight := _ |>).
    apply (clamps_from_width s1 w); [|exact Hw|]; subst s1; destruct s; cbn in *;
      first [assumption | reflexivity].
  - change (num (Some h)) with (inject_Z h).
    set (s1 := s <| targetWidth := _ |>).
    apply (clamps_from_height s1 h); [|exact Hh|]; subst s1; destruct s; cbn in *;
      first [assumption | reflexivity].
  - unfold clampWidth, clampHeight. rewrite Ew. rewrite Eh. rewrite Ew, Eh.
    split; exact I.
Qed.

Lemma nextValue_within (input : option Q) : within_maximum (nextValue input).
Proof.
  unfold nextValue. destruct input as [v|]; [|exact I].
  destruct (Z.gtb_spec (JS.round v) 0); [|exact I].
  unfold within_maximum, MAX_DIMENSION. lia.
Qed.

(** In resize mode with the lock on, an edit of either field leaves both
    sizes within the maximum: the path that has the clamp keeps the bound
    that the crop path loses. *)
Lemma resize_edits_within_maximum (s : State) (input : option Q) :
  mode s = Resize -> keepAspectInResize s = true ->
  within_maximum (targetWidth s) -> within_maximum (targetHeight s) ->
  (within_maximum (targetWidth (handleTargetWidthInput input s))
   /\ within_maximum (targetHeight (handleTargetWidthInput input s)))
  /\ (within_maximum (targetWidth (handleTargetHeightInput input s))
      /\ within_maximum (targetHeight (handleTargetHeightInput input s))).
Proof.
  intros Hmode Hkeep Hw Hh.
  pose proof (nextValue_within input) as Hnext.
  split.
  - replace (handleTargetWidthInput input s)
      with (alignResizeDimensionsToAspect (Some Width)
              (s <| targetWidth := nextValue input |>
                 <| selectedPresetValue := Browser.JStr CUSTOM_PRESET_VALUE |>
                 <| lastChanged := Some Width |>))
      by (unfold handleTargetWidthInput; destruct s; cbn in *; subst; reflexivity).
    apply alignResize_within; destruct s; cbn in *; assumption.
  - replace (handleTargetHeightInput input s)
      with (alignResizeDimensionsToAspect (Some Height)
              (s <| targetHeight := nextValue input |>
                 <| selectedPresetValue := Browser.JStr CUSTOM_PRESET_VALUE |>
                 <| lastChanged := Some Height |>))
      by (unfold handleTargetHeightInput; destruct s; cbn in *; subst; reflexivity).
    apply alignResize_within; destruct s; cbn in *; assumption.
Qed.

End Sizing.

(** C3.  In resize mode with the aspect lock on and a picture loaded, an
    edit of the width field to a valid number stores [w], the rounded
    number capped at [MAX_DIMENSION], and makes the target height
    [max(1, round(w / ratio))], where [ratio] is the double
    [originalWidth / originalHeight] and the quotient is the double that
    the division gives; when that height is above [MAX_DIMENSION] the
    height becomes [MAX_DIMENSION] and the width the matching
    [max(1, round(MAX_DIMENSION * ratio))].  An edit of the height field
    does the same with the sides exchanged: the width becomes
    [max(1, round(h * ratio))], and when that is above [MAX_DIMENSION] the
    width becomes [MAX_DIMENSION] and the height
    [max(1, round(MAX_DIMENSION / ratio))].  Every product and quotient is
    rounded to a double before [Math.round] sees it, so for a picture of
    700 by 1000 pixels a height of 45 gives the width 31, where the exact
    product 31.5 would round to 32. *)
Theorem resize_aspect_lock (s : ImageToolkit.State) (v : Q) :
  ImageToolkit.mode s = ImageToolkit.Resize ->
  ImageToolkit.keepAspectInResize s = true ->
  0 < ImageToolkit.originalWidth s ->
  0 < ImageToolkit.originalHeight s ->
  0 < JS.round v ->
  let ratio := JS.div (inject_Z (ImageToolkit.originalWidth s))
                      (inject_Z (ImageToolkit.originalHeight s)) in
  let maxDim := ImageToolkit.MAX_DIMENSION in
  (let w := Z.min (JS.round v) maxDim in
   let h := Z.max 1 (JS.round (JS.div (inject_Z w) ratio)) in
   let s' := ImageToolkit.handleTargetWidthInput (Some v) s in
   if h <=? maxDim
   then ImageToolkit.targetWidth s' = Some w /\ ImageToolkit.targetHeight s' = Some h
   else ImageToolkit.targetHeight s' = Some maxDim
        /\ ImageToolkit.targetWidth s'
           = Some (Z.max 1 (JS.round (JS.mul (inject_Z maxDim) ratio))))
  /\
  (let h := Z.min (JS.round v) maxDim in
   let w := Z.max 1 (JS.round (JS.mul (inject_Z h) ratio)) in
   let s' := ImageToolkit.handleTargetHeightInput (Some v) s in
   if w <=? maxDim
   then ImageToolkit.targetHeight s' = Some h /\ ImageToolkit.targetWidth s' = Some w
   else ImageToolkit.targetWidth s' = Some maxDim
        /\ ImageToolkit.targetHeight s'
           = Some (Z.max 1 (JS.round (JS.div (inject_Z maxDim) ratio)))).
Proof.
  intros Hmode Hkeep How Hoh Hv ratio maxDim.
  destruct (nextValue_valid v Hv) as [Hnext Hrange].
  assert (Hratio : ImageToolkit.srcRatio s = ratio) by (apply srcRatio_loaded; assumption).
  split.
  - intros w h s'. subst s'.
    rewrite handleTargetWidthInput_resize by assumption. rewrite Hnext.
    set (s0 := s <| ImageToolkit.targetWidth := Some w |>
                 <| ImageToolkit.selectedPresetValue :=
                      Browser.JStr ImageToolkit.CUSTOM_PRESET_VALUE |>
                 <| ImageToolkit.lastChanged := Some ImageToolkit.Width |>).
    assert (Hr0 : ImageToolkit.srcRatio s0 = ratio)
      by (rewrite <- Hratio; subst s0; destruct s; reflexivity).
    pose proof (alignResize_width s0 w) as H. rewrite Hr0 in H.
    apply H; [| | |exact Hrange]; subst s0; destruct s; cbn in *;
      first [assumption | reflexivity].
  - intros h w s'. subst s'.
    rewrite handleTargetHeightInput_resize by assumption. rewrite Hnext.
    set (s0 := s <| ImageToolkit.targetHeight := Some h |>
                 <| ImageToolkit.selectedPresetValue :=
                      Browser.JStr ImageToolkit.CUSTOM_PRESET_VALUE |>
                 <| ImageToolkit.lastChanged := Some ImageToolkit.Height |>).
    assert (Hr0 : ImageToolkit.srcRatio s0 = ratio)
      by (rewrite <- Hratio; subst s0; destruct s; reflexivity).
    pose proof (alignResize_height s0 h) as H. rewrite Hr0 in H.
    apply H; [| | |exact Hrange]; subst s0; destruct s; cbn in *;
      first [assumption | reflexivity].
Qed.

Lemma resize_aspect_lock_witness :
  (ImageToolkit.mode small_picture_resize = ImageToolkit.Resize
   /\ ImageToolkit.originalWidth small_picture_resize = 400
   /\ ImageToolkit.originalHeight small_picture_resize = 300
   /\ (let s' := ImageToolkit.handleTargetWidthInput (Some (inject_Z 800)) small_picture_resize in
       ImageToolkit.targetWidth s' = Some 800 /\ ImageToolkit.targetHeight s' = Some 600)
   /\ (let s' := ImageToolkit.handleTargetHeightInput (Some (inject_Z 8000)) small_picture_resize in
       ImageToolkit.targetWidth s' = Some 8192 /\ ImageToolkit.targetHeight s' = Some 6144))
  /\
  (ImageToolkit.mode portrait_picture_resize = ImageToolkit.Resize
   /\ ImageToolkit.originalWidth portrait_picture_resize = 700
   /\ ImageToolkit.originalHeight portrait_picture_resize = 1000
   /\ (let s' := ImageToolkit.handleTargetHeightInput (Some (inject_Z 45)) portrait_picture_resize in
       ImageToolkit.targetHeight s' = Some 45 /\ ImageToolkit.targetWidth s' = Some 31)
   /\ (let s' := ImageToolkit.handleTargetWidthInput (Some (inject_Z 7000)) portrait_picture_resize in
       ImageToolkit.targetHeight s' = Some 8192 /\ ImageToolkit.targetWidth s' = Some 5734)).
Proof.
  split.
  - assert (Hmode : ImageToolkit.mode small_picture_resize = ImageToolkit.Resize)
      by reflexivity.
    assert (Hkeep : ImageToolkit.keepAspectInResize small_picture_resize = true)
      by reflexivity.
    assert (How : 0 < ImageToolkit.originalWidth small_picture_resize)
      by (vm_compute; reflexivity).
    assert (Hoh : 0 < ImageToolkit.originalHeight small_picture_resize)
      by (vm_compute; reflexivity).
    split; [exact Hmode|]. split; [reflexivity|]. split; [reflexivity|].
    split.
    + assert (Hv : 0 < JS.round (inject_Z 800)) by (vm_compute; reflexivity).
      destruct (resize_aspect_lock small_picture_resize (inject_Z 800)
                  Hmode Hkeep How Hoh Hv) as [H _].
      vm_compute in H. exact H.
    + assert (Hv : 0 < JS.round (inject_Z 8000)) by (vm_compute; reflexivity).
      destruct (resize_aspect_lock small_picture_resize (inject_Z 8000)
                  Hmode Hkeep How Hoh Hv) as [_ H].
      vm_compute in H. exact H.
  - assert (Hmode : ImageToolkit.mode portrait_picture_resize = ImageToolkit.Resize)
      by reflexivity.
    assert (Hkeep : ImageToolkit.keepAspectInResize portrait_picture_resize = true)
      by reflexivity.
    assert (How : 0 < ImageToolkit.originalWidth portrait_picture_resize)
      by (vm_compute; reflexivity).
    assert (Hoh : 0 < ImageToolkit.originalHeight portrait_picture_resize)
      by (vm_compute; reflexivity).
    split; [exact Hmode|]. split; [reflexivity|]. split; [reflexivity|].
    split.
    + assert (Hv : 0 < JS.round (inject_Z 45)) by (vm_compute; reflexivity).
      destruct (resize_aspect_lock portrait_picture_resize (inject_Z 45)
                  Hmode Hkeep How Hoh Hv) as [_ H].
      vm_compute in H. exact H.
    + assert (Hv : 0 < JS.round (inject_Z 7000)) by (vm_compute; reflexivity).
      destruct (resize_aspect_lock portrait_picture_resize (inject_Z 7000)
                  Hmode Hkeep How Hoh Hv) as [H _].
      vm_compute in H. exact H.
Defined.

(** ** Producing the result *)
Section Encoding.
Import Browser ImageToolkit.

Lemma preserves_ret {B A} (g : State -> B) (a : A) : preserves g (mret a).
Proof. intros s. reflexivity. Qed.

Lemma preserves_throw {B A} (g : State -> B) (message : string) :
  preserves g (throw (A:=A) message).
Proof. intros s. reflexivity. Qed.

Lemma preserves_gets {B A} (g : State -> B) (f : State -> A) : preserves g (gets f).
Proof. intros s. reflexivity. Qed.

Lemma preserves_modify {B} (g : State -> B) (f : State -> State) :
  (forall s, g (f s) = g s) -> preserves g (modify f).
Proof. intros H s. apply H. Qed.

Lemma preserves_bind {B A C} (g : State -> B) (m : M A) (k : A -> M C) :
  preserves g m -> (forall a, preserves g (k a)) -> preserves g (m ≫= k).
Proof.
  intros Hm Hk s. unfold mbind, M_bind.
  specialize (Hm s). destruct (m s) as [s' [e|a]]; cbn in *.
  - exact Hm.
  - rewrite (Hk a s'). exact Hm.
Qed.

(** Break a block of statements down to its assignments. *)
Ltac preserve_step :=
  lazymatch goal with
  | |- preserves _ (mret _) => apply preserves_ret
  | |- preserves _ (throw _) => apply preserves_throw
  | |- preserves _ (gets _) => apply preserves_gets
  | |- preserves _ (mbind _ _) => apply preserves_bind; [|intros ?]
  | |- preserves _ (modify _) => apply preserves_modify; intros ?
  | |- preserves _ (match ?x with _ => _ end) => destruct x
  end.

Lemma settings_kept_by (f : State -> State) :
  (forall s, selectedFormatValue (f s) = selectedFormatValue s
             /\ quality (f s) = quality s /\ file (f s) = file s) ->
  forall {B} (g : State -> B), reads_settings g -> forall s, g (f s) = g s.
Proof. intros Hf B g Hg s. destruct (Hf s) as (H1 & H2 & H3). apply Hg; assumption. Qed.

Lemma destroyCropper_settings s :
  selectedFormatValue (destroyCropper s) = selectedFormatValue s
  /\ quality (destroyCropper s) = quality s /\ file (destroyCropper s) = file s.
Proof. unfold destroyCropper. destruct s, cropper0; repeat split. Qed.

Lemma cleanupResultUrl_settings s :
  selectedFormatValue (cleanupResultUrl s) = selectedFormatValue s
  /\ quality (cleanupResultUrl s) = quality s /\ file (cleanupResultUrl s) = file s.
Proof. unfold cleanupResultUrl. destruct s, resultUrl0; repeat split. Qed.

Lemma alignResize_settings changed s :
  selectedFormatValue (alignResizeDimensionsToAspect changed s) = selectedFormatValue s
  /\ quality (alignResizeDimensionsToAspect changed s) = quality s
  /\ file (alignResizeDimensionsToAspect changed s) = file s.
Proof.
  unfold alignResizeDimensionsToAspect, clampHeight, clampWidth.
  destruct s; cbn [mode keepAspectInResize targetWidth targetHeight].
  repeat (match goal with
          | |- context [if ?c then _ else _] => destruct c
          | |- context [match ?x with Some _ => _ | None => _ end] => destruct x
          end; cbn [targetWidth targetHeight apply_update]; unfold constant);
    repeat split.
Qed.

Lemma beginProcessing_settings downloadNow s :
  selectedFormatValue (beginProcessing downloadNow s) = selectedFormatValue s
  /\ quality (beginProcessing downloadNow s) = quality s
  /\ file (beginProcessing downloadNow s) = file s.
Proof.
  unfold beginProcessing. cbv zeta.
  set (s1 := s <| errorMessage := "" |> <| statusMessage := "Processing…" |>
               <| processing := true |>).
  assert (H1 : selectedFormatValue s1 = selectedFormatValue s
               /\ quality s1 = quality s /\ file s1 = file s)
    by (subst s1; destruct s; repeat split).
  set (s2 := if downloadNow then cleanupResultUrl s1 else s1).
  assert (H2 : selectedFormatValue s2 = selectedFormatValue s
               /\ quality s2 = quality s /\ file s2 = file s).
  { subst s2. destruct downloadNow; [|exact H1].
    destruct (cleanupResultUrl_settings s1) as (A & B & C).
    destruct H1 as (A' & B' & C'). repeat split; congruence. }
  clearbody s2. clear s1 H1.
  destruct (mode_eqb (mode s2) Resize && keepAspectInResize s2); [|exact H2].
  destruct (alignResize_settings (Some (default Width (lastChanged s2))) s2) as (A & B & C).
  destruct H2 as (A' & B' & C'). repeat split; congruence.
Qed.

Lemma prepareCanvas_preserves {B} (g : State -> B) env width height :
  reads_settings g -> preserves g (prepareCanvas env width height).
Proof.
  intros Hg.
  unfold prepareCanvas, canvasViaCropperFullFrame, canvasFromOriginal,
    loadOrientedImageElement, maskCanvasToCircle, stretchCanvas, newCanvas.
  repeat preserve_step;
    try (apply (settings_kept_by destroyCropper destroyCropper_settings), Hg).
  all: apply Hg;
    match goal with |- _ = ?p ?s0 => destruct s0 end;
    cbn [selectedFormatValue quality file mode maintainAspect targetWidth
         targetHeight apply_update];
    repeat match goal with |- context [if ?c then _ else _] => destruct c end;
    reflexivity.
Qed.

Lemma selectedFormat_reads : reads_settings selectedFormat.
Proof. intros s s' H _ _. unfold selectedFormat. rewrite H. reflexivity. Qed.

Lemma quality_reads : reads_settings quality.
Proof. intros s s' _ H _. exact H. Qed.

Lemma includes_encode : JS.includes encodeFailure "encode" = true.
Proof. reflexivity. Qed.

End Encoding.

(** C6.  When the canvas is ready and [canvas.toBlob] gives no blob for the
    chosen format, [canvasToBlob] rejects with "Browser could not encode
    the requested format.", and [generateResult] ends with that text as the
    error message (with the AVIF hint in its place when the chosen format
    is image/avif), an empty status message, and [processing] false. *)
Theorem encode_failure_reported
    (env : ImageToolkit.Env) (downloadNow : bool) (s s2 : ImageToolkit.State)
    (f : Browser.File) (canvas : Browser.Canvas) :
  let s1 := ImageToolkit.beginProcessing downloadNow s in
  let format := ImageToolkit.selectedFormat s in
  let qualityOption :=
    if ImageToolkit.fmt_lossless format then None else Some (ImageToolkit.quality s) in
  ImageToolkit.file s = Some f ->
  ImageToolkit.prepareCanvas env
    (ImageToolkit.outputWidth s1) (ImageToolkit.outputHeight s1) s1 = (s2, inr canvas) ->
  ImageToolkit.toBlob env canvas (ImageToolkit.fmt_value format) qualityOption = None ->
  ImageToolkit.canvasToBlob env canvas (ImageToolkit.fmt_value format) qualityOption s2
  = (s2, inl (ImageToolkit.ErrorObject
                "Browser could not encode the requested format."))
  /\ let s' := ImageToolkit.generateResult env downloadNow s in
     ImageToolkit.errorMessage s'
     = (if String.eqb (ImageToolkit.fmt_value format) "image/avif"
        then "This browser cannot export AVIF yet. Try Chrome 120+ or pick WEBP/JPEG."
        else "Browser could not encode the requested format.")%string
     /\ ImageToolkit.statusMessage s' = ""%string
     /\ ImageToolkit.processing s' = false.
Proof.
  intros s1 format qualityOption Hfile Hcanvas Hblob.
  assert (Hthrow :
    ImageToolkit.canvasToBlob env canvas (ImageToolkit.fmt_value format) qualityOption s2
    = (s2, inl (ImageToolkit.ErrorObject ImageToolkit.encodeFailure))).
  { unfold ImageToolkit.canvasToBlob. rewrite Hblob. reflexivity. }
  split; [exact Hthrow|].
  assert (Hkept : forall {B} (g : ImageToolkit.State -> B),
             ImageToolkit.reads_settings g -> g s2 = g s).
  { intros B g Hg.
    pose proof (prepareCanvas_preserves g env (ImageToolkit.outputWidth s1)
                  (ImageToolkit.outputHeight s1) Hg s1) as H.
    rewrite Hcanvas in H. cbn in H. rewrite H.
    apply (settings_kept_by (ImageToolkit.beginProcessing downloadNow)
             (beginProcessing_settings downloadNow)), Hg. }
  assert (Htry :
    ImageToolkit.tryBlock env downloadNow
      (ImageToolkit.outputWidth s1) (ImageToolkit.outputHeight s1) s1
    = (s2, inl (ImageToolkit.ErrorObject ImageToolkit.encodeFailure))).
  { unfold ImageToolkit.tryBlock.
    unfold mbind at 1. unfold ImageToolkit.M_bind at 1. rewrite Hcanvas.
    unfold mbind, ImageToolkit.M_bind, ImageToolkit.gets.
    rewrite (Hkept _ _ selectedFormat_reads), (Hkept _ _ quality_reads).
    fold format. fold qualityOption. rewrite Hthrow. reflexivity. }
  cbv zeta. unfold ImageToolkit.generateResult. rewrite Hfile. fold s1.
  rewrite Htry. unfold ImageToolkit.catchBlock.
  rewrite (Hkept _ _ selectedFormat_reads). fold format.
  rewrite includes_encode, andb_true_r.
  destruct (String.eqb (ImageToolkit.fmt_value format) "image/avif");
    destruct s2; repeat split.
Qed.

Lemma encode_failure_reported_witness :
  ImageToolkit.errorMessage (ImageToolkit.generateResult no_encoder true small_picture_resize)
  = "Browser could not encode the requested format."%string
  /\ ImageToolkit.errorMessage (ImageToolkit.generateResult no_encoder true small_picture_avif)
     = "This browser cannot export AVIF yet. Try Chrome 120+ or pick WEBP/JPEG."%string
  /\ ImageToolkit.processing (ImageToolkit.generateResult no_encoder true small_picture_avif)
     = false.
Proof.
  pose (run := fun s =>
    ImageToolkit.prepareCanvas no_encoder
      (ImageToolkit.outputWidth (ImageToolkit.beginProcessing true s))
      (ImageToolkit.outputHeight (ImageToolkit.beginProcessing true s))
      (ImageToolkit.beginProcessing true s)).
  split; [|split].
  - destruct (run small_picture_resize) as [s2 [e|canvas]] eqn:Hrun;
      [vm_compute in Hrun; discriminate|].
    destruct (encode_failure_reported no_encoder true small_picture_resize s2
                tall_picture canvas eq_refl Hrun eq_refl) as (_ & H & _).
    exact H.
  - destruct (run small_picture_avif) as [s2 [e|canvas]] eqn:Hrun;
      [vm_compute in Hrun; discriminate|].
    destruct (encode_failure_reported no_encoder true small_picture_avif s2
                tall_picture canvas eq_refl Hrun eq_refl) as (_ & H & _).
    exact H.
  - destruct (run small_picture_avif) as [s2 [e|canvas]] eqn:Hrun;
      [vm_compute in Hrun; discriminate|].
    destruct (encode_failure_reported no_encoder true small_picture_avif s2
                tall_picture canvas eq_refl Hrun eq_refl) as (_ & _ & _ & H).
    exact H.
Defined.

(** ** Settings in the storage area *)
Section Settings.
Import Browser ImageToolkit.

Lemma persistSettings_enabled (s : State) :
  storageEnabled (world s) = true ->
  persistSettings s
  = s <| world := (world s) <| storage :=
                     <[SETTINGS_KEY := Parsed (settingsObject s)]> (storage (world s)) |> |>.
Proof. intros H. unfold persistSettings, setItem. rewrite H. reflexivity. Qed.

Lemma persistSettings_disabled (s : State) :
  storageEnabled (world s) = false -> persistSettings s = s.
Proof. intros H. unfold persistSettings, setItem. rewrite H. reflexivity. Qed.

(** Reading back the object that [persistSettings] writes for [s]. *)
Lemma restore_written (s s0 : State) :
  truthy (selectedFormatValue s) = true ->
  truthy (selectedPresetValue s) = true ->
  truthy (smoothing s) = true ->
  restore_keepAspectInResize (settingsObject s)
    (restore_smoothing (settingsObject s)
       (restore_mode (settingsObject s)
          (restore_selectedPresetValue (settingsObject s)
             (restore_quality (settingsObject s)
                (restore_selectedFormatValue (settingsObject s) s0)))))
  = s0 <| selectedFormatValue := selectedFormatValue s |>
       <| quality := quality s |>
       <| selectedPresetValue := selectedPresetValue s |>
       <| mode := mode s |>
       <| smoothing := smoothing s |>
       <| keepAspectInResize := keepAspectInResize s |>.
Proof.
  intros Hf Hp Hs.
  unfold restore_keepAspectInResize, restore_smoothing, restore_mode,
    restore_selectedPresetValue, restore_quality, restore_selectedFormatValue,
    settingsObject.
  cbn [prop List.find fst snd String.eqb Ascii.eqb Bool.eqb fmap option_fmap option_map].
  rewrite Hf, Hp, Hs. destruct (mode s); reflexivity.
Qed.

(** Each step of the restore assigns its own setting at most. *)
Lemma restore_selectedFormatValue_frame v (t : State) :
  exists x, restore_selectedFormatValue v t = t <| selectedFormatValue := x |>.
Proof.
  unfold restore_selectedFormatValue.
  destruct (prop v "selectedFormatValue") as [x|];
    [destruct (truthy x); [eexists; reflexivity|]|];
    exists (selectedFormatValue t); destruct t; reflexivity.
Qed.

Lemma restore_quality_frame v (t : State) :
  exists x, restore_quality v t = t <| quality := x |>.
Proof.
  unfold restore_quality.
  destruct (prop v "quality") as [[]|]; try (eexists; reflexivity);
    exists (quality t); destruct t; reflexivity.
Qed.

Lemma restore_selectedPresetValue_frame v (t : State) :
  exists x, restore_selectedPresetValue v t = t <| selectedPresetValue := x |>.
Proof.
  unfold restore_selectedPresetValue.
  destruct (prop v "selectedPresetValue") as [x|];
    [destruct (truthy x); [eexists; reflexivity|]|];
    exists (selectedPresetValue t); destruct t; reflexivity.
Qed.

Lemma restore_mode_frame v (t : State) :
  exists x, restore_mode v t = t <| mode := x |>.
Proof.
  unfold restore_mode.
  destruct (prop v "mode") as [[| | |m| |]|];
    try (exists (mode t); destruct t; reflexivity).
  destruct (String.eqb m "resize"); [eexists; reflexivity|].
  destruct (String.eqb m "crop"); [eexists; reflexivity|].
  exists (mode t); destruct t; reflexivity.
Qed.

Lemma restore_smoothing_frame v (t : State) :
  exists x, restore_smoothing v t = t <| smoothing := x |>.
Proof.
  unfold restore_smoothing.
  destruct (prop v "smoothing") as [x|];
    [destruct (truthy x); [eexists; reflexivity|]|];
    exists (smoothing t); destruct t; reflexivity.
Qed.

Lemma restore_keepAspectInResize_frame v (t : State) :
  exists x, restore_keepAspectInResize v t = t <| keepAspectInResize := x |>.
Proof.
  unfold restore_keepAspectInResize.
  destruct (prop v "keepAspectInResize") as [[]|]; try (eexists; reflexivity);
    exists (keepAspectInResize t); destruct t; reflexivity.
Qed.

(** [restoreSettings] assigns the six settings at most. *)
Lemma restoreSettings_frame (s0 : State) :
  exists fv q pv m sm k,
    restoreSettings s0
    = s0 <| selectedFormatValue := fv |> <| quality := q |>
         <| selectedPresetValue := pv |> <| mode := m |>
         <| smoothing := sm |> <| keepAspectInResize := k |>.
Proof.
  assert (Hid : exists fv q pv m sm k,
    s0 = s0 <| selectedFormatValue := fv |> <| quality := q |>
            <| selectedPresetValue := pv |> <| mode := m |>
            <| smoothing := sm |> <| keepAspectInResize := k |>).
  { exists (selectedFormatValue s0), (quality s0), (selectedPresetValue s0),
      (mode s0), (smoothing s0), (keepAspectInResize s0).
    destruct s0; reflexivity. }
  assert (Hall : forall v, exists fv q pv m sm k,
    restore_keepAspectInResize v
      (restore_smoothing v
         (restore_mode v
            (restore_selectedPresetValue v
               (restore_quality v (restore_selectedFormatValue v s0)))))
    = s0 <| selectedFormatValue := fv |> <| quality := q |>
         <| selectedPresetValue := pv |> <| mode := m |>
         <| smoothing := sm |> <| keepAspectInResize := k |>).
  { intros v.
    destruct (restore_selectedFormatValue_frame v s0) as [fv ->].
    destruct (restore_quality_frame v (s0 <| selectedFormatValue := fv |>)) as [q ->].
    destruct (restore_selectedPresetValue_frame v
                (s0 <| selectedFormatValue := fv |> <| quality := q |>)) as [pv ->].
    destruct (restore_mode_frame v
                (s0 <| selectedFormatValue := fv |> <| quality := q |>
                    <| selectedPresetValue := pv |>)) as [m ->].
    destruct (restore_smoothing_frame v
                (s0 <| selectedFormatValue := fv |> <| quality := q |>
                    <| selectedPresetValue := pv |> <| mode := m |>)) as [sm ->].
    destruct (restore_keepAspectInResize_frame v
                (s0 <| selectedFormatValue := fv |> <| quality := q |>
                    <| selectedPresetValue := pv |> <| mode := m |>
                    <| smoothing := sm |>)) as [k ->].
    exists fv, q, pv, m, sm, k. reflexivity. }
  unfold restoreSettings.
  destruct (negb (storageEnabled (world s0))); [exact Hid|].
  destruct (storage (world s0) !! SETTINGS_KEY) as [[v|]|]; [|exact Hid..].
  destruct v; first [exact Hid | apply Hall].
Qed.

(** The callback of [onMount] on a component whose storage area holds the
    entry that [persistSettings] writes for [s]. *)
Lemma onMount_reads_written (s s0 : State) :
  storageEnabled (world s) = true ->
  truthy (selectedFormatValue s) = true ->
  truthy (selectedPresetValue s) = true ->
  truthy (smoothing s) = true ->
  world s0 = world (persistSettings s) ->
  onMount s0
  = s0 <| CropperCtor := true |>
       <| selectedFormatValue := selectedFormatValue s |>
       <| quality := quality s |>
       <| selectedPresetValue := selectedPresetValue s |>
       <| mode := mode s |>
       <| smoothing := smoothing s |>
       <| keepAspectInResize := keepAspectInResize s |>.
Proof.
  intros Hen Hf Hp Hs Hworld.
  rewrite (persistSettings_enabled s Hen) in Hworld.
  unfold onMount, restoreSettings.
  set (s1 := s0 <| CropperCtor := true |>).
  assert (Hw1 : world s1 = world s0) by (subst s1; destruct s0; reflexivity).
  rewrite Hw1, Hworld.
  assert (Hlookup :
    storage (world (s <| world := (world s)
                         <| storage := <[SETTINGS_KEY := Parsed (settingsObject s)]>
                                         (storage (world s)) |> |>))
      !! SETTINGS_KEY
    = Some (Parsed (settingsObject s))).
  { destruct s as [? ? ? ? ? ? ? ? ? ? ? ? ? ? ? ? ? ? ? ? ? ? ? ? ? ? ? ? w].
    destruct w. cbn. unfold constant. apply lookup_insert_eq. }
  assert (Hen1 :
    storageEnabled
      (world (s <| world := (world s)
                    <| storage := <[SETTINGS_KEY := Parsed (settingsObject s)]>
                                    (storage (world s)) |> |>))
    = true).
  { destruct s as [? ? ? ? ? ? ? ? ? ? ? ? ? ? ? ? ? ? ? ? ? ? ? ? ? ? ? ? w].
    destruct w. exact Hen. }
  rewrite Hen1, Hlookup. cbn [negb].
  change (match settingsObject s with
          | JNull => s1
          | _ => ?x end) with x.
  rewrite (restore_written s s1 Hf Hp Hs). reflexivity.
Qed.

(** What each step of the restore tests before it assigns. *)
Lemma restore_selectedFormatValue_eq v (t : State) :
  restore_selectedFormatValue v t
  = t <| selectedFormatValue :=
           match prop v "selectedFormatValue" with
           | Some x => if truthy x then x else selectedFormatValue t
           | None => selectedFormatValue t
           end |>.
Proof.
  unfold restore_selectedFormatValue.
  destruct (prop v "selectedFormatValue") as [x|]; [destruct (truthy x)|];
    destruct t; reflexivity.
Qed.

Lemma restore_quality_eq v (t : State) :
  restore_quality v t
  = t <| quality := match prop v "quality" with
                    | Some (JNum q) => q
                    | _ => quality t
                    end |>.
Proof.
  unfold restore_quality.
  destruct (prop v "quality") as [[]|]; destruct t; reflexivity.
Qed.

Lemma restore_selectedPresetValue_eq v (t : State) :
  restore_selectedPresetValue v t
  = t <| selectedPresetValue :=
           match prop v "selectedPresetValue" with
           | Some x => if truthy x then x else selectedPresetValue t
           | None => selectedPresetValue t
           end |>.
Proof.
  unfold restore_selectedPresetValue.
  destruct (prop v "selectedPresetValue") as [x|]; [destruct (truthy x)|];
    destruct t; reflexivity.
Qed.

Lemma restore_mode_eq v (t : State) :
  restore_mode v t
  = t <| mode := match prop v "mode" with
                 | Some (JStr m) =>
                     if String.eqb m "resize" then Resize
                     else if String.eqb m "crop" then Crop else mode t
                 | _ => mode t
                 end |>.
Proof.
  unfold restore_mode.
  destruct (prop v "mode") as [[| | |m| |]|]; try (destruct t; reflexivity).
  destruct (String.eqb m "resize"); [reflexivity|].
  destruct (String.eqb m "crop"); [reflexivity|]. destruct t; reflexivity.
Qed.

Lemma restore_smoothing_eq v (t : State) :
  restore_smoothing v t
  = t <| smoothing := match prop v "smoothing" with
                      | Some x => if truthy x then x else smoothing t
                      | None => smoothing t
                      end |>.
Proof.
  unfold restore_smoothing.
  destruct (prop v "smoothing") as [x|]; [destruct (truthy x)|];
    destruct t; reflexivity.
Qed.

Lemma restore_keepAspectInResize_eq v (t : State) :
  restore_keepAspectInResize v t
  = t <| keepAspectInResize := match prop v "keepAspectInResize" with
                               | Some (JBool b) => b
                               | _ => keepAspectInResize t
                               end |>.
Proof.
  unfold restore_keepAspectInResize.
  destruct (prop v "keepAspectInResize") as [[]|]; destruct t; reflexivity.
Qed.

(** The callback of [onMount] on an entry that parses to [v]. *)
Lemma onMount_by_shape (t : State) (v : json) :
  storageEnabled (world t) = true ->
  storage (world t) !! SETTINGS_KEY = Some (Parsed v) ->
  v <> JNull ->
  onMount t
  = t <| CropperCtor := true |>
      <| selectedFormatValue :=
           match prop v "selectedFormatValue" with
           | Some x => if truthy x then x else selectedFormatValue t
           | None => selectedFormatValue t
           end |>
      <| quality := match prop v "quality" with
                    | Some (JNum q) => q
                    | _ => quality t
                    end |>
      <| selectedPresetValue :=
           match prop v "selectedPresetValue" with
           | Some x => if truthy x then x else selectedPresetValue t
           | None => selectedPresetValue t
           end |>
      <| mode := match prop v "mode" with
                 | Some (JStr m) =>
                     if String.eqb m "resize" then Resize
                     else if String.eqb m "crop" then Crop else mode t
                 | _ => mode t
                 end |>
      <| smoothing := match prop v "smoothing" with
                      | Some x => if truthy x then x else smoothing t
                      | None => smoothing t
                      end |>
      <| keepAspectInResize := match prop v "keepAspectInResize" with
                               | Some (JBool b) => b
                               | _ => keepAspectInResize t
                               end |>.
Proof.
  intros Hen Hlook Hnull. unfold onMount, restoreSettings.
  set (t1 := t <| CropperCtor := true |>).
  assert (Hw1 : world t1 = world t) by (subst t1; destruct t; reflexivity).
  rewrite Hw1, Hen, Hlook. cbn [negb].
  assert (Hstep :
    match v with
    | JNull => t1
    | _ => restore_keepAspectInResize v
             (restore_smoothing v
                (restore_mode v
                   (restore_selectedPresetValue v
                      (restore_quality v (restore_selectedFormatValue v t1)))))
    end
    = restore_keepAspectInResize v
        (restore_smoothing v
           (restore_mode v
              (restore_selectedPresetValue v
                 (restore_quality v (restore_selectedFormatValue v t1))))))
    by (destruct v; [contradiction | reflexivity..]).
  rewrite Hstep. clear Hstep.
  rewrite restore_keepAspectInResize_eq, restore_smoothing_eq, restore_mode_eq,
    restore_selectedPresetValue_eq, restore_quality_eq, restore_selectedFormatValue_eq.
  subst t1. destruct t; reflexivity.
Qed.

(** The component as it comes up in a browser whose storage area answers:
    the declared values, the cropper module imported, and the entry of the
    settings rewritten from the declared values. *)
Lemma onModeChange_same (s : State) :
  mode s = previousMode s -> onModeChange s = s.
Proof.
  intros H. unfold onModeChange. rewrite <- H. destruct (mode s); reflexivity.
Qed.

Lemma create_enabled (w : World) :
  storageEnabled w = true ->
  create w
  = (initial w)
      <| CropperCtor := true |>
      <| world := w <| storage := <[SETTINGS_KEY := Parsed (settingsObject (initial w))]>
                                    (storage w) |> |>.
Proof.
  intros Hen. unfold create, runReactiveBlocks.
  set (s1 := persistSettings (initial w)).
  assert (Hs1 : s1 = (initial w)
                       <| world := w <| storage :=
                            <[SETTINGS_KEY := Parsed (settingsObject (initial w))]>
                              (storage w) |> |>)
    by (subst s1; rewrite persistSettings_enabled by exact Hen; reflexivity).
  rewrite (onModeChange_same s1) by (rewrite Hs1; reflexivity).
  rewrite (onMount_reads_written (initial w) s1 Hen eq_refl eq_refl eq_refl eq_refl).
  rewrite Hs1. rewrite persistSettings_enabled by (destruct w; exact Hen).
  rewrite onModeChange_same by reflexivity.
  destruct w as [? ? ? ? ? ? ? ? st]. cbn. unfold constant.
  rewrite insert_insert_eq. reflexivity.
Qed.

Lemma create_disabled (w : World) :
  storageEnabled w = false -> create w = (initial w) <| CropperCtor := true |>.
Proof.
  intros Hen. unfold create, runReactiveBlocks.
  assert (H1 : persistSettings (initial w) = initial w)
    by (apply persistSettings_disabled; exact Hen).
  assert (H2 : onMount (initial w) = (initial w) <| CropperCtor := true |>).
  { unfold onMount, restoreSettings.
    change (storageEnabled (world ((initial w) <| CropperCtor := true |>)))
      with (storageEnabled w).
    rewrite Hen. reflexivity. }
  rewrite H1. rewrite (onModeChange_same (initial w)) by reflexivity.
  rewrite H2. rewrite persistSettings_disabled by exact Hen.
  apply onModeChange_same. reflexivity.
Qed.

End Settings.

(** C7 (the code departs from it).  The write is as the claim has it:
    with the storage area enabled, the reactive block writes one entry,
    under the key "image-toolkit-settings-v1", the object of the six
    settings [selectedFormatValue], [quality], [selectedPresetValue],
    [mode], [smoothing] and [keepAspectInResize], and no other entry of the
    area and no variable of the component changes.  The restore is not:
    the reactive block runs when the component is created, before the
    callback of [onMount] reads the key, so whatever an earlier visit left
    under the key is replaced by the declared values before it is read.
    In every browser [w] whose storage area answers, the component comes
    up with the declared settings (PNG, quality 0.85, the custom preset,
    crop mode, high smoothing, the aspect lock on), and the entry under the
    key holds these.  The callback itself, on an entry that parses to a
    value [v] other than [null], assigns [quality] when [v.quality] is a
    number, [mode] when [v.mode] is "resize" or "crop",
    [keepAspectInResize] when [v.keepAspectInResize] is a boolean; the
    three other settings are assigned whatever truthy value the entry
    holds, of any shape; and no other variable (but [CropperCtor], which
    it has just imported). *)
Theorem settings_overwritten_before_restore
    (w : Browser.World) (s : ImageToolkit.State) :
  Browser.storageEnabled w = true ->
  Browser.storageEnabled (ImageToolkit.world s) = true ->
  let declared :=
    Browser.JObj
      [ ("selectedFormatValue"%string, Browser.JStr "image/png");
        ("quality"%string, Browser.JNum (JS.binary64 (85 # 100)));
        ("selectedPresetValue"%string, Browser.JStr "custom");
        ("mode"%string, Browser.JStr "crop");
        ("smoothing"%string, Browser.JStr "high");
        ("keepAspectInResize"%string, Browser.JBool true) ] in
  ImageToolkit.persistSettings s
  = s <| ImageToolkit.world :=
           (ImageToolkit.world s)
             <| Browser.storage :=
                  <["image-toolkit-settings-v1"%string :=
                      Browser.Parsed
                        (Browser.JObj
                           [ ("selectedFormatValue"%string, ImageToolkit.selectedFormatValue s);
                             ("quality"%string, Browser.JNum (ImageToolkit.quality s));
                             ("selectedPresetValue"%string, ImageToolkit.selectedPresetValue s);
                             ("mode"%string,
                              Browser.JStr (match ImageToolkit.mode s with
                                            | ImageToolkit.Resize => "resize"
                                            | ImageToolkit.Crop => "crop"
                                            end)%string);
                             ("smoothing"%string, ImageToolkit.smoothing s);
                             ("keepAspectInResize"%string,
                              Browser.JBool (ImageToolkit.keepAspectInResize s)) ])]>
                  (Browser.storage (ImageToolkit.world s)) |> |>
  /\ ImageToolkit.create w
     = (ImageToolkit.initial w)
         <| ImageToolkit.CropperCtor := true |>
         <| ImageToolkit.world :=
              w <| Browser.storage :=
                     <["image-toolkit-settings-v1"%string := Browser.Parsed declared]>
                       (Browser.storage w) |> |>
  /\ ImageToolkit.settingsObject (ImageToolkit.create w) = declared
  /\ (forall (t : ImageToolkit.State) (v : Browser.json),
      Browser.storageEnabled (ImageToolkit.world t) = true ->
      Browser.storage (ImageToolkit.world t) !! "image-toolkit-settings-v1"%string
      = Some (Browser.Parsed v) ->
      v <> Browser.JNull ->
      ImageToolkit.onMount t
      = t <| ImageToolkit.CropperCtor := true |>
          <| ImageToolkit.selectedFormatValue :=
               match Browser.prop v "selectedFormatValue" with
               | Some x => if Browser.truthy x then x else ImageToolkit.selectedFormatValue t
               | None => ImageToolkit.selectedFormatValue t
               end |>
          <| ImageToolkit.quality :=
               match Browser.prop v "quality" with
               | Some (Browser.JNum q) => q
               | _ => ImageToolkit.quality t
               end |>
          <| ImageToolkit.selectedPresetValue :=
               match Browser.prop v "selectedPresetValue" with
               | Some x => if Browser.truthy x then x else ImageToolkit.selectedPresetValue t
               | None => ImageToolkit.selectedPresetValue t
               end |>
          <| ImageToolkit.mode :=
               match Browser.prop v "mode" with
               | Some (Browser.JStr m) =>
                   if String.eqb m "resize" then ImageToolkit.Resize
                   else if String.eqb m "crop" then ImageToolkit.Crop
                   else ImageToolkit.mode t
               | _ => ImageToolkit.mode t
               end |>
          <| ImageToolkit.smoothing :=
               match Browser.prop v "smoothing" with
               | Some x => if Browser.truthy x then x else ImageToolkit.smoothing t
               | None => ImageToolkit.smoothing t
               end |>
          <| ImageToolkit.keepAspectInResize :=
               match Browser.prop v "keepAspectInResize" with
               | Some (Browser.JBool b) => b
               | _ => ImageToolkit.keepAspectInResize t
               end |>).
Proof.
  intros Hw Hs declared.
  split; [|split; [|split]].
  - rewrite (persistSettings_enabled s Hs). reflexivity.
  - rewrite (create_enabled w Hw). reflexivity.
  - rewrite (create_enabled w Hw). reflexivity.
  - intros t v. apply onMount_by_shape.
Qed.

(** An earlier visit left resize mode, WEBP at quality 0.5, low smoothing
    and the lock off under the key: the component comes up in crop mode
    with PNG at quality 0.85, and the entry no longer says resize. *)
Lemma settings_overwritten_before_restore_witness :
  let s := ImageToolkit.create returning_visitor in
  Browser.storage returning_visitor !! ImageToolkit.SETTINGS_KEY
  = Some (Browser.Parsed previous_settings)
  /\ Browser.prop previous_settings "mode" = Some (Browser.JStr "resize")
  /\ ImageToolkit.mode s = ImageToolkit.Crop
  /\ ImageToolkit.selectedFormatValue s = Browser.JStr "image/png"
  /\ ImageToolkit.keepAspectInResize s = true
  /\ (exists v, Browser.storage (ImageToolkit.world s) !! ImageToolkit.SETTINGS_KEY
                = Some (Browser.Parsed v)
                /\ Browser.prop v "mode" = Some (Browser.JStr "crop")).
Proof.
  intros s.
  destruct (settings_overwritten_before_restore returning_visitor
              (ImageToolkit.initial returning_visitor) eq_refl eq_refl)
    as (_ & Hcreate & _ & _).
  split; [apply lookup_singleton_eq|]. split; [reflexivity|].
  subst s. rewrite Hcreate.
  split; [reflexivity|]. split; [reflexivity|]. split; [reflexivity|].
  eexists. split; [apply lookup_insert_eq | reflexivity].
Defined.

(** * Further properties of the handlers *)

(** ** Moving a page, an image, a document *)
Section Moves.
Import Browser PdfToolkit.

Lemma splice_take_one {A} (l : list A) (from : nat) (x : A) :
  l !! from = Some x ->
  JS.splice l (Z.of_nat from) 1 [] = ([x], delete from l).
Proof.
  intros Hx. pose proof (lookup_lt_Some _ _ _ Hx) as Hlt.
  unfold JS.splice.
  destruct (Z.ltb_spec (Z.of_nat from) 0); [lia|].
  replace (Z.min (Z.of_nat from) (Z.of_nat (length l))) with (Z.of_nat from) by lia.
  replace (Z.min (Z.max 1 0) (Z.of_nat (length l) - Z.of_nat from)) with 1 by lia.
  rewrite Z2Nat.inj_add by lia. rewrite Nat2Z.id.
  change (Z.to_nat 1) with 1%nat.
  f_equal.
  - rewrite (drop_S _ _ _ Hx). reflexivity.
  - cbn [app]. rewrite Nat.add_1_r. symmetry. apply delete_take_drop.
Qed.

Lemma splice_put_one {A} (l : list A) (to : nat) (x : A) :
  (to <= length l)%nat ->
  JS.splice l (Z.of_nat to) 0 [x] = ([], take to l ++ x :: drop to l).
Proof.
  intros Hle. unfold JS.splice.
  destruct (Z.ltb_spec (Z.of_nat to) 0); [lia|].
  replace (Z.min (Z.of_nat to) (Z.of_nat (length l))) with (Z.of_nat to) by lia.
  replace (Z.min (Z.max 0 0) (Z.of_nat (length l) - Z.of_nat to)) with 0 by lia.
  rewrite Z.add_0_r, Nat2Z.id. reflexivity.
Qed.

(** Taking the element at [from] out and putting it back at [to]: it ends
    at [to], and the other elements keep their order. *)
Lemma reinsert_lands {A} (l : list A) (from to : nat) (x : A) :
  l !! from = Some x -> (to < length l)%nat ->
  exists l', reinsert l (Z.of_nat from) (Z.of_nat to) = Some l'
             /\ l' !! to = Some x
             /\ delete to l' = delete from l
             /\ length l' = length l.
Proof.
  intros Hx Hto. pose proof (lookup_lt_Some _ _ _ Hx) as Hfrom.
  unfold reinsert. rewrite (splice_take_one l from x Hx).
  assert (Hlen : length (delete from l) = (length l - 1)%nat)
    by (rewrite length_delete by (eexists; exact Hx); reflexivity).
  rewrite (splice_put_one (delete from l) to x) by lia.
  cbn [snd].
  set (rest := delete from l) in *.
  assert (Htake : length (take to rest) = to) by (rewrite length_take; lia).
  eexists. split; [reflexivity|]. split_and!.
  - rewrite lookup_app_r by lia. rewrite Htake, Nat.sub_diag. reflexivity.
  - rewrite delete_take_drop.
    rewrite take_app_length' by (symmetry; exact Htake).
    change (take to rest ++ x :: drop to rest)
      with (take to rest ++ [x] ++ drop to rest).
    rewrite app_assoc.
    rewrite (drop_app_length' _ _ (S to))
      by (rewrite length_app, Htake; cbn; lia).
    apply take_drop.
  - rewrite length_app. cbn. rewrite Htake, length_drop. lia.
Qed.

Lemma movePage_lands (st : State) (index : nat) (pdf : LoadedPdf)
    (from to page : nat) :
  state_ok st -> pdfFiles st !! index = Some pdf ->
  pageOrder pdf !! from = Some page -> (to < length (pageOrder pdf))%nat ->
  from <> to ->
  exists order',
    pdfFiles (movePage pdf (Z.of_nat from) (Z.of_nat to) st)
    = <[index := pdf <| pageOrder := order' |>]> (pdfFiles st)
    /\ order' !! to = Some page
    /\ delete to order' = delete from (pageOrder pdf).
Proof.
  intros Hst Hi Hpage Hto Hne.
  pose proof (lookup_lt_Some _ _ _ Hpage) as Hfrom.
  destruct (reinsert_lands (pageOrder pdf) from to page Hpage Hto)
    as (order' & Hre & Hland & Hrest & _).
  exists order'. split; [|split; assumption].
  unfold movePage.
  destruct (Z.eqb_spec (Z.of_nat from) (Z.of_nat to)); [lia|].
  destruct (Z.ltb_spec (Z.of_nat from) 0); [lia|].
  destruct (Z.geb_spec (Z.of_nat from) (Z.of_nat (length (pageOrder pdf)))); [lia|].
  destruct (Z.ltb_spec (Z.of_nat to) 0); [lia|].
  destruct (Z.geb_spec (Z.of_nat to) (Z.of_nat (length (pageOrder pdf)))); [lia|].
  cbn [orb]. rewrite Hre.
  destruct Hst as (_ & Hnd & _).
  rewrite (replacePdfById_insert st index pdf _ Hnd Hi).
  destruct st; reflexivity.
Qed.

Lemma moveImage_lands (st : State) (from to : nat) (asset : ImageAsset) :
  imageAssets st !! from = Some asset -> (to < length (imageAssets st))%nat ->
  from <> to ->
  imageAssets (moveImage (Z.of_nat from) (Z.of_nat to) st) !! to = Some asset
  /\ delete to (imageAssets (moveImage (Z.of_nat from) (Z.of_nat to) st))
     = delete from (imageAssets st).
Proof.
  intros Hasset Hto Hne.
  pose proof (lookup_lt_Some _ _ _ Hasset) as Hfrom.
  destruct (reinsert_lands (imageAssets st) from to asset Hasset Hto)
    as (next' & Hre & Hland & Hrest & _).
  unfold moveImage.
  destruct (Z.eqb_spec (Z.of_nat from) (Z.of_nat to)); [lia|].
  destruct (Z.ltb_spec (Z.of_nat from) 0); [lia|].
  destruct (Z.geb_spec (Z.of_nat from) (Z.of_nat (length (imageAssets st)))); [lia|].
  destruct (Z.ltb_spec (Z.of_nat to) 0); [lia|].
  destruct (Z.geb_spec (Z.of_nat to) (Z.of_nat (length (imageAssets st)))); [lia|].
  cbn [orb]. rewrite Hre.
  destruct st; cbn in *; unfold constant. split; assumption.
Qed.

(** *** Counting the selected pages *)

Lemma selected_count (pdf : LoadedPdf) :
  pdf_ok pdf ->
  length (filter (fun i => i ∈ pageSelection pdf) (pageOrder pdf))
  = size (pageSelection pdf).
Proof.
  intros (Hperm & Hsel & _).
  unfold size, set_size. cbn.
  apply Permutation_length, NoDup_Permutation.
  - apply NoDup_filter. rewrite Hperm. apply NoDup_seq.
  - apply NoDup_elements.
  - intros i. rewrite list_elem_of_filter, elem_of_elements, Hperm, elem_of_seq.
    split; [intros [H _]; exact H|]. intros H. split; [exact H|].
    specialize (Hsel i H). lia.
Qed.

Lemma mergeOrder_count (pdf : LoadedPdf) :
  pdf_ok pdf -> length (mergeOrder pdf) = pagesTaken pdf.
Proof.
  intros Hok. unfold mergeOrder, pagesTaken.
  destruct (size (pageSelection pdf) =? 0)%nat.
  - destruct Hok as (Hperm & _). rewrite Hperm. apply length_seq.
  - apply selected_count, Hok.
Qed.

Lemma mergeOrder_valid (pdf : LoadedPdf) (i : nat) :
  pdf_ok pdf -> i ∈ mergeOrder pdf -> (i < pageCount pdf)%nat.
Proof.
  intros (Hperm & _ & _) Hin.
  assert (i ∈ pageOrder pdf).
  { unfold mergeOrder in Hin. destruct (size (pageSelection pdf) =? 0)%nat;
      [exact Hin|]. apply list_elem_of_filter in Hin as [_ H]. exact H. }
  rewrite Hperm in H. apply elem_of_seq in H. lia.
Qed.

Lemma mergeLoop_all (srcLoads : LoadedPdf -> bool) (pdfs : list LoadedPdf) (out : list Page) :
  Forall pdf_ok pdfs -> Forall (fun p => srcLoads p = true) pdfs ->
  mergeLoop srcLoads pdfs out
  = Some (out ++ (Copied <$> concat (mergeOrder <$> pdfs))).
Proof.
  revert out. induction pdfs as [|pdf rest IH]; intros out Hok Hloads.
  - cbn. rewrite app_nil_r. reflexivity.
  - apply Forall_cons in Hok as [Hpdf Hrest].
    apply Forall_cons in Hloads as [Hload Hloads].
    cbn [mergeLoop]. rewrite Hload.
    rewrite copyPages_valid by (intros i Hi; eapply mergeOrder_valid; eassumption).
    rewrite IH by assumption.
    cbn. rewrite fmap_app, app_assoc. reflexivity.
Qed.

Lemma concat_mergeOrder_count (pdfs : list LoadedPdf) :
  Forall pdf_ok pdfs ->
  length (concat (mergeOrder <$> pdfs)) = sum_list (pagesTaken <$> pdfs).
Proof.
  induction 1 as [|pdf rest Hpdf _ IH]; [reflexivity|].
  cbn. rewrite length_app, IH, mergeOrder_count by exact Hpdf. reflexivity.
Qed.

(** Moving by one step exchanges two neighbours. *)
Lemma reinsert_neighbours {A} (l l' : list A) (from to : nat) :
  delete to l' = delete from l -> length l' = length l ->
  (from < length l)%nat -> (to < length l)%nat ->
  (to = S from \/ from = S to) ->
  l' !! from = l !! to
  /\ forall k, k <> from -> k <> to -> l' !! k = l !! k.
Proof.
  intros Hdel Hlen Hfrom Hto Hstep. split.
  - destruct Hstep as [-> | ->].
    + rewrite <- (list_lookup_delete_lt l' (S from) from) by lia.
      rewrite Hdel. apply list_lookup_delete_ge. lia.
    + rewrite <- (list_lookup_delete_ge l' to to) by lia.
      rewrite Hdel. apply list_lookup_delete_lt. lia.
  - intros k Hk1 Hk2.
    destruct (decide (k < from)%nat) as [Hlt|Hge].
    + assert (k < to)%nat by lia.
      rewrite <- (list_lookup_delete_lt l' to k) by lia.
      rewrite Hdel. apply list_lookup_delete_lt. lia.
    + assert (from < k)%nat by lia. assert (to < k)%nat by lia.
      destruct k as [|k]; [lia|].
      rewrite <- (list_lookup_delete_ge l' to k) by lia.
      rewrite Hdel. apply list_lookup_delete_ge. lia.
Qed.

Lemma movePdf_lands (st : State) (index : nat) (direction : Z) (pdf : LoadedPdf) :
  pdfFiles st !! index = Some pdf ->
  0 <= Z.of_nat index + direction < Z.of_nat (length (pdfFiles st)) ->
  let target := Z.to_nat (Z.of_nat index + direction) in
  pdfFiles (movePdf (Z.of_nat index) direction st) !! target = Some pdf
  /\ delete target (pdfFiles (movePdf (Z.of_nat index) direction st))
     = delete index (pdfFiles st)
  /\ length (pdfFiles (movePdf (Z.of_nat index) direction st)) = length (pdfFiles st).
Proof.
  intros Hi Hrange target.
  assert (Htarget : (target < length (pdfFiles st))%nat) by (subst target; lia).
  destruct (reinsert_lands (pdfFiles st) index target pdf Hi Htarget)
    as (updated & Hre & Hland & Hrest & Hlen).
  unfold movePdf.
  destruct (Z.ltb_spec (Z.of_nat index + direction) 0); [lia|].
  destruct (Z.geb_spec (Z.of_nat index + direction) (Z.of_nat (length (pdfFiles st))));
    [lia|].
  cbn [orb].
  replace (Z.of_nat index + direction) with (Z.of_nat target) by (subst target; lia).
  rewrite Hre. destruct st; cbn in *; unfold constant. split_and!; assumption.
Qed.

(** *** Two clicks, and a click with the shift key *)

Lemma toggle_twice (sel : gset nat) (i : nat) :
  (let once := if bool_decide (i ∈ sel) then sel ∖ {[i]} else {[i]} ∪ sel in
   if bool_decide (i ∈ once) then once ∖ {[i]} else {[i]} ∪ once) = sel.
Proof.
  cbn zeta. destruct (decide (i ∈ sel)) as [Hin|Hout].
  - rewrite (bool_decide_eq_true_2 _ Hin).
    rewrite bool_decide_eq_false_2 by set_solver.
    apply set_eq. intros k. destruct (decide (k = i)); set_solver.
  - rewrite (bool_decide_eq_false_2 _ Hout).
    rewrite bool_decide_eq_true_2 by set_solver.
    set_solver.
Qed.

(** *** Loading *)

(** What [loadPdfFiles] keeps of a file: the name and the page count of a
    PDF that the library reads. *)
Lemma foldl_loadOne_added files newPdfs st :
  let '(newPdfs', st') := foldl loadOne (newPdfs, st) files in
  exists added,
    newPdfs' = newPdfs ++ added
    /\ (fun p => (name p, pageCount p)) <$> added
       = omap (fun c => if cand_isPdf c
                        then (fun n => (cand_name c, n)) <$> cand_pages c
                        else None) files
    /\ Forall (fun p => pageSelection p = ∅ /\ lastSelectedIndex p = None
                        /\ pageOrder p = seq 0 (pageCount p)) added.
Proof.
  revert newPdfs st. induction files as [|file files IH]; intros newPdfs st.
  - cbn. exists []. rewrite app_nil_r. split_and!; [reflexivity | reflexivity | constructor].
  - cbn [foldl]. unfold loadOne at 2.
    destruct (cand_isPdf file) eqn:Hpdf; cbn [negb].
    + destruct (cand_pages file) as [n|] eqn:Hpages.
      * specialize (IH (newPdfs ++ [{| id := nextId st; name := cand_name file;
                            pageCount := n; pageSelection := ∅;
                            lastSelectedIndex := None; pageOrder := seq 0 n |}])
                       (st <| nextId := S (nextId st) |>)).
        destruct (foldl loadOne _ files) as [newPdfs' st'].
        destruct IH as (added & -> & Hnames & Hall).
        eexists (_ :: added). split_and!.
        -- rewrite <- app_assoc. reflexivity.
        -- cbn. rewrite Hpdf, Hpages. cbn. rewrite Hnames. reflexivity.
        -- constructor; [cbn; split_and!; reflexivity | exact Hall].
      * specialize (IH newPdfs
          (st <| errorMessage := ("Unable to read " +:+ cand_name file +:+ ".")%string |>)).
        destruct (foldl loadOne _ files) as [newPdfs' st'].
        destruct IH as (added & -> & Hnames & Hall).
        exists added. split_and!; [reflexivity | | exact Hall].
        cbn. rewrite Hpdf, Hpages. exact Hnames.
    + specialize (IH newPdfs
        (st <| errorMessage := ("Skipped " +:+ cand_name file +:+ " (not a PDF).")%string |>)).
      destruct (foldl loadOne _ files) as [newPdfs' st'].
      destruct IH as (added & -> & Hnames & Hall).
      exists added. split_and!; [reflexivity | | exact Hall].
      cbn. rewrite Hpdf. exact Hnames.
Qed.

End Moves.

(** X1.  In every state the user can reach, [movePage] with two different
    positions of the grid patches the document it was called for and no
    other: the page that stood at [fromPos] stands at [toPos] afterwards,
    and the pages around it keep their order. *)
Theorem moved_page_lands
    (w : Browser.World) (actions : list PdfToolkit.Action)
    (index : nat) (pdf : PdfToolkit.LoadedPdf) (fromPos toPos page : nat) :
  let st := PdfToolkit.run actions (PdfToolkit.initial w) in
  PdfToolkit.pdfFiles st !! index = Some pdf ->
  PdfToolkit.pageOrder pdf !! fromPos = Some page ->
  (toPos < length (PdfToolkit.pageOrder pdf))%nat ->
  fromPos <> toPos ->
  exists order',
    PdfToolkit.pdfFiles
      (PdfToolkit.movePage pdf (Z.of_nat fromPos) (Z.of_nat toPos) st)
    = <[index := pdf <| PdfToolkit.pageOrder := order' |>]> (PdfToolkit.pdfFiles st)
    /\ order' !! toPos = Some page
    /\ delete toPos order' = delete fromPos (PdfToolkit.pageOrder pdf).
Proof.
  intros st Hi Hpage Hto Hne.
  apply movePage_lands; try assumption.
  apply run_ok, initial_ok.
Qed.

Lemma moved_page_lands_witness :
  let st := PdfToolkit.run three_pages (PdfToolkit.initial Browser.freshWorld) in
  exists pdf order',
    PdfToolkit.pdfFiles st !! 0%nat = Some pdf
    /\ PdfToolkit.pageOrder pdf = [2; 0; 1]%nat
    /\ PdfToolkit.pdfFiles (PdfToolkit.movePage pdf 0 2 st)
       = <[0%nat := pdf <| PdfToolkit.pageOrder := order' |>]> (PdfToolkit.pdfFiles st)
    /\ order' !! 2%nat = Some 2%nat
    /\ delete 2%nat order' = [0; 1]%nat.
Proof.
  intros st.
  destruct (PdfToolkit.pdfFiles st !! 0%nat) as [pdf|] eqn:Hi;
    [|vm_compute in Hi; discriminate].
  assert (Hord : PdfToolkit.pageOrder pdf = [2; 0; 1]%nat)
    by (vm_compute in Hi; injection Hi as <-; reflexivity).
  assert (Hpage : PdfToolkit.pageOrder pdf !! 0%nat = Some 2%nat)
    by (rewrite Hord; reflexivity).
  assert (Hto : (2 < length (PdfToolkit.pageOrder pdf))%nat)
    by (rewrite Hord; cbn; lia).
  destruct (moved_page_lands Browser.freshWorld three_pages 0 pdf 0 2 2 Hi Hpage Hto)
    as (order' & Hfiles & Hland & Hrest); [lia|].
  exists pdf, order'. split; [reflexivity|]. split; [exact Hord|].
  split; [exact Hfiles|]. split; [exact Hland|].
  rewrite Hrest, Hord. reflexivity.
Defined.

(** X2.  [moveImage] with two different positions of the list puts the
    image that stood at [fromPos] at [toPos] and keeps the order of the
    other images. *)
Theorem moved_image_lands
    (st : PdfToolkit.State) (fromPos toPos : nat) (asset : PdfToolkit.ImageAsset) :
  PdfToolkit.imageAssets st !! fromPos = Some asset ->
  (toPos < length (PdfToolkit.imageAssets st))%nat ->
  fromPos <> toPos ->
  let st' := PdfToolkit.moveImage (Z.of_nat fromPos) (Z.of_nat toPos) st in
  PdfToolkit.imageAssets st' !! toPos = Some asset
  /\ delete toPos (PdfToolkit.imageAssets st') = delete fromPos (PdfToolkit.imageAssets st).
Proof. intros Hasset Hto Hne st'. apply moveImage_lands; assumption. Qed.

Lemma moved_image_lands_witness :
  PdfToolkit.asset_name
  <$> PdfToolkit.imageAssets (PdfToolkit.moveImage 2 0 three_images) !! 0%nat
  = Some "c.png"%string
  /\ delete 0%nat (PdfToolkit.imageAssets (PdfToolkit.moveImage 2 0 three_images))
     = delete 2%nat (PdfToolkit.imageAssets three_images).
Proof.
  destruct (moved_image_lands three_images 2 0
              {| PdfToolkit.asset_id := 2; PdfToolkit.asset_name := "c.png";
                 PdfToolkit.asset_size := 30; PdfToolkit.asset_width := 5;
                 PdfToolkit.asset_height := 5 |})
    as [Hland Hrest]; [reflexivity | cbn; lia | lia |].
  split; [|exact Hrest].
  change (Z.of_nat 2) with 2 in Hland. change (Z.of_nat 0) with 0 in Hland.
  rewrite Hland. reflexivity.
Defined.

(** X3.  [movePdf] with a step of one to either side, called for a
    document of the list whose neighbour on that side exists, exchanges
    the two documents and leaves every other document where it is. *)
Theorem moved_document_swaps
    (st : PdfToolkit.State) (index : nat) (direction : Z) (pdf : PdfToolkit.LoadedPdf) :
  PdfToolkit.pdfFiles st !! index = Some pdf ->
  direction = 1 \/ direction = -1 ->
  0 <= Z.of_nat index + direction < Z.of_nat (length (PdfToolkit.pdfFiles st)) ->
  let target := Z.to_nat (Z.of_nat index + direction) in
  let st' := PdfToolkit.movePdf (Z.of_nat index) direction st in
  PdfToolkit.pdfFiles st' !! target = Some pdf
  /\ PdfToolkit.pdfFiles st' !! index = PdfToolkit.pdfFiles st !! target
  /\ forall k, k <> index -> k <> target ->
       PdfToolkit.pdfFiles st' !! k = PdfToolkit.pdfFiles st !! k.
Proof.
  intros Hi Hdir Hrange target st'.
  destruct (movePdf_lands st index direction pdf Hi Hrange) as (Hland & Hrest & Hlen).
  split; [exact Hland|].
  apply reinsert_neighbours; try assumption.
  - eapply lookup_lt_Some, Hi.
  - subst target. lia.
  - subst target. lia.
Qed.

Lemma moved_document_swaps_witness :
  let st := PdfToolkit.run two_documents (PdfToolkit.initial Browser.freshWorld) in
  exists pdf,
    PdfToolkit.pdfFiles st !! 0%nat = Some pdf
    /\ PdfToolkit.name pdf = "cover.pdf"%string
    /\ PdfToolkit.pdfFiles (PdfToolkit.movePdf 0 1 st) !! 1%nat = Some pdf
    /\ PdfToolkit.pdfFiles (PdfToolkit.movePdf 0 1 st) !! 0%nat
       = PdfToolkit.pdfFiles st !! 1%nat.
Proof.
  intros st.
  destruct (PdfToolkit.pdfFiles st !! 0%nat) as [pdf|] eqn:Hi;
    [|vm_compute in Hi; discriminate].
  assert (Hname : PdfToolkit.name pdf = "cover.pdf"%string)
    by (vm_compute in Hi; injection Hi as <-; reflexivity).
  assert (Hlen : length (PdfToolkit.pdfFiles st) = 2%nat) by (vm_compute; reflexivity).
  destruct (moved_document_swaps st 0 1 pdf Hi (or_introl eq_refl))
    as (Hland & Hswap & _); [rewrite Hlen; lia|].
  exists pdf. split; [reflexivity|]. split; [exact Hname|].
  split; [exact Hland | exact Hswap].
Defined.

(** ** Exporting, merging, selecting *)
Section Documents.
Import Browser PdfToolkit.

Lemma exportSelectedPages_saved (pdf : LoadedPdf) (st : State) :
  pdf_ok pdf -> pageSelection pdf <> ∅ ->
  let inOrder := filter (fun idx => idx ∈ pageSelection pdf) (pageOrder pdf) in
  let st' := exportSelectedPages true pdf st in
  saved st' = saved st ++ [(exportName pdf inOrder (addPrivateSuffix st), Copied <$> inOrder)]
  /\ pdfFiles st' = pdfFiles st
  /\ errorMessage st' = ""%string
  /\ processing st' = false.
Proof.
  intros Hok Hsel inOrder st'.
  assert (Hsize : size (pageSelection pdf) <> 0%nat)
    by (intros H; apply size_empty_inv in H; apply Hsel, leibniz_equiv, H).
  assert (Hlen : length inOrder = size (pageSelection pdf)) by (apply selected_count, Hok).
  assert (Hcopy : copyPages (pageCount pdf) inOrder = Some (Copied <$> inOrder)).
  { apply copyPages_valid. intros i Hi. destruct Hok as (_ & Hin & _).
    apply Hin. apply list_elem_of_filter in Hi as [Hi _]. exact Hi. }
  subst st'. unfold exportSelectedPages.
  destruct (Nat.eqb_spec (size (pageSelection pdf)) 0); [contradiction|].
  fold inOrder. rewrite Hcopy.
  assert (Hsave : save (Copied <$> inOrder) = Copied <$> inOrder).
  { destruct inOrder as [|i rest]; [cbn in Hlen; lia | reflexivity]. }
  rewrite Hsave. destruct st; cbn; unfold constant. split_and!; reflexivity.
Qed.

Lemma mergePdfs_saved (st : State) :
  Forall pdf_ok (pdfFiles st) -> (2 <= length (pdfFiles st))%nat ->
  let st' := mergePdfs (fun _ => true) st in
  saved st' = saved st ++ [(mergedName (pdfFiles st) (addPrivateSuffix st),
                            save (Copied <$> concat (mergeOrder <$> pdfFiles st)))]
  /\ pdfFiles st' = pdfFiles st
  /\ errorMessage st' = ""%string
  /\ processing st' = false.
Proof.
  intros Hok Hlen st'. subst st'. unfold mergePdfs.
  destruct (Nat.ltb_spec (length (pdfFiles st)) 2); [lia|].
  destruct st as [files ? ? ? ? ? ? ? ? ? ?]; cbn in *; unfold constant.
  rewrite mergeLoop_all; [|exact Hok|apply Forall_forall; reflexivity].
  cbn. split_and!; reflexivity.
Qed.

Lemma mergePdfs_refused (srcLoads : LoadedPdf -> bool) (st : State) :
  (length (pdfFiles st) < 2)%nat ->
  mergePdfs srcLoads st = st <| errorMessage := "Add at least two PDFs to merge." |>.
Proof.
  intros Hlen. unfold mergePdfs.
  destruct (Nat.ltb_spec (length (pdfFiles st)) 2); [reflexivity | lia].
Qed.

(** What [setPageSelection] does to the list in a state whose ids differ. *)
Lemma setPageSelection_lookup (st : State) (index : nat) (pdf : LoadedPdf)
    (next : gset nat) (last : option nat) :
  NoDup (id <$> pdfFiles st) -> pdfFiles st !! index = Some pdf ->
  let pdf1 := pdf <| pageSelection := next |> <| lastSelectedIndex := last |> in
  let st1 := setPageSelection pdf next last st in
  pdfFiles st1 = <[index := pdf1]> (pdfFiles st)
  /\ pdfFiles st1 !! index = Some pdf1
  /\ NoDup (id <$> pdfFiles st1).
Proof.
  intros Hnd Hi pdf1 st1.
  assert (Hfiles : pdfFiles st1 = <[index := pdf1]> (pdfFiles st)).
  { subst st1. unfold setPageSelection.
    rewrite (replacePdfById_insert st index pdf _ Hnd Hi). destruct st; reflexivity. }
  split; [exact Hfiles|]. rewrite Hfiles. split.
  - apply list_lookup_insert_eq. eapply lookup_lt_Some, Hi.
  - rewrite list_fmap_insert.
    replace (id pdf1) with (id pdf) by (destruct pdf; reflexivity).
    rewrite list_insert_id; [exact Hnd|].
    rewrite list_lookup_fmap, Hi. reflexivity.
Qed.

Lemma size_addRange_all (n : nat) : size (addRange 0 n ∅) = n.
Proof.
  assert (H : addRange 0 n ∅ = list_to_set (seq 0 n)).
  { apply set_eq. intros i. rewrite elem_of_addRange, elem_of_list_to_set, elem_of_seq.
    set_solver by lia. }
  rewrite H, size_list_to_set by apply NoDup_seq. apply length_seq.
Qed.

Lemma size_within (sel : gset nat) (n : nat) :
  (forall i, i ∈ sel -> (i < n)%nat) -> size sel = n ->
  forall i, (i < n)%nat -> i ∈ sel.
Proof.
  intros Hin Hsize i Hi.
  assert (Hsub : sel ⊆ list_to_set (seq 0 n)).
  { intros k Hk. rewrite elem_of_list_to_set, elem_of_seq. specialize (Hin k Hk). lia. }
  assert (Hall : size (list_to_set (seq 0 n) : gset nat) = n)
    by (rewrite size_list_to_set by apply NoDup_seq; apply length_seq).
  destruct (decide (i ∈ sel)) as [H|H]; [exact H|]. exfalso.
  assert (Hsub2 : sel ⊆ list_to_set (seq 0 n) ∖ {[i]}) by set_solver.
  apply subseteq_size in Hsub2.
  assert (Hi' : i ∈ (list_to_set (seq 0 n) : gset nat))
    by (rewrite elem_of_list_to_set, elem_of_seq; lia).
  pose proof (size_difference (list_to_set (seq 0 n) : gset nat) {[i]}) as Hd.
  rewrite size_singleton in Hd.
  assert ({[i]} ⊆ (list_to_set (seq 0 n) : gset nat)) as Hs by set_solver.
  specialize (Hd Hs). lia.
Qed.

End Documents.

(** X4.  In every state the user can reach, exporting the selected pages of
    a document that has a selection hands over one file that holds exactly
    the selected pages, each once, in the order of the grid; their number
    is the size of the selection, and the list of documents is as before. *)
Theorem exported_pages_are_selection
    (w : Browser.World) (actions : list PdfToolkit.Action)
    (index : nat) (pdf : PdfToolkit.LoadedPdf) :
  let st := PdfToolkit.run actions (PdfToolkit.initial w) in
  PdfToolkit.pdfFiles st !! index = Some pdf ->
  PdfToolkit.pageSelection pdf <> ∅ ->
  let st' := PdfToolkit.exportSelectedPages true pdf st in
  exists fileName inOrder,
    PdfToolkit.saved st'
    = PdfToolkit.saved st ++ [(fileName, PdfToolkit.Copied <$> inOrder)]
    /\ inOrder = filter (fun i => i ∈ PdfToolkit.pageSelection pdf) (PdfToolkit.pageOrder pdf)
    /\ NoDup inOrder
    /\ (forall i, i ∈ inOrder <-> i ∈ PdfToolkit.pageSelection pdf)
    /\ length inOrder = size (PdfToolkit.pageSelection pdf)
    /\ PdfToolkit.pdfFiles st' = PdfToolkit.pdfFiles st.
Proof.
  intros st Hi Hsel st'.
  destruct (run_ok actions _ (initial_ok w)) as (Hall & _ & _).
  pose proof (Forall_lookup_1 _ _ _ _ Hall Hi) as Hok.
  destruct (exportSelectedPages_saved pdf st Hok Hsel) as (Hsaved & Hfiles & _ & _).
  eexists _, _. split; [exact Hsaved|]. split; [reflexivity|].
  destruct Hok as (Hperm & Hin & Hlast).
  split_and!.
  - apply NoDup_filter. rewrite Hperm. apply NoDup_seq.
  - intros i. rewrite list_elem_of_filter. split; [intros [H _]; exact H|].
    intros H. split; [exact H|]. rewrite Hperm. apply elem_of_seq.
    specialize (Hin i H). lia.
  - apply selected_count. split_and!; assumption.
  - exact Hfiles.
Qed.

Lemma exported_pages_are_selection_witness :
  let st := PdfToolkit.run five_pages (PdfToolkit.initial Browser.freshWorld) in
  exists pdf fileName,
    PdfToolkit.pdfFiles st !! 0%nat = Some pdf
    /\ PdfToolkit.pageOrder pdf = [4; 0; 1; 2; 3]%nat
    /\ PdfToolkit.saved (PdfToolkit.exportSelectedPages true pdf st)
       = [(fileName, PdfToolkit.Copied <$> [1; 2; 3]%nat)].
Proof.
  intros st.
  destruct (PdfToolkit.pdfFiles st !! 0%nat) as [pdf|] eqn:Hi;
    [|vm_compute in Hi; discriminate].
  assert (Hord : PdfToolkit.pageOrder pdf = [4; 0; 1; 2; 3]%nat)
    by (vm_compute in Hi; injection Hi as <-; reflexivity).
  assert (Hsel : PdfToolkit.pageSelection pdf = {[1; 2; 3]}%nat)
    by (vm_compute in Hi; injection Hi as <-; reflexivity).
  destruct (exported_pages_are_selection Browser.freshWorld five_pages 0 pdf Hi)
    as (fileName & inOrder & Hsaved & -> & _).
  { rewrite Hsel. intros H. apply (f_equal (fun s : gset nat => bool_decide (1%nat ∈ s))) in H.
    vm_compute in H. discriminate H. }
  exists pdf, fileName. split; [reflexivity|]. split; [exact Hord|].
  etransitivity; [exact Hsaved|]. rewrite Hord, Hsel. reflexivity.
Defined.

(** X5.  [mergePdfs] on fewer than two documents only sets the error
    message.  In every state the user can reach with two documents or
    more, all of which the library reads, it hands over one file: the
    documents follow each other in the order of the list, each gives its
    selected pages in the order of its grid, or all its pages when it has
    no selection, and the page counts add up (when no page is taken at
    all, the library writes one blank page). *)
Theorem merged_pages
    (w : Browser.World) (actions : list PdfToolkit.Action) :
  let st := PdfToolkit.run actions (PdfToolkit.initial w) in
  (forall srcLoads,
      (length (PdfToolkit.pdfFiles st) < 2)%nat ->
      PdfToolkit.mergePdfs srcLoads st
      = st <| PdfToolkit.errorMessage := "Add at least two PDFs to merge." |>)
  /\ ((2 <= length (PdfToolkit.pdfFiles st))%nat ->
      let st' := PdfToolkit.mergePdfs (fun _ => true) st in
      let taken := concat (PdfToolkit.mergeOrder <$> PdfToolkit.pdfFiles st) in
      exists fileName,
        PdfToolkit.saved st'
        = PdfToolkit.saved st ++ [(fileName, PdfToolkit.save (PdfToolkit.Copied <$> taken))]
        /\ length taken = sum_list (PdfToolkit.pagesTaken <$> PdfToolkit.pdfFiles st)
        /\ (taken <> [] ->
            PdfToolkit.save (PdfToolkit.Copied <$> taken) = PdfToolkit.Copied <$> taken)
        /\ PdfToolkit.pdfFiles st' = PdfToolkit.pdfFiles st
        /\ PdfToolkit.errorMessage st' = ""%string).
Proof.
  intros st. split.
  - intros srcLoads. apply mergePdfs_refused.
  - intros Hlen st' taken.
    destruct (run_ok actions _ (initial_ok w)) as (Hall & _ & _).
    destruct (mergePdfs_saved st Hall Hlen) as (Hsaved & Hfiles & Herr & _).
    eexists. split; [exact Hsaved|]. split; [apply concat_mergeOrder_count, Hall|].
    split; [|split; assumption].
    intros Hne. subst taken. destruct (concat _); [contradiction | reflexivity].
Qed.

Lemma merged_pages_witness :
  let st := PdfToolkit.run two_documents (PdfToolkit.initial Browser.freshWorld) in
  exists fileName,
    PdfToolkit.saved (PdfToolkit.mergePdfs (fun _ => true) st)
    = [(fileName, PdfToolkit.Copied <$> [0; 1; 0]%nat)].
Proof.
  intros st.
  destruct (merged_pages Browser.freshWorld two_documents) as [_ H].
  destruct H as (fileName & Hsaved & _); [vm_compute; lia|].
  exists fileName. etransitivity; [exact Hsaved|]. vm_compute. reflexivity.
Defined.

(** X6.  In every state the user can reach, two clicks without the shift
    key on the same page of a document give the document its selection
    back: the first click takes the page out when it was selected and puts
    it in when it was not, the second click undoes that; the page order is
    not touched, and the page is the last one clicked. *)
Theorem two_clicks_restore_selection
    (w : Browser.World) (actions : list PdfToolkit.Action)
    (index : nat) (pdf : PdfToolkit.LoadedPdf) (pageIndex : nat) :
  let st := PdfToolkit.run actions (PdfToolkit.initial w) in
  PdfToolkit.pdfFiles st !! index = Some pdf ->
  let st1 := PdfToolkit.togglePageSelection pdf pageIndex false st in
  exists pdf1,
    PdfToolkit.pdfFiles st1 !! index = Some pdf1
    /\ (pageIndex ∈ PdfToolkit.pageSelection pdf1
        <-> ~ pageIndex ∈ PdfToolkit.pageSelection pdf)
    /\ exists pdf2,
         PdfToolkit.pdfFiles (PdfToolkit.togglePageSelection pdf1 pageIndex false st1)
           !! index = Some pdf2
         /\ PdfToolkit.pageSelection pdf2 = PdfToolkit.pageSelection pdf
         /\ PdfToolkit.pageOrder pdf2 = PdfToolkit.pageOrder pdf
         /\ PdfToolkit.lastSelectedIndex pdf2 = Some pageIndex.
Proof.
  intros st Hi st1.
  destruct (run_ok actions _ (initial_ok w)) as (_ & Hnd & _).
  set (next1 := if bool_decide (pageIndex ∈ PdfToolkit.pageSelection pdf)
                then PdfToolkit.pageSelection pdf ∖ {[pageIndex]}
                else {[pageIndex]} ∪ PdfToolkit.pageSelection pdf).
  set (pdf1 := pdf <| PdfToolkit.pageSelection := next1 |>
                   <| PdfToolkit.lastSelectedIndex := Some pageIndex |>).
  destruct (setPageSelection_lookup st index pdf next1 (Some pageIndex) Hnd Hi)
    as (_ & Hi1 & Hnd1).
  assert (Hsel1 : PdfToolkit.pageSelection pdf1 = next1)
    by (subst pdf1; destruct pdf; reflexivity).
  exists pdf1. split; [exact Hi1|]. split.
  { rewrite Hsel1. subst next1. case_bool_decide; set_solver. }
  set (next2 := if bool_decide (pageIndex ∈ next1)
                then next1 ∖ {[pageIndex]} else {[pageIndex]} ∪ next1).
  destruct (setPageSelection_lookup
              (PdfToolkit.setPageSelection pdf next1 (Some pageIndex) st)
              index pdf1 next2 (Some pageIndex) Hnd1 Hi1) as (_ & Hi2 & _).
  eexists. split.
  { unfold PdfToolkit.togglePageSelection at 1. rewrite Hsel1. exact Hi2. }
  split_and!;
    [|subst pdf1; destruct pdf; reflexivity | subst pdf1; destruct pdf; reflexivity].
  transitivity next2; [subst pdf1; destruct pdf; reflexivity|].
  apply (toggle_twice (PdfToolkit.pageSelection pdf) pageIndex).
Qed.

Lemma two_clicks_restore_selection_witness :
  let st := PdfToolkit.run five_pages (PdfToolkit.initial Browser.freshWorld) in
  exists pdf pdf1 pdf2,
    PdfToolkit.pdfFiles st !! 0%nat = Some pdf
    /\ PdfToolkit.pdfFiles (PdfToolkit.togglePageSelection pdf 2 false st) !! 0%nat
       = Some pdf1
    /\ PdfToolkit.pdfFiles
         (PdfToolkit.togglePageSelection pdf1 2 false
            (PdfToolkit.togglePageSelection pdf 2 false st)) !! 0%nat
       = Some pdf2
    /\ PdfToolkit.pageSelection pdf2 = PdfToolkit.pageSelection pdf.
Proof.
  intros st.
  destruct (PdfToolkit.pdfFiles st !! 0%nat) as [pdf|] eqn:Hi;
    [|vm_compute in Hi; discriminate].
  destruct (two_clicks_restore_selection Browser.freshWorld five_pages 0 pdf 2 Hi)
    as (pdf1 & Hi1 & _ & pdf2 & Hi2 & Hsel & _).
  exists pdf, pdf1, pdf2. split; [reflexivity|]. split; [exact Hi1|].
  split; [exact Hi2 | exact Hsel].
Defined.

(** X7.  In every state the user can reach, a click with the shift key on
    a document that has a last clicked page adds the pages between that
    page and the clicked one, both included, and takes no page out of the
    selection; without a last clicked page it acts as a click without the
    shift key. *)
Theorem shift_click_adds_range
    (w : Browser.World) (actions : list PdfToolkit.Action)
    (index : nat) (pdf : PdfToolkit.LoadedPdf) (pageIndex : nat) :
  let st := PdfToolkit.run actions (PdfToolkit.initial w) in
  PdfToolkit.pdfFiles st !! index = Some pdf ->
  (forall last,
      PdfToolkit.lastSelectedIndex pdf = Some last ->
      exists pdf1,
        PdfToolkit.pdfFiles (PdfToolkit.togglePageSelection pdf pageIndex true st) !! index
        = Some pdf1
        /\ (forall k, k ∈ PdfToolkit.pageSelection pdf1
                      <-> k ∈ PdfToolkit.pageSelection pdf
                          \/ (Nat.min last pageIndex <= k <= Nat.max last pageIndex)%nat)
        /\ PdfToolkit.lastSelectedIndex pdf1 = Some pageIndex)
  /\ (PdfToolkit.lastSelectedIndex pdf = None ->
      PdfToolkit.togglePageSelection pdf pageIndex true st
      = PdfToolkit.togglePageSelection pdf pageIndex false st).
Proof.
  intros st Hi. split.
  - intros last Hlast.
    destruct (run_ok actions _ (initial_ok w)) as (_ & Hnd & _).
    destruct (setPageSelection_lookup st index pdf
                (PdfToolkit.addRange (Nat.min last pageIndex) (S (Nat.max last pageIndex))
                   (PdfToolkit.pageSelection pdf))
                (Some pageIndex) Hnd Hi) as (_ & Hi1 & _).
    eexists. split.
    + unfold PdfToolkit.togglePageSelection. rewrite Hlast. exact Hi1.
    + split; [|destruct pdf; reflexivity].
      intros k. destruct pdf as [? ? ? sel ? ?]; cbn. unfold constant.
      rewrite elem_of_addRange. intuition lia.
  - intros Hnone. unfold PdfToolkit.togglePageSelection. rewrite Hnone. reflexivity.
Qed.

Lemma shift_click_adds_range_witness :
  let st := PdfToolkit.run five_pages (PdfToolkit.initial Browser.freshWorld) in
  exists pdf pdf1,
    PdfToolkit.pdfFiles st !! 0%nat = Some pdf
    /\ PdfToolkit.lastSelectedIndex pdf = Some 3%nat
    /\ PdfToolkit.pdfFiles (PdfToolkit.togglePageSelection pdf 0 true st) !! 0%nat
       = Some pdf1
    /\ 0%nat ∈ PdfToolkit.pageSelection pdf1.
Proof.
  intros st.
  destruct (PdfToolkit.pdfFiles st !! 0%nat) as [pdf|] eqn:Hi;
    [|vm_compute in Hi; discriminate].
  assert (Hlast : PdfToolkit.lastSelectedIndex pdf = Some 3%nat)
    by (vm_compute in Hi; injection Hi as <-; reflexivity).
  destruct (shift_click_adds_range Browser.freshWorld five_pages 0 pdf 0 Hi) as [H _].
  destruct (H 3%nat Hlast) as (pdf1 & Hi1 & Hsel & _).
  exists pdf, pdf1. split; [reflexivity|]. split; [exact Hlast|]. split; [exact Hi1|].
  apply Hsel. right. cbn. lia.
Defined.

(** X8.  [loadPdfFiles] leaves the documents of the list in their places
    and puts the new ones behind them: one document for every file that
    passes for a PDF and that the library reads, in the order of the
    files, with the name of the file, the page count the library reports,
    no selection and the pages in their own order.  The status message
    counts the new documents. *)
Theorem loaded_documents_appended
    (files : list PdfToolkit.Candidate) (st : PdfToolkit.State) :
  exists added,
    PdfToolkit.pdfFiles (PdfToolkit.loadPdfFiles files st)
    = PdfToolkit.pdfFiles st ++ added
    /\ (fun p => (PdfToolkit.name p, PdfToolkit.pageCount p)) <$> added
       = omap (fun c => if PdfToolkit.cand_isPdf c
                        then (fun n => (PdfToolkit.cand_name c, n))
                             <$> PdfToolkit.cand_pages c
                        else None) files
    /\ Forall (fun p => PdfToolkit.pageSelection p = ∅
                        /\ PdfToolkit.lastSelectedIndex p = None
                        /\ PdfToolkit.pageOrder p = seq 0 (PdfToolkit.pageCount p)) added
    /\ PdfToolkit.statusMessage (PdfToolkit.loadPdfFiles files st)
       = ("Loaded " +:+ JS.decimal (Z.of_nat (length added)) +:+ " PDF"
          +:+ PdfToolkit.plural (length added) +:+ ".")%string.
Proof.
  unfold PdfToolkit.loadPdfFiles.
  pose proof (foldl_loadOne files [] st) as Hkeep.
  pose proof (foldl_loadOne_added files [] st) as Hadded.
  destruct (foldl PdfToolkit.loadOne ([], st) files) as [newPdfs st'].
  destruct Hkeep as (Hfiles & _).
  destruct Hadded as (added & -> & Hnames & Hall).
  exists added. destruct st'; cbn in *; unfold constant. subst.
  split_and!; [reflexivity | exact Hnames | exact Hall | reflexivity].
Qed.

(** X9.  In every state the user can reach, [replacePdfById] called with
    the id of a document of the list patches the document at that place
    and leaves the list as it is everywhere else; an id that no call of
    [randomUUID] has given out yet changes nothing. *)
Theorem patch_reaches_one_document
    (w : Browser.World) (actions : list PdfToolkit.Action)
    (patch : PdfToolkit.LoadedPdf -> PdfToolkit.LoadedPdf) :
  let st := PdfToolkit.run actions (PdfToolkit.initial w) in
  (forall index pdf,
      PdfToolkit.pdfFiles st !! index = Some pdf ->
      PdfToolkit.replacePdfById (PdfToolkit.id pdf) patch st
      = st <| PdfToolkit.pdfFiles := <[index := patch pdf]> (PdfToolkit.pdfFiles st) |>)
  /\ (forall i, (PdfToolkit.nextId st <= i)%nat ->
                PdfToolkit.replacePdfById i patch st = st).
Proof.
  intros st. destruct (run_ok actions _ (initial_ok w)) as (_ & Hnd & Hids).
  split.
  - intros index pdf Hi. apply replacePdfById_insert; assumption.
  - intros i Hi. unfold PdfToolkit.replacePdfById, PdfToolkit.findIndexById.
    destruct (list_find _ _) as [[idx p]|] eqn:Hfind; [|reflexivity].
    apply list_find_Some in Hfind as (Hidx & Hp & _).
    apply list_elem_of_lookup_2 in Hidx. apply Hids in Hidx. fold st in Hidx. lia.
Qed.

Lemma patch_reaches_one_document_witness :
  let st := PdfToolkit.run two_documents (PdfToolkit.initial Browser.freshWorld) in
  exists pdf,
    PdfToolkit.pdfFiles st !! 1%nat = Some pdf
    /\ PdfToolkit.name
       <$> PdfToolkit.pdfFiles
             (PdfToolkit.replacePdfById (PdfToolkit.id pdf)
                (fun p => p <| PdfToolkit.name := "renamed.pdf" |>) st)
       = ["cover.pdf"; "renamed.pdf"]%string.
Proof.
  intros st.
  destruct (PdfToolkit.pdfFiles st !! 1%nat) as [pdf|] eqn:Hi;
    [|vm_compute in Hi; discriminate].
  destruct (patch_reaches_one_document Browser.freshWorld two_documents
              (fun p => p <| PdfToolkit.name := "renamed.pdf" |>)) as [H _].
  exists pdf. split; [reflexivity|].
  fold st in H. rewrite (H 1%nat pdf Hi). vm_compute. reflexivity.
Defined.

(** X10.  In every state the user can reach, the key "a" on the grid of a
    document turns a full selection into an empty one and every other
    selection into the full one. *)
Theorem grid_key_selects_or_clears
    (w : Browser.World) (actions : list PdfToolkit.Action)
    (index : nat) (pdf : PdfToolkit.LoadedPdf) :
  let st := PdfToolkit.run actions (PdfToolkit.initial w) in
  PdfToolkit.pdfFiles st !! index = Some pdf ->
  exists pdf1,
    PdfToolkit.pdfFiles (PdfToolkit.onPageGridKeydown pdf "a" st) !! index = Some pdf1
    /\ PdfToolkit.pageOrder pdf1 = PdfToolkit.pageOrder pdf
    /\ ((forall i, (i < PdfToolkit.pageCount pdf)%nat -> i ∈ PdfToolkit.pageSelection pdf)
        -> PdfToolkit.pageSelection pdf1 = ∅)
    /\ (~ (forall i, (i < PdfToolkit.pageCount pdf)%nat -> i ∈ PdfToolkit.pageSelection pdf)
        -> forall i, i ∈ PdfToolkit.pageSelection pdf1 <-> (i < PdfToolkit.pageCount pdf)%nat).
Proof.
  intros st Hi.
  destruct (run_ok actions _ (initial_ok w)) as (Hall & Hnd & _).
  destruct (Forall_lookup_1 _ _ _ _ Hall Hi) as (_ & Hin & _).
  unfold PdfToolkit.onPageGridKeydown. cbn [String.eqb Ascii.eqb orb].
  change (("a" =? "a")%string) with true. cbn [orb].
  destruct (Nat.eqb_spec (size (PdfToolkit.pageSelection pdf)) (PdfToolkit.pageCount pdf))
    as [Hfull|Hpart].
  - destruct (setPageSelection_lookup st index pdf ∅ None Hnd Hi) as (_ & Hi1 & _).
    eexists. split; [exact Hi1|]. split; [destruct pdf; reflexivity|].
    split; [intros _; destruct pdf; reflexivity|].
    intros Hnot. exfalso. apply Hnot. apply size_within; assumption.
  - destruct (setPageSelection_lookup st index pdf
                (PdfToolkit.addRange 0 (PdfToolkit.pageCount pdf) ∅)
                (PdfToolkit.lastSelectedIndex pdf) Hnd Hi) as (_ & Hi1 & _).
    eexists. split; [exact Hi1|]. split; [destruct pdf; reflexivity|].
    split.
    + intros Hevery. exfalso. apply Hpart.
      assert (Heq : PdfToolkit.pageSelection pdf
                    = list_to_set (seq 0 (PdfToolkit.pageCount pdf))).
      { apply set_eq. intros i. rewrite elem_of_list_to_set, elem_of_seq.
        split; [intros H; specialize (Hin i H); lia | intros H; apply Hevery; lia]. }
      rewrite Heq, size_list_to_set by apply NoDup_seq. apply length_seq.
    + intros _ i.
      replace (PdfToolkit.pageSelection _)
        with (PdfToolkit.addRange 0 (PdfToolkit.pageCount pdf) ∅)
        by (destruct pdf; reflexivity).
      rewrite elem_of_addRange. set_solver by lia.
Qed.

Lemma grid_key_selects_or_clears_witness :
  let st := PdfToolkit.run five_pages (PdfToolkit.initial Browser.freshWorld) in
  exists pdf pdf1,
    PdfToolkit.pdfFiles st !! 0%nat = Some pdf
    /\ PdfToolkit.pdfFiles (PdfToolkit.onPageGridKeydown pdf "a" st) !! 0%nat = Some pdf1
    /\ 4%nat ∈ PdfToolkit.pageSelection pdf1.
Proof.
  intros st.
  destruct (PdfToolkit.pdfFiles st !! 0%nat) as [pdf|] eqn:Hi;
    [|vm_compute in Hi; discriminate].
  assert (Hsel : PdfToolkit.pageSelection pdf = {[1; 2; 3]}%nat)
    by (vm_compute in Hi; injection Hi as <-; reflexivity).
  assert (Hcount : PdfToolkit.pageCount pdf = 5%nat)
    by (vm_compute in Hi; injection Hi as <-; reflexivity).
  destruct (grid_key_selects_or_clears Browser.freshWorld five_pages 0 pdf Hi)
    as (pdf1 & Hi1 & _ & _ & Hall).
  exists pdf, pdf1. split; [reflexivity|]. split; [exact Hi1|].
  apply Hall; [|rewrite Hcount; lia].
  intros H. specialize (H 0%nat). rewrite Hcount, Hsel in H.
  assert (H0 : 0%nat ∈ ({[1%nat; 2%nat; 3%nat]} : gset nat)) by (apply H; lia).
  set_solver.
Defined.

(** X11.  In every state the user can reach, [movePageStep] with a step of
    one to either side, for a cell of the grid whose neighbour on that
    side exists, exchanges the two pages and leaves every other page and
    every other document where it is; [moveImageStep] does the same to
    the list of images. *)
Theorem step_swaps_neighbours :
  (forall (w : Browser.World) (actions : list PdfToolkit.Action)
          (index : nat) (pdf : PdfToolkit.LoadedPdf) (pos : nat) (dir : Z),
      let st := PdfToolkit.run actions (PdfToolkit.initial w) in
      PdfToolkit.pdfFiles st !! index = Some pdf ->
      (pos < length (PdfToolkit.pageOrder pdf))%nat ->
      dir = 1 \/ dir = -1 ->
      0 <= Z.of_nat pos + dir < Z.of_nat (length (PdfToolkit.pageOrder pdf)) ->
      let target := Z.to_nat (Z.of_nat pos + dir) in
      exists order',
        PdfToolkit.pdfFiles (PdfToolkit.movePageStep pdf (Z.of_nat pos) dir st)
        = <[index := pdf <| PdfToolkit.pageOrder := order' |>]> (PdfToolkit.pdfFiles st)
        /\ order' !! target = PdfToolkit.pageOrder pdf !! pos
        /\ order' !! pos = PdfToolkit.pageOrder pdf !! target
        /\ forall k, k <> pos -> k <> target ->
             order' !! k = PdfToolkit.pageOrder pdf !! k)
  /\ (forall (st : PdfToolkit.State) (pos : nat) (dir : Z),
      (pos < length (PdfToolkit.imageAssets st))%nat ->
      dir = 1 \/ dir = -1 ->
      0 <= Z.of_nat pos + dir < Z.of_nat (length (PdfToolkit.imageAssets st)) ->
      let target := Z.to_nat (Z.of_nat pos + dir) in
      let next := PdfToolkit.imageAssets (PdfToolkit.moveImageStep (Z.of_nat pos) dir st) in
      next !! target = PdfToolkit.imageAssets st !! pos
      /\ next !! pos = PdfToolkit.imageAssets st !! target
      /\ forall k, k <> pos -> k <> target ->
           next !! k = PdfToolkit.imageAssets st !! k).
Proof.
  split.
  - intros w actions index pdf pos dir st Hi Hpos Hdir Hrange target.
    destruct (lookup_lt_is_Some_2 _ _ Hpos) as [page Hpage].
    assert (Htarget : (target < length (PdfToolkit.pageOrder pdf))%nat)
      by (subst target; lia).
    assert (Hne : pos <> target) by (subst target; lia).
    destruct (movePage_lands st index pdf pos target page
                (run_ok actions _ (initial_ok w)) Hi Hpage Htarget Hne)
      as (order' & Hfiles & Hland & Hrest).
    exists order'. split.
    { unfold PdfToolkit.movePageStep.
      replace (Z.of_nat pos + dir) with (Z.of_nat target) by (subst target; lia).
      exact Hfiles. }
    split; [rewrite Hpage; exact Hland|].
    assert (Hlen : length order' = length (PdfToolkit.pageOrder pdf)).
    { apply (f_equal length) in Hrest. rewrite !length_delete in Hrest.
      - lia.
      - apply lookup_lt_is_Some_2. exact Hpos.
      - exists page. exact Hland. }
    apply reinsert_neighbours; try assumption. subst target. lia.
  - intros st pos dir Hpos Hdir Hrange target next.
    destruct (lookup_lt_is_Some_2 _ _ Hpos) as [asset Hasset].
    assert (Htarget : (target < length (PdfToolkit.imageAssets st))%nat)
      by (subst target; lia).
    assert (Hne : pos <> target) by (subst target; lia).
    destruct (moveImage_lands st pos target asset Hasset Htarget Hne) as [Hland Hrest].
    assert (Hnext : next
                    = PdfToolkit.imageAssets
                        (PdfToolkit.moveImage (Z.of_nat pos) (Z.of_nat target) st)).
    { subst next. unfold PdfToolkit.moveImageStep.
      replace (Z.of_nat pos + dir) with (Z.of_nat target) by (subst target; lia).
      reflexivity. }
    rewrite Hnext. split; [rewrite Hasset; exact Hland|].
    assert (Hlen : length (PdfToolkit.imageAssets
                             (PdfToolkit.moveImage (Z.of_nat pos) (Z.of_nat target) st))
                   = length (PdfToolkit.imageAssets st)).
    { apply (f_equal length) in Hrest. rewrite !length_delete in Hrest.
      - lia.
      - apply lookup_lt_is_Some_2. exact Hpos.
      - exists asset. exact Hland. }
    apply reinsert_neighbours; try assumption. subst target. lia.
Qed.

Lemma step_swaps_neighbours_witness :
  PdfToolkit.asset_name
  <$> PdfToolkit.imageAssets (PdfToolkit.moveImageStep 1 (-1) three_images)
  = ["b.png"; "a.png"; "c.png"]%string
  /\ PdfToolkit.imageAssets (PdfToolkit.moveImageStep 1 (-1) three_images) !! 0%nat
     = PdfToolkit.imageAssets three_images !! 1%nat.
Proof.
  split; [reflexivity|].
  destruct step_swaps_neighbours as [_ H].
  destruct (H three_images 1%nat (-1)) as (Hland & _);
    [cbn; lia | right; reflexivity | cbn; lia |].
  exact Hland.
Defined.

(** ** More on file names *)
Section MoreFileNames.
Import FileUtil.
Local Open Scope string_scope.

Lemma name_char_not_dot (c : ascii) : is_name_char c = true -> Ascii.eqb c "." = false.
Proof.
  intros H. destruct (Ascii.eqb_spec c "."%char) as [->|]; [|reflexivity].
  vm_compute in H. discriminate H.
Qed.

Lemma extension_here_dot (c : ascii) (r : string) :
  extension_here (String c r) = true -> c = "."%char.
Proof.
  unfold extension_here.
  destruct c as [[] [] [] [] [] [] [] []]; try discriminate. reflexivity.
Qed.

Lemma getFileStem_name_chars (s : string) :
  all_chars is_name_char s = true -> getFileStem s = s.
Proof.
  induction s as [|c r IH]; [reflexivity|].
  intros H. apply andb_prop in H as [Hc Hr].
  cbn [getFileStem].
  destruct (extension_here (String c r)) eqn:E.
  - apply extension_here_dot in E. subst c. vm_compute in Hc. discriminate Hc.
  - rewrite IH by exact Hr. reflexivity.
Qed.

Lemma replace_other_chars_name_chars (s : string) :
  all_chars is_name_char s = true -> replace_other_chars s = s.
Proof.
  induction s as [|c r IH]; [reflexivity|].
  intros H. apply andb_prop in H as [Hc Hr].
  cbn [replace_other_chars]. rewrite Hc, IH by exact Hr. reflexivity.
Qed.

Lemma collapse_dashes_no_run (s : string) :
  has_dash_run s = false -> collapse_dashes s = s.
Proof.
  induction s as [|c r IH]; [reflexivity|].
  intros H. pose proof (IH (has_dash_run_tail _ _ H)) as IH'.
  cbn [collapse_dashes]. destruct (is_dash c) eqn:Ec.
  - destruct r as [|c' r']; [reflexivity|].
    apply has_dash_run_head in H. rewrite Ec in H. cbn [andb] in H. rewrite H.
    rewrite IH'. reflexivity.
  - rewrite IH'. reflexivity.
Qed.

Lemma strip_leading_dash_none (s : string) :
  starts_with_dash s = false -> strip_leading_dash s = s.
Proof. destruct s as [|c r]; [reflexivity|]. cbn. intros ->. reflexivity. Qed.

Lemma strip_trailing_dash_none (s : string) :
  ends_with_dash s = false -> strip_trailing_dash s = s.
Proof.
  induction s as [|c r IH]; [reflexivity|].
  destruct r as [|c' r'].
  - cbn. intros ->. reflexivity.
  - rewrite ends_with_dash_cons, strip_trailing_dash_cons. intros H.
    rewrite IH by exact H. reflexivity.
Qed.

Lemma sanitise_clean_stem (s : string) : clean_stem s -> sanitise s = s.
Proof.
  intros (_ & Hall & Hstart & Hend & Hrun).
  unfold sanitise, trim_dashes.
  rewrite getFileStem_name_chars by exact Hall.
  rewrite replace_other_chars_name_chars by exact Hall.
  rewrite collapse_dashes_no_run by exact Hrun.
  rewrite strip_leading_dash_none by exact Hstart.
  apply strip_trailing_dash_none, Hend.
Qed.

Lemma stem_of_clean_stem (s : string) : clean_stem s -> stem_of s = s.
Proof.
  intros H. unfold stem_of. rewrite (sanitise_clean_stem s H).
  destruct H as (Hne & _). destruct s; [contradiction | reflexivity].
Qed.

Lemma stem_of_is_clean (originalName : string) : clean_stem (stem_of originalName).
Proof.
  unfold stem_of.
  destruct (sanitise_clean originalName) as (Hall & Hstart & Hend & Hrun).
  cbv zeta in *.
  destruct (sanitise originalName) as [|c rest] eqn:E.
  - repeat split; try reflexivity. discriminate.
  - repeat split; try assumption. discriminate.
Qed.

Lemma getFileStem_splits (fileName : string) :
  exists ext,
    fileName = getFileStem fileName +:+ ext
    /\ (ext = "" \/ extension_here ext = true)
    /\ (ext = "" -> forall pre suf, fileName = pre +:+ suf -> extension_here suf = false).
Proof.
  induction fileName as [|c r IH].
  - exists "". split; [reflexivity|]. split; [left; reflexivity|].
    intros _ pre suf H. destruct pre as [|c' pre'].
    + change ("" +:+ suf) with suf in H. subst suf. reflexivity.
    + change (String c' pre' +:+ suf) with (String c' (pre' +:+ suf)) in H.
      discriminate H.
  - cbn [getFileStem]. destruct (extension_here (String c r)) eqn:E.
    + exists (String c r). split; [reflexivity|]. split; [right; exact E|]. discriminate.
    + destruct IH as (ext & Hsplit & Hshape & Hnone).
      exists ext. split.
      { change (String c (getFileStem r) +:+ ext) with (String c (getFileStem r +:+ ext)).
        rewrite <- Hsplit. reflexivity. }
      split; [exact Hshape|].
      intros Hext pre suf H. destruct pre as [|c' pre'].
      * change ("" +:+ suf) with suf in H. subst suf. exact E.
      * change (String c' pre' +:+ suf) with (String c' (pre' +:+ suf)) in H.
        injection H as _ H. apply (Hnone Hext pre' suf H).
Qed.

End MoreFileNames.

(** X12.  The stem that [deriveFileName] builds is a fixed point of the
    cleaning: a name that is a clean stem already (not empty, only ASCII
    letters, digits, dashes and underscores, no dash at either end, no two
    dashes in a row) is kept as it is, so cleaning a second time changes
    nothing. *)
Theorem clean_stem_is_kept :
  (forall (stem targetExtension : string),
      FileUtil.clean_stem stem ->
      FileUtil.deriveFileName stem targetExtension None
      = (stem +:+ "." +:+ targetExtension)%string)
  /\ (forall originalName : string,
      FileUtil.stem_of (FileUtil.stem_of originalName) = FileUtil.stem_of originalName).
Proof.
  split.
  - intros stem targetExtension H. unfold FileUtil.deriveFileName.
    rewrite (stem_of_clean_stem stem H). reflexivity.
  - intros originalName. apply stem_of_clean_stem, stem_of_is_clean.
Qed.

Lemma clean_stem_is_kept_witness :
  FileUtil.clean_stem "My-Photo-1"
  /\ FileUtil.deriveFileName "My-Photo-1" "webp" None = "My-Photo-1.webp"%string.
Proof.
  assert (H : FileUtil.clean_stem "My-Photo-1")
    by (repeat split; try reflexivity; discriminate).
  split; [exact H|].
  destruct clean_stem_is_kept as [Hkept _].
  apply (Hkept "My-Photo-1"%string "webp"%string H).
Defined.

(** X13.  [getFileStem] returns the name without its last part: what it
    takes away is either nothing or a dot followed by one character or
    more, none of them a dot or a slash; and it takes nothing away only
    when the name has no ending of that shape.  A name that is nothing but
    such an ending, as ".bashrc", has the empty stem, so [deriveFileName]
    falls back to "processed-file" for it. *)
Theorem getFileStem_removes_last_extension :
  (forall fileName : string,
      exists ext : string,
        fileName = (FileUtil.getFileStem fileName +:+ ext)%string
        /\ (ext = ""%string \/ FileUtil.extension_here ext = true)
        /\ (ext = ""%string ->
            forall pre suf, fileName = (pre +:+ suf)%string ->
                            FileUtil.extension_here suf = false))
  /\ (forall (fileName targetExtension : string),
      FileUtil.extension_here fileName = true ->
      FileUtil.getFileStem fileName = ""%string
      /\ FileUtil.deriveFileName fileName targetExtension None
         = ("processed-file." +:+ targetExtension)%string).
Proof.
  split; [apply getFileStem_splits|].
  intros fileName targetExtension H.
  assert (Hstem : FileUtil.getFileStem fileName = ""%string)
    by (destruct fileName; cbn [FileUtil.getFileStem]; rewrite H; reflexivity).
  split; [exact Hstem|].
  unfold FileUtil.deriveFileName, FileUtil.stem_of, FileUtil.sanitise.
  rewrite Hstem. reflexivity.
Qed.

Lemma getFileStem_removes_last_extension_witness :
  FileUtil.extension_here ".bashrc" = true
  /\ FileUtil.deriveFileName ".bashrc" "png" None = "processed-file.png"%string.
Proof.
  split; [reflexivity|].
  destruct getFileStem_removes_last_extension as [_ H].
  destruct (H ".bashrc"%string "png"%string eq_refl) as [_ Hname]. exact Hname.
Defined.

(** ** The name of the merged file *)
Section MergedName.
Import PdfToolkit.
Local Open Scope string_scope.

Lemma pdf_extension_here_length (s : string) :
  pdf_extension_here s = true -> String.length s = 4%nat.
Proof.
  destruct s as [|a [|b [|c [|d [|e r]]]]]; cbn; try discriminate. reflexivity.
Qed.

Lemma length_append (s t : string) :
  String.length (s +:+ t) = (String.length s + String.length t)%nat.
Proof.
  induction s as [|c r IH]; [reflexivity|].
  change (String c r +:+ t) with (String c (r +:+ t)). cbn. rewrite IH. reflexivity.
Qed.

Lemma stripPdfExtension_append (base ext : string) :
  pdf_extension_here ext = true -> stripPdfExtension (base +:+ ext) = base.
Proof.
  intros Hext. induction base as [|c r IH].
  - change ("" +:+ ext) with ext. destruct ext; cbn [stripPdfExtension]; rewrite Hext;
      reflexivity.
  - change (String c r +:+ ext) with (String c (r +:+ ext)).
    cbn [stripPdfExtension].
    destruct (pdf_extension_here (String c (r +:+ ext))) eqn:E.
    + apply pdf_extension_here_length in E. apply pdf_extension_here_length in Hext.
      cbn in E. rewrite length_append in E. lia.
    + rewrite IH. reflexivity.
Qed.

End MergedName.

(** X14.  The merged file is named after the first document of the list:
    when its name ends in ".pdf", in capitals or not, that ending is taken
    off, "-merged", ".private" when asked for, and ".pdf" are put behind
    the rest; when nothing is left of the name, "merged" stands for it. *)
Theorem merged_file_name
    (pdfs : list PdfToolkit.LoadedPdf) (private : bool)
    (first : PdfToolkit.LoadedPdf) (base ext : string) :
  head pdfs = Some first ->
  PdfToolkit.name first = (base +:+ ext)%string ->
  PdfToolkit.pdf_extension_here ext = true ->
  PdfToolkit.mergedName pdfs private
  = ((if JS.truthyStr base then base else "merged") +:+ "-merged"
     +:+ (if private then ".private" else "") +:+ ".pdf")%string.
Proof.
  intros Hhead Hname Hext. unfold PdfToolkit.mergedName.
  rewrite Hhead. cbn [from_option]. rewrite Hname.
  rewrite (stripPdfExtension_append base ext Hext). reflexivity.
Qed.

Lemma merged_file_name_witness :
  PdfToolkit.mergedName
    [ {| PdfToolkit.id := 0; PdfToolkit.name := "Report.PDF"; PdfToolkit.pageCount := 1;
         PdfToolkit.pageSelection := ∅; PdfToolkit.lastSelectedIndex := None;
         PdfToolkit.pageOrder := [0%nat] |} ] true
  = "Report-merged.private.pdf"%string.
Proof.
  eapply (merged_file_name _ true _ "Report"%string ".PDF"%string);
    [reflexivity | reflexivity | reflexivity].
Defined.

(** ** Sizes in bytes *)
Section MoreFormat.
Import Format.




Lemma round_whole (n : Z) : Qfloor (inject_Z n + (1 # 2)) = n.
Proof.
  pose proof (Qfloor_le (inject_Z n + (1 # 2))) as Hle.
  pose proof (Qlt_floor (inject_Z n + (1 # 2))) as Hlt.
  set (f := Qfloor (inject_Z n + (1 # 2))) in *.
  assert (H1 : (inject_Z f < inject_Z (n + 1))%Q).
  { rewrite inject_Z_plus. change (inject_Z 1) with 1%Q. lra. }
  assert (H2 : (inject_Z n < inject_Z (f + 1))%Q) by lra.
  rewrite <- Zlt_Qlt in H1, H2. lia.
Qed.

End MoreFormat.



(** ** The page of an image *)
Section Placing.
Import PdfToolkit.

Lemma Qle_bool_false (a b : Q) : Qle_bool a b = false -> (b < a)%Q.
Proof.
  intros H. apply Qnot_le_lt. intros Hle. apply Qle_bool_iff in Hle. congruence.
Qed.

Lemma Qltb_true (a b : Q) : Qltb a b = true -> (a < b)%Q.
Proof. unfold Qltb. intros H. apply negb_true_iff in H. apply Qle_bool_false, H. Qed.

Lemma Qltb_false (a b : Q) : Qltb a b = false -> (b <= a)%Q.
Proof. unfold Qltb. intros H. apply negb_false_iff in H. apply Qle_bool_iff, H. Qed.

(** The two scales of [imagesToPdf], as facts about products. *)
End Placing.

(** X16.  The page that [imagesToPdf] adds for an image has the chosen
    page size or that size turned by a quarter: with "landscape" it is not
    higher than wide, with "portrait" it is not wider than high, and with
    "auto" it is landscape exactly when the image is at least as wide as
    high.  With the automatic page size and the automatic orientation the
    page has the size of the image. *)
Theorem page_orientation
    (resolved : option PdfToolkit.Size) (image : PdfToolkit.Size) :
  let pageSize := default image resolved in
  (forall orientationOption,
      let page := PdfToolkit.pageFor resolved orientationOption image in
      (PdfToolkit.width page = PdfToolkit.width pageSize
       /\ PdfToolkit.height page = PdfToolkit.height pageSize)
      \/ (PdfToolkit.width page = PdfToolkit.height pageSize
          /\ PdfToolkit.height page = PdfToolkit.width pageSize))
  /\ (let page := PdfToolkit.pageFor resolved PdfToolkit.Landscape image in
      (PdfToolkit.height page <= PdfToolkit.width page)%Q)
  /\ (let page := PdfToolkit.pageFor resolved PdfToolkit.Portrait image in
      (PdfToolkit.width page <= PdfToolkit.height page)%Q)
  /\ (let page := PdfToolkit.pageFor resolved PdfToolkit.Auto image in
      ((PdfToolkit.height image <= PdfToolkit.width image)%Q ->
       (PdfToolkit.height page <= PdfToolkit.width page)%Q)
      /\ ((PdfToolkit.width image < PdfToolkit.height image)%Q ->
          (PdfToolkit.width page <= PdfToolkit.height page)%Q))
  /\ PdfToolkit.pageFor None PdfToolkit.Auto image = image.
Proof.
  intros pageSize.
  assert (Hauto : PdfToolkit.pageFor None PdfToolkit.Auto image = image).
  { unfold PdfToolkit.pageFor. cbn [default].
    destruct (Qle_bool (PdfToolkit.height image) (PdfToolkit.width image)) eqn:E;
      cbn [andb negb].
    - destruct (PdfToolkit.Qltb (PdfToolkit.width image) (PdfToolkit.height image)) eqn:E2;
        [|reflexivity].
      apply Qltb_true in E2. apply Qle_bool_iff in E. lra.
    - destruct (PdfToolkit.Qltb (PdfToolkit.height image) (PdfToolkit.width image)) eqn:E2;
        [|reflexivity].
      apply Qltb_true in E2. apply Qle_bool_false in E. lra. }
  split_and!.
  - intros orientationOption page. subst page. unfold PdfToolkit.pageFor.
    fold pageSize.
    repeat match goal with
           | |- context [if ?c then _ else _] => destruct c
           end; cbn; auto.
  - cbn zeta. unfold PdfToolkit.pageFor. fold pageSize. cbn [andb negb].
    destruct (PdfToolkit.Qltb (PdfToolkit.width pageSize) (PdfToolkit.height pageSize)) eqn:E;
      cbn [PdfToolkit.width PdfToolkit.height].
    + apply Qltb_true in E. lra.
    + apply Qltb_false in E. exact E.
  - cbn zeta. unfold PdfToolkit.pageFor. fold pageSize. cbn [andb negb].
    destruct (PdfToolkit.Qltb (PdfToolkit.height pageSize) (PdfToolkit.width pageSize)) eqn:E;
      cbn [PdfToolkit.width PdfToolkit.height].
    + apply Qltb_true in E. lra.
    + apply Qltb_false in E. exact E.
  - cbn zeta. unfold PdfToolkit.pageFor. fold pageSize. split.
    + intros Hwide. apply Qle_bool_iff in Hwide. rewrite Hwide. cbn [andb negb].
      destruct (PdfToolkit.Qltb (PdfToolkit.width pageSize) (PdfToolkit.height pageSize)) eqn:E;
        cbn [PdfToolkit.width PdfToolkit.height].
      * apply Qltb_true in E. lra.
      * apply Qltb_false in E. exact E.
    + intros Htall.
      assert (Hq : Qle_bool (PdfToolkit.height image) (PdfToolkit.width image) = false).
      { destruct (Qle_bool _ _) eqn:E; [|reflexivity]. apply Qle_bool_iff in E. lra. }
      rewrite Hq. cbn [andb negb].
      destruct (PdfToolkit.Qltb (PdfToolkit.height pageSize) (PdfToolkit.width pageSize)) eqn:E;
        cbn [PdfToolkit.width PdfToolkit.height].
      * apply Qltb_true in E. lra.
      * apply Qltb_false in E. exact E.
  - exact Hauto.
Qed.

Lemma page_orientation_witness :
  let image := {| PdfToolkit.width := 300; PdfToolkit.height := 200 |} in
  let a4 := Some {| PdfToolkit.width := 59528 # 100; PdfToolkit.height := 84189 # 100 |} in
  (PdfToolkit.height (PdfToolkit.pageFor a4 PdfToolkit.Auto image)
   <= PdfToolkit.width (PdfToolkit.pageFor a4 PdfToolkit.Auto image))%Q
  /\ PdfToolkit.pageFor a4 PdfToolkit.Auto image
     = {| PdfToolkit.width := 84189 # 100; PdfToolkit.height := 59528 # 100 |}
  /\ PdfToolkit.pageFor None PdfToolkit.Auto image = image.
Proof.
  intros image a4.
  destruct (page_orientation a4 image) as (_ & _ & _ & [Hwide _] & _).
  destruct (page_orientation None image) as (_ & _ & _ & _ & Hfull).
  split; [|split].
  - apply Hwide. vm_compute. discriminate.
  - reflexivity.
  - exact Hfull.
Defined.

(** ** Loading a picture *)
Section Loading.
Import Browser ImageToolkit.

Lemma resetState_released (s : State) :
  cropper (resetState s) = None /\ objectUrl (resetState s) = None
  /\ resultUrl (resetState s) = None
  /\ liveUrls (world (resetState s)) ⊆ liveUrls (world s)
  /\ nextUrl (world (resetState s)) = nextUrl (world s)
  /\ mode (resetState s) = mode s
  /\ targetWidth (resetState s) = None /\ targetHeight (resetState s) = None
  /\ keepAspectInResize (resetState s) = true.
Proof.
  destruct (release_all s) as (Hc & Ho & Hr & _ & _ & _ & Hlive & Hnext).
  unfold resetState.
  set (s0 := cleanupResultUrl (cleanupObjectUrl (destroyCropper s))) in *.
  assert (Hmode : mode s0 = mode s).
  { subst s0. unfold cleanupResultUrl, cleanupObjectUrl, destroyCropper.
    destruct s; cbn. destruct cropper0, objectUrl0, resultUrl0; reflexivity. }
  clearbody s0. destruct s0; cbn in *. split_and!; try assumption; reflexivity.
Qed.

Lemma handleFileSelection_unreadable (candidate : File) (s : State) :
  file_size candidate <= MAX_FILE_SIZE_BYTES ->
  let s' := handleFileSelection (Some candidate) None s in
  objectUrl s' = None
  /\ errorMessage s' = "Unable to read image dimensions"%string
  /\ file s' = Some candidate
  /\ targetWidth s' = None /\ targetHeight s' = None
  /\ (nextUrl (world s) ∉ liveUrls (world s'))
  /\ liveUrls (world s') ⊆ liveUrls (world s)
  /\ nextUrl (world s') = S (nextUrl (world s)).
Proof.
  intros Hsize s'. subst s'. unfold handleFileSelection.
  destruct (Z.gtb_spec (file_size candidate) MAX_FILE_SIZE_BYTES); [lia|].
  destruct (resetState_released s)
    as (_ & _ & _ & Hlive & Hnext & _ & Htw & Hth & _).
  set (s0 := resetState s) in *. clearbody s0.
  destruct s0 as [? ? ? ? ? ? ? ? ? ? ? ? ? ? ? ? ? ? ? ? ? ? ? ? ? ? ? ? w0].
  destruct w0; cbn in *; unfold constant. subst.
  split_and!; try reflexivity; set_solver.
Qed.

End Loading.

(** X17.  When a file within the size limit cannot be measured,
    [handleFileSelection] revokes the object URL it has just created and
    keeps none: the error message is set, no URL is live that was not
    before, and the sizes stay empty.  The file itself stays selected. *)
Theorem unreadable_image_releases_url
    (candidate : Browser.File) (s : ImageToolkit.State) :
  Browser.file_size candidate <= ImageToolkit.MAX_FILE_SIZE_BYTES ->
  let s' := ImageToolkit.handleFileSelection (Some candidate) None s in
  ImageToolkit.objectUrl s' = None
  /\ ImageToolkit.errorMessage s' = "Unable to read image dimensions"%string
  /\ ImageToolkit.file s' = Some candidate
  /\ ImageToolkit.targetWidth s' = None /\ ImageToolkit.targetHeight s' = None
  /\ (Browser.nextUrl (ImageToolkit.world s) ∉ Browser.liveUrls (ImageToolkit.world s'))
  /\ Browser.liveUrls (ImageToolkit.world s') ⊆ Browser.liveUrls (ImageToolkit.world s)
  /\ Browser.nextUrl (ImageToolkit.world s') = S (Browser.nextUrl (ImageToolkit.world s)).
Proof. apply handleFileSelection_unreadable. Qed.

Lemma unreadable_image_releases_url_witness :
  let s' := ImageToolkit.handleFileSelection (Some tall_picture) None tall_picture_loaded in
  ImageToolkit.objectUrl s' = None
  /\ Browser.liveUrls (ImageToolkit.world s') ⊆ Browser.liveUrls (ImageToolkit.world tall_picture_loaded)
  /\ Browser.nextUrl (ImageToolkit.world s') = 2%nat.
Proof.
  intros s'.
  destruct (unreadable_image_releases_url tall_picture tall_picture_loaded)
    as (Hurl & _ & _ & _ & _ & _ & Hlive & Hnext); [vm_compute; discriminate|].
  split; [exact Hurl|]. split; [exact Hlive|]. exact Hnext.
Defined.

Section Caps.
Import Browser ImageToolkit.

Lemma inject_Z_pos (n : Z) : 0 < n -> (0 < inject_Z n)%Q.
Proof. intros H. change 0%Q with (inject_Z 0). rewrite <- Zlt_Qlt. exact H. Qed.

Lemma floor_whole (n : Z) (x : Q) : (x == inject_Z n)%Q -> JS.floor x = n.
Proof. intros H. unfold JS.floor. rewrite H. apply Qfloor_Z. Qed.

Lemma floor_between (x : Q) (n : Z) : (0 <= x)%Q -> (x <= inject_Z n)%Q -> 0 <= JS.floor x <= n.
Proof.
  intros H0 Hn. unfold JS.floor. split.
  - change 0 with (Qfloor 0). apply Qfloor_resp_le, H0.
  - rewrite <- (Qfloor_Z n). apply Qfloor_resp_le, Hn.
Qed.

Lemma floor_below (x : Q) (n : Z) : (x < inject_Z (n + 1))%Q -> JS.floor x <= n.
Proof.
  intros H. unfold JS.floor. pose proof (Qfloor_le x) as Hf.
  assert (Hlt : (inject_Z (Qfloor x) < inject_Z (n + 1))%Q) by lra.
  rewrite <- Zlt_Qlt in Hlt. lia.
Qed.

Lemma floor_above (x : Q) (n : Z) : (inject_Z n <= x)%Q -> n <= JS.floor x.
Proof.
  intros H. unfold JS.floor. rewrite <- (Qfloor_Z n). apply Qfloor_resp_le, H.
Qed.

Lemma unit_roundoff_small : (JS.pow2 (-53) <= 1 # 100000)%Q.
Proof. vm_compute. discriminate. Qed.

(** [MAX_DIMENSION / n] as the division gives it, for a size [n]. *)
Lemma scale_near (n : Z) :
  0 < n < 2 ^ 53 ->
  let d := JS.div (inject_Z MAX_DIMENSION) (inject_Z n) in
  (8191 <= inject_Z n * d)%Q /\ (inject_Z n * d <= 8192 + (1 # 10))%Q
  /\ (JS.pow2 (-1022) <= d)%Q.
Proof.
  intros Hn d. subst d. unfold JS.div.
  pose proof (quotient_normal MAX_DIMENSION n ltac:(reflexivity) Hn) as Hnormal.
  destruct (binary64_near _ Hnormal) as [Hlo Hhi].
  pose proof (inject_Z_pos n ltac:(lia)) as Hn0.
  pose proof unit_roundoff_small as Hu. pose proof (pow2_pos (-53)) as Hu0.
  assert (Hq : (inject_Z n * (inject_Z MAX_DIMENSION / inject_Z n)
                == inject_Z MAX_DIMENSION)%Q) by (apply Qmult_div_r; lra).
  change (inject_Z MAX_DIMENSION) with (8192 # 1)%Q in *.
  set (q := ((8192 # 1) / inject_Z n)%Q) in *.
  set (b := JS.binary64 q) in *. set (u := JS.pow2 (-53)) in *.
  set (t := JS.pow2 (-1022)) in *. set (N := inject_Z n) in *.
  assert (H1 : (N * (q * (1 - u)) <= N * b)%Q)
    by (rewrite !(Qmult_comm N); apply Qmult_le_compat_r; lra).
  assert (H2 : (N * b <= N * (q * (1 + u)))%Q)
    by (rewrite !(Qmult_comm N); apply Qmult_le_compat_r; lra).
  assert (H3 : (N * (q * (1 - u)) == (N * q) * (1 - u))%Q) by ring.
  assert (H4 : (N * (q * (1 + u)) == (N * q) * (1 + u))%Q) by ring.
  assert (Hsmall : (t <= JS.pow2 (-53))%Q) by (apply pow2_le; lia).
  fold u in Hsmall.
  split; [nra|]. split; [nra|].
  (* the quotient is above [2^-1022] by far *)
  assert (Hq53 : (JS.pow2 (-40) <= q)%Q).
  { subst q. apply Qle_shift_div_l; [exact Hn0|].
    assert (HN : (N <= JS.pow2 53)%Q)
      by (subst N; rewrite (pow2_nonneg 53) by lia; rewrite <- Zle_Qle; lia).
    assert (H13 : (JS.pow2 (-40) * JS.pow2 53 == 8192 # 1)%Q) by reflexivity.
    pose proof (pow2_pos (-40)).
    assert (JS.pow2 (-40) * N <= JS.pow2 (-40) * JS.pow2 53)%Q
      by (rewrite !(Qmult_comm (JS.pow2 (-40))); apply Qmult_le_compat_r; lra).
    lra. }
  assert (Ht : (t * 2 <= JS.pow2 (-40))%Q).
  { subst t. change 2%Q with (JS.pow2 1). rewrite <- pow2_plus. apply pow2_le. lia. }
  pose proof (pow2_pos (-1022)). fold t in H. nra.
Qed.

(** The two sizes that the code computes for a picture above the maximum:
    neither is above the maximum, and one of them is the maximum or one
    below it. *)
Lemma fitScale_caps (w h : Z) :
  0 < w < 2 ^ 53 -> 0 < h < 2 ^ 53 ->
  let scale := fitScale w h in
  let tw := JS.floor (JS.mul (inject_Z w) scale) in
  let th := JS.floor (JS.mul (inject_Z h) scale) in
  0 <= tw <= MAX_DIMENSION /\ 0 <= th <= MAX_DIMENSION
  /\ (MAX_DIMENSION - 1 <= tw \/ MAX_DIMENSION - 1 <= th).
Proof.
  intros Hw Hh scale tw th.
  destruct (scale_near w Hw) as (Ha1 & Ha2 & Ha3).
  destruct (scale_near h Hh) as (Hb1 & Hb2 & Hb3).
  cbv zeta in Ha1, Ha2, Ha3, Hb1, Hb2, Hb3.
  pose proof (inject_Z_pos w ltac:(lia)) as Hwq.
  pose proof (inject_Z_pos h ltac:(lia)) as Hhq.
  assert (Hscale : (scale = JS.div (inject_Z MAX_DIMENSION) (inject_Z w)
                    /\ (scale <= JS.div (inject_Z MAX_DIMENSION) (inject_Z h))%Q)
                   \/ (scale = JS.div (inject_Z MAX_DIMENSION) (inject_Z h)
                       /\ (scale <= JS.div (inject_Z MAX_DIMENSION) (inject_Z w))%Q)).
  { subst scale. unfold fitScale.
    destruct (Z.eqb_spec w 0); [lia|]. destruct (Z.eqb_spec h 0); [lia|].
    unfold JS.Qmin.
    destruct (Qle_bool _ _) eqn:E.
    - apply Qle_bool_iff in E. left. split; [reflexivity | exact E].
    - apply Qle_bool_false in E. right. split; [reflexivity | lra]. }
  set (a := JS.div (inject_Z MAX_DIMENSION) (inject_Z w)) in *.
  set (b := JS.div (inject_Z MAX_DIMENSION) (inject_Z h)) in *.
  pose proof (pow2_pos (-1022)) as Ht.
  assert (Hpos : (JS.pow2 (-1022) <= scale)%Q) by (destruct Hscale as [[-> _]|[-> _]]; assumption).
  assert (Hle : (scale <= a)%Q /\ (scale <= b)%Q)
    by (destruct Hscale as [[-> H]|[-> H]]; split; first [exact H | apply Qle_refl]).
  destruct Hle as [Hsa Hsb].
  pose proof unit_roundoff_small as Hu. pose proof (pow2_pos (-53)) as Hu0.
  (* each product is in the normal range and not above 8192.1 *)
  assert (Hone : forall n : Z, 0 < n -> (JS.pow2 (-1022) <= inject_Z n * scale)%Q).
  { intros n Hn.
    assert (H1 : (1 <= inject_Z n)%Q)
      by (change 1%Q with (inject_Z 1); rewrite <- Zle_Qle; lia).
    set (N := inject_Z n) in *. set (t := JS.pow2 (-1022)) in *. nra. }
  assert (Hbound : forall (n : Z) (d : Q),
             0 < n -> (scale <= d)%Q -> (inject_Z n * d <= 8192 + (1 # 10))%Q ->
             0 <= JS.floor (JS.mul (inject_Z n) scale) <= MAX_DIMENSION).
  { intros n d Hn Hd Hnd. unfold JS.mul.
    pose proof (Hone n Hn) as Hnormal.
    destruct (binary64_near _ Hnormal) as [Hlo Hhi].
    pose proof (inject_Z_pos n Hn) as Hn0.
    assert (Hprod : (inject_Z n * scale <= inject_Z n * d)%Q)
      by (rewrite !(Qmult_comm (inject_Z n)); apply Qmult_le_compat_r; lra).
    set (y := (inject_Z n * scale)%Q) in *. set (r := JS.binary64 y) in *.
    set (u := JS.pow2 (-53)) in *. set (t := JS.pow2 (-1022)) in *.
    split.
    - apply (floor_above r 0). change (inject_Z 0) with 0%Q. nra.
    - apply floor_below. change (inject_Z (MAX_DIMENSION + 1)) with (8193 # 1)%Q. nra. }
  split; [apply (Hbound w a); [lia | exact Hsa | exact Ha2]|].
  split; [apply (Hbound h b); [lia | exact Hsb | exact Hb2]|].
  assert (Hreach : forall (n : Z),
             0 < n -> (8191 <= inject_Z n * scale)%Q ->
             MAX_DIMENSION - 1 <= JS.floor (JS.mul (inject_Z n) scale)).
  { intros n Hn Hbig. apply floor_above. unfold JS.mul.
    apply binary64_ge; [|unfold MAX_DIMENSION; lia].
    change (inject_Z (MAX_DIMENSION - 1)) with (8191 # 1)%Q. exact Hbig. }
  destruct Hscale as [[Hs _]|[Hs _]].
  - left. apply Hreach; [lia|]. rewrite Hs. exact Ha1.
  - right. apply Hreach; [lia|]. rewrite Hs. exact Hb1.
Qed.

(** [alignResizeDimensionsToAspect] writes the two sizes and nothing else. *)
Lemma alignResize_only_targets (changed : option Changed) (s : State) :
  exists tw th,
    alignResizeDimensionsToAspect changed s
    = s <| targetWidth := tw |> <| targetHeight := th |>.
Proof.
  unfold alignResizeDimensionsToAspect, clampHeight, clampWidth.
  destruct s; cbn [mode keepAspectInResize targetWidth targetHeight].
  repeat (match goal with
          | |- context [if ?c then _ else _] => destruct c
          | |- context [match ?x with Some _ => _ | None => _ end] => destruct x
          end; cbn [targetWidth targetHeight apply_update]; unfold constant);
    eexists _, _; reflexivity.
Qed.

(** The lock of resize mode on two sizes of which one may be [0]. *)
Lemma alignResize_from_caps (s : State) (tw th : Z) :
  mode s = Resize -> keepAspectInResize s = true ->
  targetWidth s = Some tw -> targetHeight s = Some th ->
  0 <= tw <= MAX_DIMENSION -> 0 <= th <= MAX_DIMENSION -> 0 < tw \/ 0 < th ->
  within_maximum (targetWidth (alignResizeDimensionsToAspect None s))
  /\ within_maximum (targetHeight (alignResizeDimensionsToAspect None s)).
Proof.
  intros Hmode Hkeep Hw Hh Hwr Hhr Hsome.
  unfold alignResizeDimensionsToAspect. rewrite Hmode, Hkeep, Hw, Hh.
  cbn [mode_eqb negb orb JS.truthyOptZ changed_is andb].
  change (num (Some tw)) with (inject_Z tw). change (num (Some th)) with (inject_Z th).
  destruct (Z.eq_dec tw 0) as [->|Htw].
  - assert (0 < th) by lia.
    rewrite (truthyZ_positive th) by lia. cbn [JS.truthyZ Z.eqb negb andb].
    set (s1 := s <| targetWidth := _ |>).
    apply (clamps_from_height s1 th); subst s1; destruct s; cbn in *;
      first [assumption | reflexivity | lia].
  - rewrite (truthyZ_positive tw) by lia. cbn [andb negb].
    assert (Hstep :
      (if negb (JS.truthyZ th)
       then s <| targetHeight := Some (Z.max 1 (JS.round (JS.div (inject_Z tw) (srcRatio s)))) |>
       else if JS.truthyZ th
            then s <| targetHeight := Some (Z.max 1 (JS.round (JS.div (inject_Z tw) (srcRatio s)))) |>
            else s)
      = s <| targetHeight := Some (Z.max 1 (JS.round (JS.div (inject_Z tw) (srcRatio s)))) |>)
      by (destruct (JS.truthyZ th); reflexivity).
    rewrite Hstep. clear Hstep.
    set (s1 := s <| targetHeight := _ |>).
    apply (clamps_from_width s1 tw); subst s1; destruct s; cbn in *;
      first [assumption | reflexivity | lia].
Qed.

Lemma alignResize_some (changed : option Changed) (s : State) (tw th : Z) :
  targetWidth s = Some tw -> targetHeight s = Some th ->
  exists tw' th',
    targetWidth (alignResizeDimensionsToAspect changed s) = Some tw'
    /\ targetHeight (alignResizeDimensionsToAspect changed s) = Some th'.
Proof.
  intros Hw Hh.
  unfold alignResizeDimensionsToAspect, clampHeight, clampWidth.
  destruct s; cbn [mode keepAspectInResize targetWidth targetHeight] in *. subst.
  repeat (match goal with
          | |- context [if ?c then _ else _] => destruct c
          | |- context [match ?x with Some _ => _ | None => _ end] => destruct x
          end; cbn [targetWidth targetHeight apply_update]; unfold constant);
    eexists _, _; split; reflexivity.
Qed.

End Caps.

Section Loaded.
Import Browser ImageToolkit.

Lemma handleFileSelection_loaded (candidate : File) (s : State) (width height : Z) :
  file_size candidate <= MAX_FILE_SIZE_BYTES ->
  0 < width < 2 ^ 53 -> 0 < height < 2 ^ 53 ->
  let s' := handleFileSelection (Some candidate) (Some (width, height)) s in
  originalWidth s' = width /\ originalHeight s' = height
  /\ file s' = Some candidate
  /\ objectUrl s' = Some (nextUrl (world s))
  /\ nextUrl (world s) ∈ liveUrls (world s')
  /\ resultUrl s' = None
  /\ mode s' = mode s
  /\ exists tw th,
       targetWidth s' = Some tw /\ targetHeight s' = Some th
       /\ 0 <= tw <= MAX_DIMENSION /\ 0 <= th <= MAX_DIMENSION
       /\ (mode s = Resize -> 1 <= tw /\ 1 <= th)
       /\ (mode s = Crop -> width <= MAX_DIMENSION -> height <= MAX_DIMENSION ->
           tw = width /\ th = height)
       /\ (mode s = Crop -> MAX_DIMENSION < width \/ MAX_DIMENSION < height ->
           MAX_DIMENSION - 1 <= tw \/ MAX_DIMENSION - 1 <= th).
Proof.
  intros Hsize Hw Hh s'. subst s'. unfold handleFileSelection.
  destruct (Z.gtb_spec (file_size candidate) MAX_FILE_SIZE_BYTES); [lia|].
  destruct (resetState_released s)
    as (_ & _ & Hres & _ & Hnext & Hmode & _ & _ & Hkeep).
  set (s0 := resetState s) in *. clearbody s0.
  unfold createObjectURL. cbv zeta.
  rewrite (truthyZ_positive width), (truthyZ_positive height) by lia. cbn [andb].
  (* the sizes before the lock of resize mode *)
  set (tw := if (width >? MAX_DIMENSION) || (height >? MAX_DIMENSION)
             then JS.floor (JS.mul (inject_Z width) (fitScale width height)) else width).
  set (th := if (width >? MAX_DIMENSION) || (height >? MAX_DIMENSION)
             then JS.floor (JS.mul (inject_Z height) (fitScale width height)) else height).
  assert (Hcaps : 0 <= tw <= MAX_DIMENSION /\ 0 <= th <= MAX_DIMENSION
                  /\ (0 < tw \/ 0 < th)
                  /\ (width <= MAX_DIMENSION -> height <= MAX_DIMENSION ->
                      tw = width /\ th = height)
                  /\ (MAX_DIMENSION < width \/ MAX_DIMENSION < height ->
                      MAX_DIMENSION - 1 <= tw \/ MAX_DIMENSION - 1 <= th)).
  { subst tw th.
    destruct (Z.gtb_spec width MAX_DIMENSION), (Z.gtb_spec height MAX_DIMENSION);
      cbn [orb];
      try (destruct (fitScale_caps width height Hw Hh) as (Hc1 & Hc2 & Hc3);
           split; [exact Hc1|]; split; [exact Hc2|];
           split; [unfold MAX_DIMENSION in *; lia|];
           split; [lia | intros _; exact Hc3]).
    split; [lia|]. split; [lia|]. split; [lia|].
    split; [intros _ _; split; reflexivity | lia]. }
  destruct Hcaps as (Htw & Hth & Hsome & Hsame & Hnear).
  match goal with
  | |- context [if mode_eqb (mode ?t) Resize && keepAspectInResize ?t then _ else _] =>
      set (s1 := t)
  end.
  assert (Hs1 : targetWidth s1 = Some tw /\ targetHeight s1 = Some th
                /\ originalWidth s1 = width /\ originalHeight s1 = height
                /\ file s1 = Some candidate
                /\ objectUrl s1 = Some (nextUrl (world s))
                /\ nextUrl (world s) ∈ liveUrls (world s1)
                /\ resultUrl s1 = None /\ mode s1 = mode s
                /\ keepAspectInResize s1 = true).
  { subst s1 tw th. rewrite <- Hnext, <- Hmode.
    destruct ((width >? MAX_DIMENSION) || (height >? MAX_DIMENSION));
      destruct s0 as [? ? ? ? ? ? ? ? ? ? ? ? ? ? ? ? ? ? ? ? ? ? ? ? ? ? ? ? w0];
      destruct w0; cbn in Hres, Hkeep |- *; unfold constant;
      split_and!; try reflexivity; try assumption; set_solver. }
  clearbody s1 tw th.
  destruct Hs1 as (H1 & H2 & H3 & H4 & H5 & H6 & H7 & H8 & H9 & H10).
  rewrite H9, H10. destruct (mode s) eqn:Em; cbn [mode_eqb andb].
  - destruct (alignResize_only_targets None s1) as (tw0 & th0 & Heq).
    destruct (alignResize_from_caps s1 tw th H9 H10 H1 H2 Htw Hth Hsome) as [Ha Hb].
    destruct (alignResize_some None s1 tw th H1 H2) as (tw' & th' & Hw' & Hh').
    rewrite Hw' in Ha. rewrite Hh' in Hb. cbn in Ha, Hb.
    split_and!.
    + rewrite Heq. destruct s1; exact H3.
    + rewrite Heq. destruct s1; exact H4.
    + rewrite Heq. destruct s1; exact H5.
    + rewrite Heq. destruct s1; exact H6.
    + rewrite Heq. destruct s1; exact H7.
    + rewrite Heq. destruct s1; exact H8.
    + rewrite Heq. destruct s1; exact H9.
    + exists tw', th'. split_and!; try assumption; try lia; discriminate.
  - split_and!; try assumption.
    exists tw, th. split_and!; try assumption; try lia;
      first [discriminate | intros _; exact Hsame | intros _; exact Hnear].
Qed.

End Loaded.

(** X18.  When a file within the size limit is measured, with a width and
    a height above zero (and below [2^53], as every whole number that a
    browser reports), [handleFileSelection] keeps the object URL it
    created, which is live, and has no result URL; the measured size is
    the original size, and both target sizes are set and not above the
    maximum.  In crop mode they are the measured ones when those are
    within the maximum; when one is above it, the scaled sizes are rounded
    down from doubles, and one of them is the maximum or one pixel below
    it (8191 by 4833 for a picture of 8474 by 5000 pixels).  In resize
    mode they are 1 at least. *)
Theorem loaded_image_is_capped
    (candidate : Browser.File) (s : ImageToolkit.State) (width height : Z) :
  Browser.file_size candidate <= ImageToolkit.MAX_FILE_SIZE_BYTES ->
  0 < width < 2 ^ 53 -> 0 < height < 2 ^ 53 ->
  let s' := ImageToolkit.handleFileSelection (Some candidate) (Some (width, height)) s in
  ImageToolkit.originalWidth s' = width /\ ImageToolkit.originalHeight s' = height
  /\ ImageToolkit.file s' = Some candidate
  /\ ImageToolkit.objectUrl s' = Some (Browser.nextUrl (ImageToolkit.world s))
  /\ Browser.nextUrl (ImageToolkit.world s) ∈ Browser.liveUrls (ImageToolkit.world s')
  /\ ImageToolkit.resultUrl s' = None
  /\ ImageToolkit.mode s' = ImageToolkit.mode s
  /\ exists tw th,
       ImageToolkit.targetWidth s' = Some tw /\ ImageToolkit.targetHeight s' = Some th
       /\ 0 <= tw <= ImageToolkit.MAX_DIMENSION /\ 0 <= th <= ImageToolkit.MAX_DIMENSION
       /\ (ImageToolkit.mode s = ImageToolkit.Resize -> 1 <= tw /\ 1 <= th)
       /\ (ImageToolkit.mode s = ImageToolkit.Crop ->
           width <= ImageToolkit.MAX_DIMENSION -> height <= ImageToolkit.MAX_DIMENSION ->
           tw = width /\ th = height)
       /\ (ImageToolkit.mode s = ImageToolkit.Crop ->
           ImageToolkit.MAX_DIMENSION < width \/ ImageToolkit.MAX_DIMENSION < height ->
           ImageToolkit.MAX_DIMENSION - 1 <= tw \/ ImageToolkit.MAX_DIMENSION - 1 <= th).
Proof. apply handleFileSelection_loaded. Qed.

Lemma loaded_image_is_capped_witness :
  ImageToolkit.targetWidth wide_picture_loaded = Some 8192
  /\ ImageToolkit.targetHeight wide_picture_loaded = Some 4096
  /\ ImageToolkit.objectUrl wide_picture_loaded = Some 0%nat
  /\ (exists tw th,
       ImageToolkit.targetWidth wide_picture_loaded = Some tw
       /\ ImageToolkit.targetHeight wide_picture_loaded = Some th
       /\ 0 <= tw <= ImageToolkit.MAX_DIMENSION /\ 0 <= th <= ImageToolkit.MAX_DIMENSION)
  /\ ImageToolkit.targetWidth odd_picture_loaded = Some 8191
  /\ ImageToolkit.targetHeight odd_picture_loaded = Some 4833
  /\ (exists tw th,
       ImageToolkit.targetWidth odd_picture_loaded = Some tw
       /\ ImageToolkit.targetHeight odd_picture_loaded = Some th
       /\ (ImageToolkit.MAX_DIMENSION - 1 <= tw \/ ImageToolkit.MAX_DIMENSION - 1 <= th)).
Proof.
  split; [vm_compute; reflexivity|]. split; [vm_compute; reflexivity|].
  destruct (loaded_image_is_capped tall_picture
              (ImageToolkit.initial Browser.freshWorld) 10000 5000)
    as (_ & _ & _ & Hurl & _ & _ & _ & tw & th & Hw & Hh & Hwr & Hhr & _);
    [vm_compute; discriminate | lia | lia |].
  split; [exact Hurl|].
  split; [exists tw, th; split_and!; try assumption; lia|].
  split; [vm_compute; reflexivity|]. split; [vm_compute; reflexivity|].
  destruct (loaded_image_is_capped tall_picture
              (ImageToolkit.initial Browser.freshWorld) 8474 5000)
    as (_ & _ & _ & _ & _ & _ & _ & tw' & th' & Hw' & Hh' & _ & _ & _ & _ & Hnear);
    [vm_compute; discriminate | lia | lia |].
  exists tw', th'. split; [exact Hw'|]. split; [exact Hh'|].
  apply Hnear; [reflexivity | left; unfold ImageToolkit.MAX_DIMENSION; lia].
Defined.

(** ** Edits and resets of the sizes *)
Section Resetting.
Import Browser ImageToolkit.

(** The two clamps write the two sizes and nothing else. *)
Lemma clamps_only_targets (s : State) :
  exists tw th, clampHeight (clampWidth s) = s <| targetWidth := tw |> <| targetHeight := th |>.
Proof.
  unfold clampHeight, clampWidth.
  destruct s; cbn [targetWidth targetHeight].
  repeat (match goal with
          | |- context [if ?c then _ else _] => destruct c
          | |- context [match ?x with Some _ => _ | None => _ end] => destruct x
          end; cbn [targetWidth targetHeight apply_update]; unfold constant);
    eexists _, _; reflexivity.
Qed.

(** The clamps after the height was computed from a width, which may be
    above the maximum. *)
Lemma clamps_after_width (s : State) (w : Z) :
  targetWidth s = Some w -> 1 <= w ->
  targetHeight s = Some (Z.max 1 (JS.round (JS.div (inject_Z w) (srcRatio s)))) ->
  within_maximum (targetWidth (clampHeight (clampWidth s)))
  /\ within_maximum (targetHeight (clampHeight (clampWidth s))).
Proof.
  intros Hw Hpos Hh.
  destruct (Z.leb_spec w MAX_DIMENSION) as [Hle|Hgt].
  - apply (clamps_from_width s w); [exact Hw | lia | exact Hh].
  - rewrite (clampWidth_above s w Hw Hgt).
    set (h2 := Z.max 1 (JS.round (JS.div (inject_Z MAX_DIMENSION) (srcRatio s)))).
    set (s2 := s <| targetWidth := Some MAX_DIMENSION |> <| targetHeight := Some h2 |>).
    assert (Hw2 : targetWidth s2 = Some MAX_DIMENSION) by (subst s2; destruct s; reflexivity).
    assert (Hr2 : srcRatio s2 = srcRatio s) by (subst s2; destruct s; reflexivity).
    assert (Hh2 : targetHeight s2
                  = Some (Z.max 1 (JS.round (JS.div (inject_Z MAX_DIMENSION) (srcRatio s2)))))
      by (rewrite Hr2; subst s2; destruct s; reflexivity).
    pose proof (clamps_from_width s2 MAX_DIMENSION Hw2
                  ltac:(unfold MAX_DIMENSION; lia) Hh2) as H.
    rewrite (clampWidth_within s2 MAX_DIMENSION Hw2 ltac:(lia)) in H. exact H.
Qed.

(** [resetSizing] in resize mode, as the lock that it runs. *)
Lemma resetSizing_resize (s : State) :
  mode s = Resize -> 0 < originalWidth s -> 0 < originalHeight s ->
  let s1 := s <| targetWidth := Some (originalWidth s) |>
              <| targetHeight := Some (originalHeight s) |>
              <| maintainAspect := true |> <| keepAspectInResize := true |>
              <| selectedPresetValue := JStr CUSTOM_PRESET_VALUE |>
              <| lastChanged := None |>
              <| aspectRatio :=
                   JS.div (inject_Z (originalWidth s)) (inject_Z (originalHeight s)) |>
              <| targetHeight :=
                   Some (Z.max 1 (JS.round (JS.div (inject_Z (originalWidth s))
                                                   (srcRatio s)))) |> in
  resetSizing s = clampHeight (clampWidth s1).
Proof.
  intros Hmode Hw Hh s1.
  unfold resetSizing. cbv zeta.
  subst s1. destruct s; cbn [mode originalWidth originalHeight] in *. subst.
  cbn [mode keepAspectInResize originalWidth originalHeight apply_update mode_eqb andb].
  unfold constant. rewrite !truthyZ_positive by assumption.
  cbn [andb mode keepAspectInResize apply_update mode_eqb]. unfold constant.
  unfold alignResizeDimensionsToAspect.
  cbn [mode keepAspectInResize targetWidth targetHeight apply_update mode_eqb negb orb
       JS.truthyOptZ changed_is andb].
  rewrite !truthyZ_positive by assumption. cbn [andb negb].
  reflexivity.
Qed.

Lemma resetSizing_within (s : State) :
  mode s = Resize -> 0 < originalWidth s -> 0 < originalHeight s ->
  let s' := resetSizing s in
  within_maximum (targetWidth s') /\ within_maximum (targetHeight s')
  /\ mode s' = Resize /\ keepAspectInResize s' = true
  /\ originalWidth s' = originalWidth s /\ originalHeight s' = originalHeight s.
Proof.
  intros Hmode Hw Hh s'. subst s'.
  rewrite (resetSizing_resize s Hmode Hw Hh). cbv zeta.
  match goal with |- context [clampHeight (clampWidth ?t)] => set (s1 := t) end.
  assert (Hs1 : targetWidth s1 = Some (originalWidth s)
                /\ targetHeight s1
                   = Some (Z.max 1 (JS.round (JS.div (inject_Z (originalWidth s))
                                                     (srcRatio s1))))
                /\ mode s1 = Resize /\ keepAspectInResize s1 = true
                /\ originalWidth s1 = originalWidth s
                /\ originalHeight s1 = originalHeight s)
    by (subst s1; destruct s; cbn in *; split_and!; try reflexivity; assumption).
  clearbody s1. destruct Hs1 as (Hw1 & Hh1 & Hm1 & Hk1 & How1 & Hoh1).
  destruct (clamps_after_width s1 (originalWidth s) Hw1 ltac:(lia) Hh1) as [Ha Hb].
  destruct (clamps_only_targets s1) as (tw & th & Heq).
  split; [exact Ha|]. split; [exact Hb|].
  rewrite Heq. destruct s1; cbn in *. split_and!; assumption.
Qed.

End Resetting.

Section Edits.
Import Browser ImageToolkit.

Lemma handleTargetWidthInput_lock (s : State) (input : option Q) :
  mode s = Resize -> keepAspectInResize s = true ->
  exists tw th, handleTargetWidthInput input s
                = s <| targetWidth := tw |> <| targetHeight := th |>
                    <| selectedPresetValue := JStr CUSTOM_PRESET_VALUE |>
                    <| lastChanged := Some Width |>.
Proof.
  intros Hmode Hkeep.
  replace (handleTargetWidthInput input s)
    with (alignResizeDimensionsToAspect (Some Width)
            (s <| targetWidth := nextValue input |>
               <| selectedPresetValue := JStr CUSTOM_PRESET_VALUE |>
               <| lastChanged := Some Width |>))
    by (unfold handleTargetWidthInput; destruct s; cbn in *; subst; reflexivity).
  match goal with |- context [alignResizeDimensionsToAspect ?c ?t] =>
    destruct (alignResize_only_targets c t) as (tw & th & ->) end.
  exists tw, th. destruct s; reflexivity.
Qed.

Lemma handleTargetHeightInput_lock (s : State) (input : option Q) :
  mode s = Resize -> keepAspectInResize s = true ->
  exists tw th, handleTargetHeightInput input s
                = s <| targetWidth := tw |> <| targetHeight := th |>
                    <| selectedPresetValue := JStr CUSTOM_PRESET_VALUE |>
                    <| lastChanged := Some Height |>.
Proof.
  intros Hmode Hkeep.
  replace (handleTargetHeightInput input s)
    with (alignResizeDimensionsToAspect (Some Height)
            (s <| targetHeight := nextValue input |>
               <| selectedPresetValue := JStr CUSTOM_PRESET_VALUE |>
               <| lastChanged := Some Height |>))
    by (unfold handleTargetHeightInput; destruct s; cbn in *; subst; reflexivity).
  match goal with |- context [alignResizeDimensionsToAspect ?c ?t] =>
    destruct (alignResize_only_targets c t) as (tw & th & ->) end.
  exists tw, th. destruct s; reflexivity.
Qed.

(** One edit keeps what the lock of resize mode needs. *)
Lemma applySizeEdit_within (s : State) (e : SizeEdit) :
  mode s = Resize -> keepAspectInResize s = true ->
  0 < originalWidth s -> 0 < originalHeight s ->
  within_maximum (targetWidth s) -> within_maximum (targetHeight s) ->
  let s' := applySizeEdit s e in
  within_maximum (targetWidth s') /\ within_maximum (targetHeight s')
  /\ mode s' = Resize /\ keepAspectInResize s' = true
  /\ originalWidth s' = originalWidth s /\ originalHeight s' = originalHeight s.
Proof.
  intros Hmode Hkeep How Hoh Hw Hh s'. subst s'.
  destruct e as [input|input|]; cbn [applySizeEdit].
  - destruct (resize_edits_within_maximum s input Hmode Hkeep Hw Hh)
      as [[Hw1 Hh1] _].
    destruct (handleTargetWidthInput_lock s input Hmode Hkeep) as (tw & th & Heq).
    split; [exact Hw1|]. split; [exact Hh1|].
    rewrite Heq. destruct s; cbn in *. split_and!; try assumption; reflexivity.
  - destruct (resize_edits_within_maximum s input Hmode Hkeep Hw Hh)
      as [_ [Hw2 Hh2]].
    destruct (handleTargetHeightInput_lock s input Hmode Hkeep) as (tw & th & Heq).
    split; [exact Hw2|]. split; [exact Hh2|].
    rewrite Heq. destruct s; cbn in *. split_and!; try assumption; reflexivity.
  - apply resetSizing_within; assumption.
Qed.

Lemma edits_within_maximum (edits : list SizeEdit) (s : State) :
  mode s = Resize -> keepAspectInResize s = true ->
  0 < originalWidth s -> 0 < originalHeight s ->
  within_maximum (targetWidth s) -> within_maximum (targetHeight s) ->
  let s' := foldl applySizeEdit s edits in
  within_maximum (targetWidth s') /\ within_maximum (targetHeight s')
  /\ mode s' = Resize /\ keepAspectInResize s' = true
  /\ originalWidth s' = originalWidth s /\ originalHeight s' = originalHeight s.
Proof.
  revert s. induction edits as [|e edits IH]; intros s Hmode Hkeep How Hoh Hw Hh.
  - cbn. split_and!; try assumption; reflexivity.
  - cbn [foldl].
    destruct (applySizeEdit_within s e Hmode Hkeep How Hoh Hw Hh)
      as (Hw' & Hh' & Hm' & Hk' & How' & Hoh').
    destruct (IH (applySizeEdit s e) Hm' Hk' ltac:(lia) ltac:(lia) Hw' Hh')
      as (A & B & C & D & E & F).
    split_and!; try assumption; congruence.
Qed.

End Edits.

(** X19.  In resize mode with the aspect lock on and a picture loaded,
    whatever is typed into the two size fields and however often the
    sizes are reset, in any order, both target sizes stay empty or between
    1 and the maximum, and the mode, the lock and the original size stay
    as they are. *)
Theorem size_fields_stay_within_maximum
    (edits : list ImageToolkit.SizeEdit) (s : ImageToolkit.State) :
  ImageToolkit.mode s = ImageToolkit.Resize ->
  ImageToolkit.keepAspectInResize s = true ->
  0 < ImageToolkit.originalWidth s -> 0 < ImageToolkit.originalHeight s ->
  ImageToolkit.within_maximum (ImageToolkit.targetWidth s) ->
  ImageToolkit.within_maximum (ImageToolkit.targetHeight s) ->
  let s' := foldl ImageToolkit.applySizeEdit s edits in
  ImageToolkit.within_maximum (ImageToolkit.targetWidth s')
  /\ ImageToolkit.within_maximum (ImageToolkit.targetHeight s')
  /\ ImageToolkit.mode s' = ImageToolkit.Resize
  /\ ImageToolkit.keepAspectInResize s' = true
  /\ ImageToolkit.originalWidth s' = ImageToolkit.originalWidth s
  /\ ImageToolkit.originalHeight s' = ImageToolkit.originalHeight s.
Proof. apply edits_within_maximum. Qed.

Lemma size_fields_stay_within_maximum_witness :
  let s' := foldl ImageToolkit.applySizeEdit small_picture_resize rough_edits in
  ImageToolkit.within_maximum (ImageToolkit.targetWidth s')
  /\ ImageToolkit.within_maximum (ImageToolkit.targetHeight s').
Proof.
  intros s'.
  destruct (size_fields_stay_within_maximum rough_edits small_picture_resize)
    as (Hw & Hh & _);
    [reflexivity | reflexivity | reflexivity | reflexivity
    | vm_compute; split; discriminate | vm_compute; split; discriminate |].
  split; [exact Hw | exact Hh].
Defined.

(** ** Presets and shapes *)
Section Presets.
Import Browser ImageToolkit.

Lemma round_inject (n : Z) : JS.round (inject_Z n) = n.
Proof. apply round_whole. Qed.

Lemma positiveQ_ratio (w h : Z) :
  0 < w -> 0 < h < 2 ^ 53 -> positiveQ (JS.div (inject_Z w) (inject_Z h)) = true.
Proof.
  intros Hw Hh. unfold positiveQ, JS.Qgtb.
  destruct (Qle_bool (JS.div (inject_Z w) (inject_Z h)) 0) eqn:E; [|reflexivity].
  apply Qle_bool_iff in E. pose proof (div_positive w h Hw Hh). lra.
Qed.

(** With both sizes set, the lock of crop mode only writes the ratio. *)
Lemma alignTarget_keeps (changed : option Changed) (s : State) (tw th : Z) :
  targetWidth s = Some tw -> targetHeight s = Some th -> 0 < tw -> 0 < th ->
  alignTargetDimensionsToAspect changed s = s
  \/ alignTargetDimensionsToAspect changed s
     = s <| aspectRatio := JS.div (inject_Z tw) (inject_Z th) |>.
Proof.
  intros Hw Hh Htw Hth. unfold alignTargetDimensionsToAspect.
  destruct (negb (mode_eqb (mode s) Crop) || negb (maintainAspect s)); [left; reflexivity|].
  rewrite Hw, Hh. cbn [JS.truthyOptZ].
  rewrite (truthyZ_positive tw Htw), (truthyZ_positive th Hth). cbn [andb].
  change (num (Some tw)) with (inject_Z tw). change (num (Some th)) with (inject_Z th).
  destruct (positiveQ _); [right | left]; reflexivity.
Qed.

(** What a handler keeps when it writes the ratio, the shape and the lock
    of crop mode at most. *)
Lemma applyCropShape_square (s : State) (tw th : Z) :
  targetWidth s = Some tw -> targetHeight s = Some th -> 0 < tw -> 0 < th ->
  exists r, applyCropShape Square s = s <| cropShape := Square |> <| aspectRatio := r |>.
Proof.
  intros Hw Hh Htw Hth. unfold applyCropShape. cbv zeta.
  set (s1 := s <| cropShape := Square |>).
  assert (Hw1 : targetWidth s1 = Some tw) by (subst s1; destruct s; exact Hw).
  assert (Hh1 : targetHeight s1 = Some th) by (subst s1; destruct s; exact Hh).
  destruct (mode_eqb (mode s1) Crop && maintainAspect s1).
  - destruct (alignTarget_keeps None s1 tw th Hw1 Hh1 Htw Hth) as [-> | ->].
    + exists (aspectRatio s). subst s1. destruct s; reflexivity.
    + eexists. reflexivity.
  - exists (aspectRatio s). subst s1. destruct s; reflexivity.
Qed.

Lemma presets_in_range :
  Forall (fun p => 1 <= preset_width p <= MAX_DIMENSION
                   /\ 1 <= preset_height p <= MAX_DIMENSION
                   /\ preset_shape p <> Some Circle
                   /\ String.eqb (preset_value p) CUSTOM_PRESET_VALUE = false)
         PRESET_OPTIONS.
Proof.
  unfold PRESET_OPTIONS, MAX_DIMENSION.
  repeat constructor; cbn; try lia; try discriminate; try reflexivity.
Qed.

Lemma applyPresetDimensions_sizes (preset : PresetOption) (s : State) :
  1 <= preset_width preset <= MAX_DIMENSION ->
  1 <= preset_height preset <= MAX_DIMENSION ->
  preset_shape preset <> Some Circle ->
  let s' := applyPresetDimensions preset s in
  let passport := JS.startsWith (preset_value preset) "passport_" in
  selectedPresetValue s' = JStr (preset_value preset)
  /\ mode s' = (if passport then Crop else mode s)
  /\ (passport = true ->
      selectedFormatValue s' = JStr "image/jpeg" /\ cropShape s' = Square
      /\ maintainAspect s' = true)
  /\ (exists tw th, targetWidth s' = Some tw /\ targetHeight s' = Some th
                    /\ 1 <= tw <= MAX_DIMENSION /\ 1 <= th <= MAX_DIMENSION
                    /\ (mode s' = Crop \/ keepAspectInResize s = false ->
                        tw = preset_width preset /\ th = preset_height preset)).
Proof.
  intros Hpw Hph Hshape s' passport. subst s'.
  unfold applyPresetDimensions.
  rewrite !round_inject.
  rewrite !Z.max_r by lia.
  destruct (Z.gtb_spec (preset_width preset) MAX_DIMENSION); [lia|].
  destruct (Z.gtb_spec (preset_height preset) MAX_DIMENSION); [lia|].
  cbn [orb]. cbv zeta.
  rewrite positiveQ_ratio by (unfold MAX_DIMENSION in *; lia).
  fold passport.
  set (pw := preset_width preset) in *. set (ph := preset_height preset) in *.
  set (ratio := JS.div (inject_Z pw) (inject_Z ph)).
  set (s2 := s <| selectedPresetValue := JStr (preset_value preset) |>
               <| targetWidth := Some pw |> <| targetHeight := Some ph |>
               <| aspectRatio := ratio |>).
  (* after the choice between a passport preset and another one *)
  match goal with
  | |- context [match preset_shape preset with
                | Some shape => applyCropShape shape ?t
                | None => ?t
                end] => set (s3 := t)
  end.
  assert (Hs3 : targetWidth s3 = Some pw /\ targetHeight s3 = Some ph
                /\ selectedPresetValue s3 = JStr (preset_value preset)
                /\ mode s3 = (if passport then Crop else mode s)
                /\ keepAspectInResize s3 = keepAspectInResize s
                /\ originalWidth s3 = originalWidth s
                /\ originalHeight s3 = originalHeight s
                /\ (passport = true ->
                    selectedFormatValue s3 = JStr "image/jpeg" /\ cropShape s3 = Square
                    /\ maintainAspect s3 = true)).
  { subst s3. destruct passport.
    - subst s2. destruct s; cbn. split_and!; try reflexivity. intros _. split_and!; reflexivity.
    - destruct (preset_shape preset) as [shape|].
      + subst s2. destruct s; cbn. split_and!; try reflexivity. discriminate.
      + set (s2' := s2 <| maintainAspect := default true (preset_maintainAspect preset) |>).
        assert (Hw2 : targetWidth s2' = Some pw) by (subst s2' s2; destruct s; reflexivity).
        assert (Hh2 : targetHeight s2' = Some ph) by (subst s2' s2; destruct s; reflexivity).
        destruct (shape_is_circle (cropShape s2')).
        * destruct (applyCropShape_square s2' pw ph Hw2 Hh2 ltac:(lia) ltac:(lia))
            as (r & ->).
          subst s2' s2. destruct s; cbn. split_and!; try reflexivity. discriminate.
        * subst s2' s2. destruct s; cbn. split_and!; try reflexivity. discriminate. }
  clearbody s3. clear s2.
  destruct Hs3 as (Hw3 & Hh3 & Hp3 & Hm3 & Hk3 & How3 & Hoh3 & Hpass3).
  (* after the shape of the preset *)
  set (s4 := match preset_shape preset with
             | Some shape => applyCropShape shape s3
             | None => s3
             end).
  assert (Hs4 : exists r, s4 = s3 \/ s4 = s3 <| cropShape := Square |> <| aspectRatio := r |>).
  { subst s4. destruct (preset_shape preset) as [[|]|].
    - destruct (applyCropShape_square s3 pw ph Hw3 Hh3 ltac:(lia) ltac:(lia)) as (r & ->).
      exists r. right. reflexivity.
    - contradiction.
    - exists 0%Q. left. reflexivity. }
  destruct Hs4 as (r4 & Hs4).
  assert (Hs4' : targetWidth s4 = Some pw /\ targetHeight s4 = Some ph
                 /\ selectedPresetValue s4 = JStr (preset_value preset)
                 /\ mode s4 = (if passport then Crop else mode s)
                 /\ keepAspectInResize s4 = keepAspectInResize s
                 /\ originalWidth s4 = originalWidth s
                 /\ originalHeight s4 = originalHeight s
                 /\ (passport = true ->
                     selectedFormatValue s4 = JStr "image/jpeg" /\ cropShape s4 = Square
                     /\ maintainAspect s4 = true)).
  { destruct Hs4 as [-> | ->].
    - split_and!; assumption.
    - destruct s3; cbn in *. split_and!; try assumption.
      intros Hp. destruct (Hpass3 Hp) as (A & B & C). split_and!; [exact A | reflexivity | exact C]. }
  clearbody s4. clear Hs4 s3 Hw3 Hh3 Hp3 Hm3 Hk3 How3 Hoh3 Hpass3.
  destruct Hs4' as (Hw4 & Hh4 & Hp4 & Hm4 & Hk4 & How4 & Hoh4 & Hpass4).
  (* the lock of resize mode *)
  set (s5 := if mode_eqb (mode s4) Resize && keepAspectInResize s4
             then alignResizeDimensionsToAspect None s4 else s4).
  assert (Hs5 : exists tw th,
             targetWidth s5 = Some tw /\ targetHeight s5 = Some th
             /\ 1 <= tw <= MAX_DIMENSION /\ 1 <= th <= MAX_DIMENSION
             /\ (mode s4 = Crop \/ keepAspectInResize s4 = false -> tw = pw /\ th = ph)
             /\ selectedPresetValue s5 = selectedPresetValue s4
             /\ mode s5 = mode s4
             /\ selectedFormatValue s5 = selectedFormatValue s4
             /\ cropShape s5 = cropShape s4
             /\ maintainAspect s5 = maintainAspect s4).
  { subst s5. destruct (mode_eqb (mode s4) Resize && keepAspectInResize s4) eqn:Elock.
    - apply andb_prop in Elock as [Emode Ekeep].
      assert (mode s4 = Resize) as Hmode4 by (destruct (mode s4); [reflexivity | discriminate]).
      destruct (alignResize_within None s4) as [Ha Hb];
        [rewrite Hw4; cbn; lia | rewrite Hh4; cbn; lia |].
      destruct (alignResize_some None s4 pw ph Hw4 Hh4) as (tw & th & Hw5 & Hh5).
      destruct (alignResize_only_targets None s4) as (tw0 & th0 & Heq).
      rewrite Hw5 in Ha. rewrite Hh5 in Hb. cbn in Ha, Hb.
      exists tw, th. split_and!; try assumption; try lia.
      + intros [Hc | Hk]; [congruence | congruence].
      + rewrite Heq. destruct s4; reflexivity.
      + rewrite Heq. destruct s4; reflexivity.
      + rewrite Heq. destruct s4; reflexivity.
      + rewrite Heq. destruct s4; reflexivity.
      + rewrite Heq. destruct s4; reflexivity.
    - exists pw, ph. split_and!; try assumption; try lia; reflexivity. }
  clearbody s5.
  destruct Hs5 as (tw & th & Hw5 & Hh5 & Htw & Hth & Hsame & Hp5 & Hm5 & Hf5 & Hc5 & Ha5).
  (* the lock of crop mode *)
  assert (Hs6 : exists r,
             (if mode_eqb (mode s5) Crop && maintainAspect s5
              then alignTargetDimensionsToAspect None s5 else s5)
             = s5 <| aspectRatio := r |>).
  { destruct (mode_eqb (mode s5) Crop && maintainAspect s5).
    - destruct (alignTarget_keeps None s5 tw th Hw5 Hh5 ltac:(lia) ltac:(lia)) as [-> | ->].
      + exists (aspectRatio s5). destruct s5; reflexivity.
      + eexists. reflexivity.
    - exists (aspectRatio s5). destruct s5; reflexivity. }
  destruct Hs6 as (r6 & ->).
  destruct s5; cbn in *. subst.
  split_and!; try assumption.
  exists tw, th. split_and!; try reflexivity; try lia.
  intros Hcase. apply Hsame.
  destruct Hcase as [Hc | Hk]; [left; exact Hc | right; congruence].
Qed.

Lemma PRESET_LOOKUP_sg :
  exists preset, PRESET_LOOKUP "passport_sg" = Some preset
                 /\ preset_width preset = 400 /\ preset_height preset = 514.
Proof. eexists. split; [reflexivity|]. split; reflexivity. Qed.

End Presets.

(** X20.  Choosing one of the presets of the list sets both target sizes
    within 1 and the maximum, and to
    the very size of the preset when the component ends in crop mode or
    the lock of resize mode is off.  A passport preset switches to crop
    mode with JPEG output, a square crop and the aspect lock on; every
    other preset keeps the mode.  A value that is no preset of the list
    only marks the sizes as custom. *)
Theorem preset_sizes_within_maximum (value : string) (s : ImageToolkit.State) :
  (forall preset,
      ImageToolkit.PRESET_LOOKUP value = Some preset ->
      let s' := ImageToolkit.onPresetSelect value s in
      let passport := JS.startsWith value "passport_" in
      ImageToolkit.selectedPresetValue s' = Browser.JStr value
      /\ ImageToolkit.mode s' = (if passport then ImageToolkit.Crop else ImageToolkit.mode s)
      /\ (passport = true ->
          ImageToolkit.selectedFormatValue s' = Browser.JStr "image/jpeg"
          /\ ImageToolkit.cropShape s' = ImageToolkit.Square
          /\ ImageToolkit.maintainAspect s' = true)
      /\ exists tw th,
           ImageToolkit.targetWidth s' = Some tw /\ ImageToolkit.targetHeight s' = Some th
           /\ 1 <= tw <= ImageToolkit.MAX_DIMENSION /\ 1 <= th <= ImageToolkit.MAX_DIMENSION
           /\ (ImageToolkit.mode s' = ImageToolkit.Crop
               \/ ImageToolkit.keepAspectInResize s = false ->
               tw = ImageToolkit.preset_width preset
               /\ th = ImageToolkit.preset_height preset))
  /\ (ImageToolkit.PRESET_LOOKUP value = None ->
      ImageToolkit.onPresetSelect value s
      = s <| ImageToolkit.selectedPresetValue :=
               Browser.JStr ImageToolkit.CUSTOM_PRESET_VALUE |>).
Proof.
  split.
  - intros preset Hfind.
    unfold ImageToolkit.PRESET_LOOKUP in Hfind.
    apply List.find_some in Hfind as [Hin Hvalue].
    apply String.eqb_eq in Hvalue. subst value.
    pose proof presets_in_range as Hall. rewrite Forall_forall in Hall.
    destruct (Hall preset (proj2 (list_elem_of_In _ _) Hin)) as (Hpw & Hph & Hshape & Hcustom).
    assert (Hfind : ImageToolkit.PRESET_LOOKUP (ImageToolkit.preset_value preset)
                    = Some preset).
    { clear -Hin. unfold ImageToolkit.PRESET_LOOKUP, ImageToolkit.PRESET_OPTIONS in *.
      cbn in Hin. intuition (subst; try reflexivity; try contradiction). }
    cbv zeta. unfold ImageToolkit.onPresetSelect. rewrite Hcustom, Hfind.
    apply applyPresetDimensions_sizes; assumption.
  - intros Hnone. unfold ImageToolkit.onPresetSelect. rewrite Hnone.
    destruct (String.eqb value ImageToolkit.CUSTOM_PRESET_VALUE); reflexivity.
Qed.

Lemma preset_sizes_within_maximum_witness :
  let s' := ImageToolkit.onPresetSelect "passport_sg" small_picture_resize in
  ImageToolkit.mode s' = ImageToolkit.Crop
  /\ ImageToolkit.selectedFormatValue s' = Browser.JStr "image/jpeg"
  /\ ImageToolkit.targetWidth s' = Some 400
  /\ ImageToolkit.targetHeight s' = Some 514.
Proof.
  intros s'.
  destruct (preset_sizes_within_maximum "passport_sg" small_picture_resize) as [H _].
  destruct (PRESET_LOOKUP_sg) as [preset [Hfind [Hpw Hph]]].
  destruct (H preset Hfind) as (_ & Hmode & Hpass & tw & th & Hw & Hh & _ & _ & Hsame).
  destruct (Hpass eq_refl) as (Hfmt & _ & _).
  destruct (Hsame (or_introl Hmode)) as [-> ->].
  split; [exact Hmode|]. split; [exact Hfmt|].
  fold s' in Hw, Hh. rewrite Hw, Hh, Hpw, Hph. split; reflexivity.
Defined.

(** X21.  Choosing the circle makes the output square: both target sizes
    become the smaller of the two sizes that were set (the original size
    standing for a size that is not set), and 1 at least; the aspect lock
    is on and the ratio is 1. *)
Theorem circle_makes_square (s : ImageToolkit.State) :
  let s' := ImageToolkit.applyCropShape ImageToolkit.Circle s in
  let size :=
    Z.max 1 (Z.min (default (ImageToolkit.originalWidth s) (ImageToolkit.targetWidth s))
                   (default (ImageToolkit.originalHeight s) (ImageToolkit.targetHeight s))) in
  ImageToolkit.cropShape s' = ImageToolkit.Circle
  /\ ImageToolkit.targetWidth s' = Some size
  /\ ImageToolkit.targetHeight s' = Some size
  /\ ImageToolkit.maintainAspect s' = true
  /\ (ImageToolkit.aspectRatio s' == 1)%Q
  /\ ImageToolkit.mode s' = ImageToolkit.mode s.
Proof.
  intros s' size.
  set (s1 := s <| ImageToolkit.cropShape := ImageToolkit.Circle |>
               <| ImageToolkit.maintainAspect := true |>
               <| ImageToolkit.targetWidth := Some size |>
               <| ImageToolkit.targetHeight := Some size |>
               <| ImageToolkit.aspectRatio := 1%Q |>).
  assert (Heq : s' = if ImageToolkit.mode_eqb (ImageToolkit.mode s1) ImageToolkit.Crop
                        && ImageToolkit.maintainAspect s1
                     then ImageToolkit.alignTargetDimensionsToAspect None s1 else s1).
  { subst s' s1 size. unfold ImageToolkit.applyCropShape. cbv zeta.
    rewrite round_inject. destruct s; reflexivity. }
  rewrite Heq. clear Heq s'.
  assert (Hsize : 0 < size) by (subst size; lia).
  assert (Hs1 : ImageToolkit.cropShape s1 = ImageToolkit.Circle
                /\ ImageToolkit.targetWidth s1 = Some size
                /\ ImageToolkit.targetHeight s1 = Some size
                /\ ImageToolkit.maintainAspect s1 = true
                /\ ImageToolkit.aspectRatio s1 = 1%Q
                /\ ImageToolkit.mode s1 = ImageToolkit.mode s)
    by (subst s1; destruct s; split_and!; reflexivity).
  clearbody s1.
  destruct Hs1 as (Hc & Hw & Hh & Hm & Hr & Hmode).
  destruct (ImageToolkit.mode_eqb (ImageToolkit.mode s1) ImageToolkit.Crop
            && ImageToolkit.maintainAspect s1).
  - destruct (alignTarget_keeps None s1 size size Hw Hh Hsize Hsize) as [-> | ->].
    + split_and!; try assumption. rewrite Hr. reflexivity.
    + assert (Hone : (inject_Z size / inject_Z size == 1)%Q)
        by (field; pose proof (inject_Z_pos size Hsize); lra).
      assert (Hdiv : JS.div (inject_Z size) (inject_Z size) = 1%Q)
        by (unfold JS.div; rewrite (binary64_comp _ _ Hone); reflexivity).
      rewrite Hdiv.
      destruct s1; split_and!; try assumption. reflexivity.
  - split_and!; try assumption. rewrite Hr. reflexivity.
Qed.

(** ** Publishing the result *)
Section Publishing.
Import Browser ImageToolkit.

(** Break a block of statements down to its assignments. *)
Ltac frame_step :=
  lazymatch goal with
  | |- preserves _ (mret _) => apply preserves_ret
  | |- preserves _ (throw _) => apply preserves_throw
  | |- preserves _ (gets _) => apply preserves_gets
  | |- preserves _ (mbind _ _) => apply preserves_bind; [|intros ?]
  | |- preserves _ (modify _) => apply preserves_modify; intros ?
  | |- preserves _ (match ?x with _ => _ end) => destruct x
  end.

(** The statements that prepare the canvas touch the browser, the cropper
    and the ratio of the crop box, and no other variable. *)
Lemma prepareCanvas_frame {B} (g : State -> B) env width height :
  (forall s wd, g (s <| world := wd |>) = g s) ->
  (forall s c, g (s <| cropper := c |>) = g s) ->
  (forall s r, g (s <| aspectRatio := r |>) = g s) ->
  preserves g (prepareCanvas env width height).
Proof.
  intros Hw Hc Hr.
  assert (Hd : forall s, g (destroyCropper s) = g s).
  { intros s. unfold destroyCropper. destruct (cropper s); [|reflexivity].
    rewrite Hc, Hw. reflexivity. }
  unfold prepareCanvas, canvasViaCropperFullFrame, canvasFromOriginal,
    loadOrientedImageElement, maskCanvasToCircle, stretchCanvas, newCanvas.
  repeat frame_step;
    repeat match goal with |- context [if ?c then _ else _] => destruct c end;
    rewrite ?Hd, ?Hc, ?Hw, ?Hr; reflexivity.
Qed.

Lemma cleanupResultUrl_cases (s : State) :
  (resultUrl s = None /\ cleanupResultUrl s = s)
  \/ (exists u, resultUrl s = Some u
      /\ cleanupResultUrl s
         = s <| world := revokeObjectURL u (world s) |>
             <| resultUrl := None |> <| resultSize := 0 |>
             <| lastBlob := None |> <| lastDownloadName := None |>).
Proof.
  unfold cleanupResultUrl. destruct (resultUrl s) as [u|].
  - right. exists u. split; reflexivity.
  - left. split; reflexivity.
Qed.

Lemma beginProcessing_frame (downloadNow : bool) (s : State) :
  errorMessage (beginProcessing downloadNow s) = ""%string
  /\ addPrivateSuffix (beginProcessing downloadNow s) = addPrivateSuffix s
  /\ resultUrl (beginProcessing downloadNow s)
     = (if downloadNow then None else resultUrl s).
Proof.
  unfold beginProcessing. cbv zeta.
  set (s1 := s <| errorMessage := "" |> <| statusMessage := "Processing…" |>
               <| processing := true |>).
  set (s2 := if downloadNow then cleanupResultUrl s1 else s1).
  assert (H2 : errorMessage s2 = ""%string
               /\ addPrivateSuffix s2 = addPrivateSuffix s
               /\ resultUrl s2 = (if downloadNow then None else resultUrl s)).
  { subst s2. destruct downloadNow.
    - destruct (cleanupResultUrl_cases s1) as [[Hn ->] | (u & Hu & ->)].
      + subst s1. destruct s; cbn in *. split_and!; try reflexivity. exact Hn.
      + subst s1. destruct s; cbn in *. split_and!; reflexivity.
    - subst s1. destruct s; split_and!; reflexivity. }
  clearbody s2. clear s1.
  destruct (mode_eqb (mode s2) Resize && keepAspectInResize s2); [|exact H2].
  destruct (alignResize_only_targets (Some (default Width (lastChanged s2))) s2)
    as (tw & th & ->).
  destruct s2; exact H2.
Qed.

Lemma file_reads : reads_settings file.
Proof. intros s s' _ _ H. exact H. Qed.

End Publishing.

(** What [generateResult] leaves when the canvas is ready and the blob is
    encoded. *)
Lemma generateResult_published
    (env : ImageToolkit.Env) (downloadNow : bool) (s s2 : ImageToolkit.State)
    (f : Browser.File) (canvas : Browser.Canvas) (blob : Browser.Blob) :
  let s1 := ImageToolkit.beginProcessing downloadNow s in
  let format := ImageToolkit.selectedFormat s in
  let qualityOption :=
    if ImageToolkit.fmt_lossless format then None else Some (ImageToolkit.quality s) in
  ImageToolkit.file s = Some f ->
  ImageToolkit.prepareCanvas env
    (ImageToolkit.outputWidth s1) (ImageToolkit.outputHeight s1) s1 = (s2, inr canvas) ->
  ImageToolkit.toBlob env canvas (ImageToolkit.fmt_value format) qualityOption = Some blob ->
  let s' := ImageToolkit.generateResult env downloadNow s in
  let name :=
    FileUtil.deriveFileName (Browser.file_name f) (ImageToolkit.fmt_extension format)
      (if ImageToolkit.addPrivateSuffix s then Some "private"%string else None) in
  ImageToolkit.errorMessage s' = ""%string
  /\ ImageToolkit.processing s' = false
  /\ ImageToolkit.statusMessage s' = ImageToolkit.readyMessage blob canvas
  /\ ImageToolkit.resultUrl s' = Some (Browser.nextUrl (ImageToolkit.world s2))
  /\ Browser.nextUrl (ImageToolkit.world s2) ∈ Browser.liveUrls (ImageToolkit.world s')
  /\ ImageToolkit.lastDownloadName s' = Some name
  /\ (downloadNow = true ->
      ImageToolkit.lastBlob s' = Some blob
      /\ ImageToolkit.resultSize s' = Browser.blob_size blob
      /\ Browser.downloads (ImageToolkit.world s')
         = Browser.downloads (ImageToolkit.world s2)
           ++ [(S (Browser.nextUrl (ImageToolkit.world s2)), name)])
  /\ (downloadNow = false ->
      Browser.downloads (ImageToolkit.world s') = Browser.downloads (ImageToolkit.world s2)
      /\ ImageToolkit.lastBlob s'
         = match ImageToolkit.resultUrl s with Some _ => None | None => Some blob end
      /\ ImageToolkit.resultSize s'
         = match ImageToolkit.resultUrl s with
           | Some _ => 0
           | None => Browser.blob_size blob
           end).
Proof.
  intros s1 format qualityOption Hfile Hcanvas Hblob s' name.
  assert (Hkept : forall {B} (g : ImageToolkit.State -> B),
             ImageToolkit.reads_settings g -> g s2 = g s).
  { intros B g Hg.
    pose proof (prepareCanvas_preserves g env (ImageToolkit.outputWidth s1)
                  (ImageToolkit.outputHeight s1) Hg s1) as H.
    rewrite Hcanvas in H. cbn in H. rewrite H.
    apply (settings_kept_by (ImageToolkit.beginProcessing downloadNow)
             (beginProcessing_settings downloadNow)), Hg. }
  assert (Hframe : forall {B} (g : ImageToolkit.State -> B),
             (forall s wd, g (s <| ImageToolkit.world := wd |>) = g s) ->
             (forall s c, g (s <| ImageToolkit.cropper := c |>) = g s) ->
             (forall s r, g (s <| ImageToolkit.aspectRatio := r |>) = g s) ->
             g s2 = g s1).
  { intros B g Hw Hc Hr.
    pose proof (prepareCanvas_frame g env (ImageToolkit.outputWidth s1)
                  (ImageToolkit.outputHeight s1) Hw Hc Hr s1) as H.
    rewrite Hcanvas in H. exact H. }
  destruct (beginProcessing_frame downloadNow s) as (Herr1 & Hpriv1 & Hres1).
  fold s1 in Herr1, Hpriv1, Hres1.
  assert (Herr2 : ImageToolkit.errorMessage s2 = ""%string).
  { rewrite <- Herr1. apply Hframe; intros [] ?; reflexivity. }
  assert (Hpriv2 : ImageToolkit.addPrivateSuffix s2 = ImageToolkit.addPrivateSuffix s).
  { rewrite <- Hpriv1. apply Hframe; intros [] ?; reflexivity. }
  assert (Hres2 : ImageToolkit.resultUrl s2
                  = if downloadNow then None else ImageToolkit.resultUrl s).
  { rewrite <- Hres1. apply Hframe; intros [] ?; reflexivity. }
  assert (Hfile2 : ImageToolkit.file s2 = Some f).
  { rewrite <- Hfile. apply Hkept, file_reads. }
  (* the state after the blob is stored and the earlier result is cleaned up *)
  set (sA := ImageToolkit.cleanupResultUrl
               (s2 <| ImageToolkit.lastBlob := Some blob |>
                   <| ImageToolkit.resultSize := Browser.blob_size blob |>)).
  set (sB := sA <| ImageToolkit.world := snd (Browser.createObjectURL (ImageToolkit.world sA)) |>
                <| ImageToolkit.resultUrl := Some (Browser.nextUrl (ImageToolkit.world sA)) |>
                <| ImageToolkit.statusMessage := ImageToolkit.readyMessage blob canvas |>
                <| ImageToolkit.lastDownloadName := Some name |>).
  assert (Htry :
    ImageToolkit.tryBlock env downloadNow
      (ImageToolkit.outputWidth s1) (ImageToolkit.outputHeight s1) s1
    = (if downloadNow
       then sB <| ImageToolkit.world :=
                    Download.downloadBlob blob name (ImageToolkit.world sB) |>
       else sB, inr tt)).
  { unfold ImageToolkit.tryBlock.
    unfold mbind at 1. unfold ImageToolkit.M_bind at 1. rewrite Hcanvas.
    unfold mbind, ImageToolkit.M_bind, ImageToolkit.gets.
    rewrite (Hkept _ _ selectedFormat_reads), (Hkept _ _ quality_reads).
    fold format. fold qualityOption.
    unfold ImageToolkit.canvasToBlob. rewrite Hblob.
    unfold mret, ImageToolkit.M_ret, ImageToolkit.modify. fold sA.
    assert (HfA : ImageToolkit.file sA = Some f).
    { subst sA. destruct (cleanupResultUrl_cases
                            (s2 <| ImageToolkit.lastBlob := Some blob |>
                                <| ImageToolkit.resultSize := Browser.blob_size blob |>))
        as [[_ ->] | (u & _ & ->)]; destruct s2; exact Hfile2. }
    assert (HpA : ImageToolkit.addPrivateSuffix sA = ImageToolkit.addPrivateSuffix s).
    { subst sA. destruct (cleanupResultUrl_cases
                            (s2 <| ImageToolkit.lastBlob := Some blob |>
                                <| ImageToolkit.resultSize := Browser.blob_size blob |>))
        as [[_ ->] | (u & _ & ->)]; destruct s2; exact Hpriv2. }
    subst sB name. clearbody sA.
    destruct sA as [? ? ? ? ? ? ? ? ? ? ? ? ? ? ? ? ? ? ? ? ? ? ? ? ? ? ? ? wA].
    cbn [ImageToolkit.file ImageToolkit.addPrivateSuffix] in HfA, HpA. subst.
    destruct wA. destruct downloadNow; reflexivity. }
  subst s'. unfold ImageToolkit.generateResult. rewrite Hfile. fold s1. rewrite Htry.
  clear Htry.
  (* what the cleanup leaves *)
  assert (HA : Browser.nextUrl (ImageToolkit.world sA) = Browser.nextUrl (ImageToolkit.world s2)
               /\ Browser.downloads (ImageToolkit.world sA)
                  = Browser.downloads (ImageToolkit.world s2)
               /\ ImageToolkit.errorMessage sA = ""%string
               /\ ImageToolkit.lastBlob sA
                  = match ImageToolkit.resultUrl s2 with Some _ => None | None => Some blob end
               /\ ImageToolkit.resultSize sA
                  = match ImageToolkit.resultUrl s2 with
                    | Some _ => 0
                    | None => Browser.blob_size blob
                    end).
  { subst sA. destruct (cleanupResultUrl_cases
                          (s2 <| ImageToolkit.lastBlob := Some blob |>
                              <| ImageToolkit.resultSize := Browser.blob_size blob |>))
      as [[Hn ->] | (u & Hu & ->)].
    - assert (Hn' : ImageToolkit.resultUrl s2 = None) by (destruct s2; exact Hn).
      rewrite Hn'. destruct s2; split_and!; try reflexivity. exact Herr2.
    - assert (Hu' : ImageToolkit.resultUrl s2 = Some u) by (destruct s2; exact Hu).
      rewrite Hu'.
      destruct s2 as [? ? ? ? ? ? ? ? ? ? ? ? ? ? ? ? ? ? ? ? ? ? ? ? ? ? ? ? w2].
      destruct w2; split_and!; try reflexivity. exact Herr2. }
  destruct HA as (HnA & HdA & HeA & HbA & HsA).
  rewrite Hres2 in HbA, HsA.
  subst sB. clearbody sA.
  destruct sA as [? ? ? ? ? ? ? ? ? ? ? ? ? ? ? ? ? ? ? ? ? ? ? ? ? ? ? ? wA].
  destruct wA; cbn in HnA, HdA, HeA, HbA, HsA. subst.
  destruct downloadNow; cbn; unfold constant; split_and!;
    try reflexivity; try discriminate; try (intros _; split_and!; reflexivity).
  - apply elem_of_difference. split; [set_solver|].
    rewrite elem_of_singleton. lia.
  - set_solver.
Qed.

(** X22.  When the canvas is ready and [canvas.toBlob] gives a blob,
    [generateResult] ends without an error message and with [processing]
    false; the status message gives the size of the blob and of the
    canvas, the result URL is the one created for the blob, which is live,
    and the download name is derived from the name of the file.  With
    [downloadNow] the blob is kept as the last blob and handed to
    [downloadBlob] once under that name.  Without it, the blob is kept as
    the last blob only when there was no result URL before: the cleanup of
    the earlier result, which runs after the blob is stored, empties the
    last blob and its size again. *)
Theorem result_is_published
    (env : ImageToolkit.Env) (downloadNow : bool) (s s2 : ImageToolkit.State)
    (f : Browser.File) (canvas : Browser.Canvas) (blob : Browser.Blob) :
  let s1 := ImageToolkit.beginProcessing downloadNow s in
  let format := ImageToolkit.selectedFormat s in
  let qualityOption :=
    if ImageToolkit.fmt_lossless format then None else Some (ImageToolkit.quality s) in
  ImageToolkit.file s = Some f ->
  ImageToolkit.prepareCanvas env
    (ImageToolkit.outputWidth s1) (ImageToolkit.outputHeight s1) s1 = (s2, inr canvas) ->
  ImageToolkit.toBlob env canvas (ImageToolkit.fmt_value format) qualityOption = Some blob ->
  let s' := ImageToolkit.generateResult env downloadNow s in
  let name :=
    FileUtil.deriveFileName (Browser.file_name f) (ImageToolkit.fmt_extension format)
      (if ImageToolkit.addPrivateSuffix s then Some "private"%string else None) in
  ImageToolkit.errorMessage s' = ""%string
  /\ ImageToolkit.processing s' = false
  /\ ImageToolkit.statusMessage s' = ImageToolkit.readyMessage blob canvas
  /\ ImageToolkit.resultUrl s' = Some (Browser.nextUrl (ImageToolkit.world s2))
  /\ Browser.nextUrl (ImageToolkit.world s2) ∈ Browser.liveUrls (ImageToolkit.world s')
  /\ ImageToolkit.lastDownloadName s' = Some name
  /\ (downloadNow = true ->
      ImageToolkit.lastBlob s' = Some blob
      /\ ImageToolkit.resultSize s' = Browser.blob_size blob
      /\ Browser.downloads (ImageToolkit.world s')
         = Browser.downloads (ImageToolkit.world s2)
           ++ [(S (Browser.nextUrl (ImageToolkit.world s2)), name)])
  /\ (downloadNow = false ->
      Browser.downloads (ImageToolkit.world s') = Browser.downloads (ImageToolkit.world s2)
      /\ ImageToolkit.lastBlob s'
         = match ImageToolkit.resultUrl s with Some _ => None | None => Some blob end
      /\ ImageToolkit.resultSize s'
         = match ImageToolkit.resultUrl s with
           | Some _ => 0
           | None => Browser.blob_size blob
           end).
Proof. apply generateResult_published. Qed.

Lemma result_is_published_witness :
  let s' := ImageToolkit.generateResult plain_encoder false small_picture_resize in
  ImageToolkit.errorMessage s' = ""%string
  /\ ImageToolkit.statusMessage s' = "Ready · 2.0 KB • 400 × 300"%string
  /\ ImageToolkit.lastDownloadName s' = Some "tall-private.png"%string
  /\ ImageToolkit.lastBlob s'
     = Some {| Browser.blob_size := 2048; Browser.blob_type := "image/png" |}.
Proof.
  intros s'.
  pose (run :=
    ImageToolkit.prepareCanvas plain_encoder
      (ImageToolkit.outputWidth (ImageToolkit.beginProcessing false small_picture_resize))
      (ImageToolkit.outputHeight (ImageToolkit.beginProcessing false small_picture_resize))
      (ImageToolkit.beginProcessing false small_picture_resize)).
  destruct run as [s2 [e|canvas]] eqn:Hrun; [vm_compute in Hrun; discriminate|].
  assert (Hcanvas : canvas = {| Browser.canvas_width := 400; Browser.canvas_height := 300 |})
    by (vm_compute in Hrun; injection Hrun as _ <-; reflexivity).
  destruct (result_is_published plain_encoder false small_picture_resize s2
              tall_picture canvas
              {| Browser.blob_size := 2048; Browser.blob_type := "image/png" |}
              eq_refl Hrun eq_refl)
    as (Herr & _ & Hstatus & _ & _ & Hname & _ & Hpreview).
  destruct (Hpreview eq_refl) as (_ & Hblob & _).
  split; [exact Herr|].
  split; [etransitivity; [exact Hstatus|]; rewrite Hcanvas; vm_compute; reflexivity|].
  split; [exact Hname | exact Hblob].
Defined.

Section Downloading.
Import Browser ImageToolkit.

Lemma deriveFileName_truthy (originalName targetExtension : string) (suffix : option string) :
  JS.truthyStr (FileUtil.deriveFileName originalName targetExtension suffix) = true.
Proof.
  unfold FileUtil.deriveFileName.
  destruct (stem_of_is_clean originalName) as (Hne & _).
  destruct (FileUtil.stem_of originalName) as [|c r]; [contradiction | reflexivity].
Qed.

End Downloading.

(** X23.  After [generateResult] has made a preview (the canvas ready, a blob
    encoded, no download asked), [downloadExisting] hands the
    blob of the preview to [downloadBlob] under the download name, without
    producing the result again, when the preview was the first result;
    when there was a result before, the preview has left no last blob, and
    [downloadExisting] produces the result anew. *)
Theorem download_after_preview
    (env env' : ImageToolkit.Env) (s s2 : ImageToolkit.State)
    (f : Browser.File) (canvas : Browser.Canvas) (blob : Browser.Blob) :
  let s1 := ImageToolkit.beginProcessing false s in
  let format := ImageToolkit.selectedFormat s in
  let qualityOption :=
    if ImageToolkit.fmt_lossless format then None else Some (ImageToolkit.quality s) in
  ImageToolkit.file s = Some f ->
  ImageToolkit.prepareCanvas env
    (ImageToolkit.outputWidth s1) (ImageToolkit.outputHeight s1) s1 = (s2, inr canvas) ->
  ImageToolkit.toBlob env canvas (ImageToolkit.fmt_value format) qualityOption = Some blob ->
  let s' := ImageToolkit.generateResult env false s in
  let name :=
    FileUtil.deriveFileName (Browser.file_name f) (ImageToolkit.fmt_extension format)
      (if ImageToolkit.addPrivateSuffix s then Some "private"%string else None) in
  (ImageToolkit.resultUrl s = None ->
   ImageToolkit.downloadExisting env' s'
   = s' <| ImageToolkit.world := Download.downloadBlob blob name (ImageToolkit.world s') |>)
  /\ (forall u, ImageToolkit.resultUrl s = Some u ->
      ImageToolkit.downloadExisting env' s' = ImageToolkit.generateResult env' true s').
Proof.
  intros s1 format qualityOption Hfile Hcanvas Hblob s' name.
  destruct (generateResult_published env false s s2 f canvas blob Hfile Hcanvas Hblob)
    as (_ & _ & _ & _ & _ & Hname & _ & Hpreview).
  destruct (Hpreview eq_refl) as (_ & Hlast & _).
  fold s' in Hname, Hlast. fold format in Hname. fold name in Hname.
  split.
  - intros Hnone. rewrite Hnone in Hlast.
    unfold ImageToolkit.downloadExisting. rewrite Hlast, Hname.
    subst name. rewrite deriveFileName_truthy. reflexivity.
  - intros u Hsome. rewrite Hsome in Hlast.
    unfold ImageToolkit.downloadExisting. rewrite Hlast. reflexivity.
Qed.

Lemma download_after_preview_witness :
  let s' := ImageToolkit.generateResult plain_encoder false small_picture_resize in
  Browser.downloads (ImageToolkit.world (ImageToolkit.downloadExisting no_encoder s'))
  = [(2%nat, "tall-private.png"%string)].
Proof.
  intros s'.
  pose (run :=
    ImageToolkit.prepareCanvas plain_encoder
      (ImageToolkit.outputWidth (ImageToolkit.beginProcessing false small_picture_resize))
      (ImageToolkit.outputHeight (ImageToolkit.beginProcessing false small_picture_resize))
      (ImageToolkit.beginProcessing false small_picture_resize)).
  destruct run as [s2 [e|canvas]] eqn:Hrun; [vm_compute in Hrun; discriminate|].
  destruct (download_after_preview plain_encoder no_encoder small_picture_resize s2
              tall_picture canvas
              {| Browser.blob_size := 2048; Browser.blob_type := "image/png" |}
              eq_refl Hrun eq_refl)
    as (Hfirst & _).
  fold s' in Hfirst. rewrite (Hfirst eq_refl). vm_compute. reflexivity.
Defined.

(** ** The full image, and a change of the mode *)
Section FullImage.
Import Browser ImageToolkit.

(** Called without a changed side, the lock of crop mode writes the ratio
    at most. *)
Lemma alignTarget_none (s : State) :
  exists r, alignTargetDimensionsToAspect None s = s <| aspectRatio := r |>.
Proof.
  unfold alignTargetDimensionsToAspect. cbn [changed_is andb].
  repeat match goal with
         | |- context [if ?c then _ else _] => destruct c
         end;
    first [eexists; reflexivity | exists (aspectRatio s); destruct s; reflexivity].
Qed.

Lemma useFullImage_sizes (s : State) :
  mode s = Crop -> 0 < originalWidth s < 2 ^ 53 -> 0 < originalHeight s < 2 ^ 53 ->
  let s' := useFullImage s in
  selectedPresetValue s' = JStr CUSTOM_PRESET_VALUE
  /\ mode s' = Crop
  /\ exists tw th,
       targetWidth s' = Some tw /\ targetHeight s' = Some th
       /\ 0 <= tw <= MAX_DIMENSION /\ 0 <= th <= MAX_DIMENSION
       /\ (originalWidth s <= MAX_DIMENSION -> originalHeight s <= MAX_DIMENSION ->
           tw = originalWidth s /\ th = originalHeight s)
       /\ (MAX_DIMENSION < originalWidth s \/ MAX_DIMENSION < originalHeight s ->
           MAX_DIMENSION - 1 <= tw \/ MAX_DIMENSION - 1 <= th).
Proof.
  intros Hmode Hw Hh s'. subst s'. unfold useFullImage. rewrite Hmode.
  cbn [mode_eqb negb].
  destruct (Z.eqb_spec (originalWidth s) 0); [lia|].
  destruct (Z.eqb_spec (originalHeight s) 0); [lia|]. cbn [orb]. cbv zeta.
  set (ow := originalWidth s) in *. set (oh := originalHeight s) in *.
  set (tw := if (ow >? MAX_DIMENSION) || (oh >? MAX_DIMENSION)
             then JS.floor (JS.mul (inject_Z ow) (fitScale ow oh)) else ow).
  set (th := if (ow >? MAX_DIMENSION) || (oh >? MAX_DIMENSION)
             then JS.floor (JS.mul (inject_Z oh) (fitScale ow oh)) else oh).
  assert (Hcaps : 0 <= tw <= MAX_DIMENSION /\ 0 <= th <= MAX_DIMENSION
                  /\ (ow <= MAX_DIMENSION -> oh <= MAX_DIMENSION -> tw = ow /\ th = oh)
                  /\ (MAX_DIMENSION < ow \/ MAX_DIMENSION < oh ->
                      MAX_DIMENSION - 1 <= tw \/ MAX_DIMENSION - 1 <= th)).
  { subst tw th.
    destruct (Z.gtb_spec ow MAX_DIMENSION), (Z.gtb_spec oh MAX_DIMENSION);
      cbn [orb];
      try (destruct (fitScale_caps ow oh Hw Hh) as (Hc1 & Hc2 & Hc3);
           split; [exact Hc1|]; split; [exact Hc2|];
           split; [lia | intros _; exact Hc3]).
    split; [lia|]. split; [lia|]. split; [intros _ _; split; reflexivity | lia]. }
  set (s1 := if (ow >? MAX_DIMENSION) || (oh >? MAX_DIMENSION)
             then s <| targetWidth := Some (JS.floor (JS.mul (inject_Z ow) (fitScale ow oh))) |>
                    <| targetHeight := Some (JS.floor (JS.mul (inject_Z oh) (fitScale ow oh))) |>
             else s <| targetWidth := Some ow |> <| targetHeight := Some oh |>).
  assert (Hs1 : s1 = s <| targetWidth := Some tw |> <| targetHeight := Some th |>)
    by (subst s1 tw th; destruct ((ow >? MAX_DIMENSION) || (oh >? MAX_DIMENSION));
        reflexivity).
  clearbody s1 tw th. subst s1.
  match goal with
  | |- context [if positiveQ ?q then ?a else ?b] =>
      set (s2 := if positiveQ q then a else b)
  end.
  assert (Hs2 : exists r, s2 = s <| targetWidth := Some tw |> <| targetHeight := Some th |>
                                 <| aspectRatio := r |>).
  { subst s2. destruct (positiveQ _).
    - eexists. reflexivity.
    - exists (aspectRatio s). destruct s; reflexivity. }
  clearbody s2. destruct Hs2 as (r2 & ->).
  match goal with
  | |- context [if maintainAspect ?t then ?a else ?b] =>
      set (s3 := if maintainAspect t then a else b)
  end.
  assert (Hs3 : exists r, s3 = s <| targetWidth := Some tw |> <| targetHeight := Some th |>
                                 <| aspectRatio := r |>).
  { subst s3. destruct (maintainAspect _).
    - match goal with |- context [alignTargetDimensionsToAspect None ?t] =>
        destruct (alignTarget_none t) as (r & ->) end.
      exists r. destruct s; reflexivity.
    - exists r2. reflexivity. }
  clearbody s3. destruct Hs3 as (r3 & ->).
  destruct s; cbn in *. subst. split; [reflexivity|]. split; [reflexivity|].
  exists tw, th. split; [reflexivity|]. split; [reflexivity|]. exact Hcaps.
Qed.

Lemma onModeChange_settles (s : State) :
  mode (onModeChange s) = mode s
  /\ previousMode (onModeChange s) = mode s
  /\ targetWidth (onModeChange s) = targetWidth s
  /\ targetHeight (onModeChange s) = targetHeight s
  /\ (mode s = Resize -> previousMode s = Crop ->
      cropper (onModeChange s) = None
      /\ forall c, cropper s = Some c -> c ∉ liveCroppers (world (onModeChange s))).
Proof.
  unfold onModeChange.
  destruct (mode s) eqn:Em, (previousMode s) eqn:Ep; cbn [mode_eqb negb].
  - rewrite Em, Ep. split_and!; try reflexivity. discriminate.
  - destruct (destroyCropper_released s) as (Hc & Hlive & _).
    assert (Hframe : mode (destroyCropper s) = Resize
                     /\ targetWidth (destroyCropper s) = targetWidth s
                     /\ targetHeight (destroyCropper s) = targetHeight s).
    { unfold destroyCropper. destruct s; cbn in *. destruct cropper0; cbn;
        split_and!; try reflexivity; assumption. }
    destruct Hframe as (Hm & Hw & Hh).
    set (t := destroyCropper s) in *. clearbody t.
    destruct t; cbn in *. subst. split_and!; try reflexivity; try assumption.
    intros _ _. split; [reflexivity | exact Hlive].
  - match goal with |- context [alignTargetDimensionsToAspect None ?t] =>
      set (s1 := t) end.
    assert (Hs1 : exists r, s1 = s <| aspectRatio := r |>).
    { subst s1.
      repeat match goal with |- context [if ?c then _ else _] => destruct c end;
        first [eexists; reflexivity | exists (aspectRatio s); destruct s; reflexivity]. }
    clearbody s1. destruct Hs1 as (r1 & ->).
    match goal with |- context [alignTargetDimensionsToAspect None ?t] =>
      destruct (alignTarget_none t) as (r & ->) end.
    destruct s; cbn in *. subst. split_and!; try reflexivity. discriminate.
  - rewrite Em, Ep. split_and!; try reflexivity. discriminate.
Qed.

End FullImage.

(** X24.  [useFullImage] in crop mode, with a picture loaded (its sizes
    below [2^53]), sets both target sizes and marks them as custom: they
    are the original sizes when those are within the maximum; otherwise
    they are the original sizes scaled down and rounded down from doubles,
    neither is above the maximum and one of them is the maximum or one
    pixel below it.  In resize mode, and without a picture, it does
    nothing. *)
Theorem full_image_is_capped (s : ImageToolkit.State) :
  (ImageToolkit.mode s = ImageToolkit.Crop ->
   0 < ImageToolkit.originalWidth s < 2 ^ 53 ->
   0 < ImageToolkit.originalHeight s < 2 ^ 53 ->
   let s' := ImageToolkit.useFullImage s in
   ImageToolkit.selectedPresetValue s' = Browser.JStr ImageToolkit.CUSTOM_PRESET_VALUE
   /\ ImageToolkit.mode s' = ImageToolkit.Crop
   /\ exists tw th,
        ImageToolkit.targetWidth s' = Some tw /\ ImageToolkit.targetHeight s' = Some th
        /\ 0 <= tw <= ImageToolkit.MAX_DIMENSION /\ 0 <= th <= ImageToolkit.MAX_DIMENSION
        /\ (ImageToolkit.originalWidth s <= ImageToolkit.MAX_DIMENSION ->
            ImageToolkit.originalHeight s <= ImageToolkit.MAX_DIMENSION ->
            tw = ImageToolkit.originalWidth s /\ th = ImageToolkit.originalHeight s)
        /\ (ImageToolkit.MAX_DIMENSION < ImageToolkit.originalWidth s
            \/ ImageToolkit.MAX_DIMENSION < ImageToolkit.originalHeight s ->
            ImageToolkit.MAX_DIMENSION - 1 <= tw \/ ImageToolkit.MAX_DIMENSION - 1 <= th))
  /\ (ImageToolkit.mode s = ImageToolkit.Resize -> ImageToolkit.useFullImage s = s)
  /\ (ImageToolkit.originalWidth s = 0 \/ ImageToolkit.originalHeight s = 0 ->
      ImageToolkit.useFullImage s = s).
Proof.
  split_and!.
  - apply useFullImage_sizes.
  - intros Hmode. unfold ImageToolkit.useFullImage. rewrite Hmode. reflexivity.
  - intros Hzero. unfold ImageToolkit.useFullImage.
    destruct (negb _); [reflexivity|].
    destruct Hzero as [-> | ->]; [reflexivity|]. rewrite orb_true_r. reflexivity.
Qed.

Lemma full_image_is_capped_witness :
  ImageToolkit.targetWidth (ImageToolkit.useFullImage wide_picture_loaded) = Some 8192
  /\ ImageToolkit.targetHeight (ImageToolkit.useFullImage wide_picture_loaded) = Some 4096
  /\ ImageToolkit.targetWidth (ImageToolkit.useFullImage odd_picture_loaded) = Some 8191
  /\ exists tw th,
       ImageToolkit.targetWidth (ImageToolkit.useFullImage wide_picture_loaded) = Some tw
       /\ ImageToolkit.targetHeight (ImageToolkit.useFullImage wide_picture_loaded) = Some th
       /\ tw <= ImageToolkit.MAX_DIMENSION /\ th <= ImageToolkit.MAX_DIMENSION.
Proof.
  split; [vm_compute; reflexivity|]. split; [vm_compute; reflexivity|].
  split; [vm_compute; reflexivity|].
  destruct (full_image_is_capped wide_picture_loaded) as (H & _ & _).
  destruct H as (_ & _ & tw & th & Hw & Hh & Hwr & Hhr & _);
    [reflexivity | vm_compute; split; reflexivity | vm_compute; split; reflexivity |].
  exists tw, th. split_and!; try assumption; lia.
Defined.

(** X25.  The reactive block on the mode keeps the mode and the target
    sizes and records the mode as the previous one, so a second run of the
    block changes nothing; when the mode has become resize, the cropper is
    destroyed and none is left. *)
Theorem mode_change_settles (s : ImageToolkit.State) :
  let s' := ImageToolkit.onModeChange s in
  ImageToolkit.mode s' = ImageToolkit.mode s
  /\ ImageToolkit.previousMode s' = ImageToolkit.mode s
  /\ ImageToolkit.targetWidth s' = ImageToolkit.targetWidth s
  /\ ImageToolkit.targetHeight s' = ImageToolkit.targetHeight s
  /\ ImageToolkit.onModeChange s' = s'
  /\ (ImageToolkit.mode s = ImageToolkit.Resize ->
      ImageToolkit.previousMode s = ImageToolkit.Crop ->
      ImageToolkit.cropper s' = None
      /\ forall c, ImageToolkit.cropper s = Some c ->
                   c ∉ Browser.liveCroppers (ImageToolkit.world s')).
Proof.
  intros s'. subst s'.
  destruct (onModeChange_settles s) as (Hm & Hp & Hw & Hh & Hc).
  split_and!; try assumption.
  unfold ImageToolkit.onModeChange at 1. rewrite Hm, Hp.
  destruct (ImageToolkit.mode s); reflexivity.
Qed.

Lemma mode_change_settles_witness :
  let s := tall_picture_loaded <| ImageToolkit.cropper := Some 0%nat |>
                               <| ImageToolkit.mode := ImageToolkit.Resize |> in
  ImageToolkit.cropper (ImageToolkit.onModeChange s) = None
  /\ ImageToolkit.previousMode (ImageToolkit.onModeChange s) = ImageToolkit.Resize.
Proof.
  intros s.
  destruct (mode_change_settles s) as (_ & Hp & _ & _ & _ & Hc).
  destruct (Hc eq_refl eq_refl) as [Hnone _].
  split; [exact Hnone | exact Hp].
Defined.

(** X26.  The callback of [onMount] takes nothing from a storage area that
    is disabled, holds no entry under the key, holds a text that
    [JSON.parse] rejects, or holds a JSON value that is not an object:
    only the cropper module is imported, and every setting keeps its
    value.  With the area disabled, the reactive block that writes the
    settings changes nothing, and the component comes up with the declared
    values. *)
Theorem bad_storage_is_ignored (s : ImageToolkit.State) :
  (Browser.storageEnabled (ImageToolkit.world s) = false ->
   ImageToolkit.onMount s = s <| ImageToolkit.CropperCtor := true |>
   /\ ImageToolkit.persistSettings s = s
   /\ ImageToolkit.create (ImageToolkit.world s)
      = (ImageToolkit.initial (ImageToolkit.world s)) <| ImageToolkit.CropperCtor := true |>)
  /\ (Browser.storage (ImageToolkit.world s) !! ImageToolkit.SETTINGS_KEY = None ->
      ImageToolkit.onMount s = s <| ImageToolkit.CropperCtor := true |>)
  /\ (Browser.storage (ImageToolkit.world s) !! ImageToolkit.SETTINGS_KEY
      = Some Browser.Unparsable ->
      ImageToolkit.onMount s = s <| ImageToolkit.CropperCtor := true |>)
  /\ (forall v,
      Browser.storage (ImageToolkit.world s) !! ImageToolkit.SETTINGS_KEY
      = Some (Browser.Parsed v) ->
      (forall fields, v <> Browser.JObj fields) ->
      ImageToolkit.onMount s = s <| ImageToolkit.CropperCtor := true |>).
Proof.
  assert (Hworld : ImageToolkit.world (s <| ImageToolkit.CropperCtor := true |>)
                   = ImageToolkit.world s) by (destruct s; reflexivity).
  split_and!.
  - intros Hoff. split; [|split].
    + unfold ImageToolkit.onMount, ImageToolkit.restoreSettings.
      rewrite Hworld, Hoff. reflexivity.
    + unfold ImageToolkit.persistSettings, ImageToolkit.setItem. rewrite Hoff. reflexivity.
    + apply create_disabled. exact Hoff.
  - intros Hnone. unfold ImageToolkit.onMount, ImageToolkit.restoreSettings.
    rewrite Hworld, Hnone. destruct (negb _); reflexivity.
  - intros Hbad. unfold ImageToolkit.onMount, ImageToolkit.restoreSettings.
    rewrite Hworld, Hbad. destruct (negb _); reflexivity.
  - intros v Hentry Hshape. unfold ImageToolkit.onMount, ImageToolkit.restoreSettings.
    rewrite Hworld, Hentry. destruct (negb _); [reflexivity|].
    destruct v as [|b|q|t|items|fields]; try reflexivity.
    exfalso. apply (Hshape fields). reflexivity.
Qed.

Lemma bad_storage_is_ignored_witness :
  let s := (ImageToolkit.initial
              (Browser.freshWorld
                 <| Browser.storage :=
                      {[ ImageToolkit.SETTINGS_KEY
                         := Browser.Parsed (Browser.JStr "resize") ]} |>)) in
  ImageToolkit.mode (ImageToolkit.onMount s) = ImageToolkit.Crop.
Proof.
  intros s.
  destruct (bad_storage_is_ignored s) as (_ & _ & _ & H).
  rewrite (H (Browser.JStr "resize")); [reflexivity | | discriminate].
  subst s. cbn. apply lookup_insert_eq.
Defined.

(** ** An image that does not load *)
Section Fallback.
Import Browser ImageToolkit.




End Fallback.


